(** * Tech-Hive backend: the scan service, its cache, its rate limiter and
      its request validator, embedded from the TypeScript sources.

    Part I holds the model (sources under [backend/src]):
    - [JS], [JSONModel]  the fragments of the JavaScript platform the code
                         uses: string methods, values, JSON, dates;
    - [Shell]            word splitting by the shell that [exec] starts;
    - [Errors]           [middleware/errorHandler.ts];
    - [TruffleHog]       [services/trufflehogService.ts];
    - [Cache]            [services/cacheService.ts];
    - [RateLimit]        [middleware/rateLimiter.ts];
    - [Validator]        [validators/scanValidator.ts];
    - [ScanService]      [services/scanService.ts] and the controller;
    - [RunnerTraces], [CacheOps], [RateLimitRuns]
                         what the properties of Part II need besides;
    - [Health]           the health checks of the service, the controller
                         and [routes/health.ts];
    - [History]          [validateHistoryQuery] and
                         [repositories/scanRepository.ts];
    - [ScanStore]        the stored scans and [ScanService.deleteScan].
    Part II holds the properties, one module per component.

    Strings are byte strings (UTF-8); integers are [Z]; time is in
    milliseconds since the epoch, as [Date.now()] reports it.  Logging is
    left out except where a property speaks of it. *)

From Stdlib Require Import ZArith Lia Bool Ascii DecimalString.
From stdpp Require Import base list strings gmap.

Open Scope Z_scope.

(* ===================================================================== *)
(** * Part I: the model                                                    *)
(* ===================================================================== *)

(** ** The JavaScript platform fragments *)

Module JS.

(** [s.startsWith(p)]. *)
Fixpoint startsWith (p s : string) : bool :=
  match p, s with
  | EmptyString, _ => true
  | String a p', String b s' => if decide (a = b) then startsWith p' s' else false
  | String _ _, EmptyString => false
  end.

(** [s.includes(sub)]: [sub] occurs somewhere in [s]. *)
Fixpoint includes (s sub : string) : bool :=
  startsWith sub s ||
  match s with
  | EmptyString => false
  | String _ s' => includes s' sub
  end.

(** Decimal rendering of an integer, as template literals print it. *)
Definition showZ (z : Z) : string := NilZero.string_of_int (Z.to_int z).

(** [a || b] on strings: the empty string is falsy. *)
Definition orElse (a b : string) : string :=
  match a with EmptyString => b | _ => a end.

(** The byte of a character. *)
Definition byteOf (c : ascii) : Z := Z.of_N (N_of_ascii c).

(** Number of bytes of the WhiteSpace or LineTerminator code point that
    starts [s], or [0] when [s] does not start with one.  These are the code
    points [String.prototype.trim] strips: TAB, LF, VT, FF, CR, SP, U+00A0,
    U+1680, U+2000 to U+200A, U+2028, U+2029, U+202F, U+205F, U+3000 and
    U+FEFF. *)
Definition whiteLen (s : string) : nat :=
  match s with
  | EmptyString => 0%nat
  | String c r =>
    let b0 := byteOf c in
    if ((9 <=? b0) && (b0 <=? 13)) || (b0 =? 32) then 1%nat
    else match r with
    | EmptyString => 0%nat
    | String d r' =>
      let b1 := byteOf d in
      if (b0 =? 194) && (b1 =? 160) then 2%nat
      else match r' with
      | EmptyString => 0%nat
      | String e _ =>
        let b2 := byteOf e in
        if (b0 =? 225) && (b1 =? 154) && (b2 =? 128) then 3%nat
        else if (b0 =? 226) && (b1 =? 128)
                && (((128 <=? b2) && (b2 <=? 138)) || (b2 =? 168)
                    || (b2 =? 169) || (b2 =? 175)) then 3%nat
        else if (b0 =? 226) && (b1 =? 129) && (b2 =? 159) then 3%nat
        else if (b0 =? 227) && (b1 =? 128) && (b2 =? 128) then 3%nat
        else if (b0 =? 239) && (b1 =? 187) && (b2 =? 191) then 3%nat
        else 0%nat
      end
    end
  end.

(** [skip] bytes of a white code point are still to be dropped. *)
Fixpoint trimStartFrom (skip : nat) (s : string) : string :=
  match s with
  | EmptyString => EmptyString
  | String _ r =>
    match skip with
    | S k => trimStartFrom k r
    | O =>
      match whiteLen s with
      | O => s
      | S k => trimStartFrom k r
      end
    end
  end.

(** [s.trimStart()]. *)
Definition trimStart (s : string) : string := trimStartFrom 0 s.

(** [s] consists of white code points only. *)
Fixpoint allWhiteFrom (skip : nat) (s : string) : bool :=
  match s with
  | EmptyString => true
  | String _ r =>
    match skip with
    | S k => allWhiteFrom k r
    | O =>
      match whiteLen s with
      | O => false
      | S k => allWhiteFrom k r
      end
    end
  end.

Definition allWhite (s : string) : bool := allWhiteFrom 0 s.

(** [s.trimEnd()]. *)
Fixpoint trimEnd (s : string) : string :=
  match s with
  | EmptyString => EmptyString
  | String c r => if allWhite s then EmptyString else String c (trimEnd r)
  end.

(** [s.trim()]. *)
Definition trim (s : string) : string := trimEnd (trimStart s).

(** [!s] for a string: only the empty string is falsy. *)
Definition isEmpty (s : string) : bool :=
  match s with EmptyString => true | _ => false end.

(** [s.split('\n')]. *)
Fixpoint splitLines (s : string) : list string :=
  match s with
  | EmptyString => [EmptyString]
  | String c r =>
    if decide (c = "010"%char) then EmptyString :: splitLines r
    else match splitLines r with
         | h :: t => String c h :: t
         | [] => [String c EmptyString]
         end
  end.

(** The high surrogate of the code point outside the basic plane whose
    four bytes start [s], written as three bytes (generalised UTF-8): what
    is left of the code point when a slice ends between its two UTF-16
    code units. *)
Definition highSurrogate (s : string) : string :=
  let byteAt (i : nat) : Z :=
    match String.get i s with Some c => byteOf c | None => 0 end in
  let cp := Z.land (byteAt 0%nat) 7 * 262144 + Z.land (byteAt 1%nat) 63 * 4096
            + Z.land (byteAt 2%nat) 63 * 64 + Z.land (byteAt 3%nat) 63 in
  let hi := 55296 + (cp - 65536) / 1024 in
  let char (z : Z) : ascii := ascii_of_N (Z.to_N z) in
  String (char 237)
    (String (char (128 + Z.land (hi / 64) 63))
       (String (char (128 + Z.land hi 63)) EmptyString)).

(** [n] UTF-16 code units of [s], where [skip] bytes of the current code
    point are still to be copied.  A code point of one, two or three bytes
    is one code unit, one of four bytes is two. *)
Fixpoint sliceUnits (n skip : nat) (s : string) : string :=
  match s with
  | EmptyString => EmptyString
  | String c r =>
    match skip with
    | S k => String c (sliceUnits n k r)
    | O =>
      let b := byteOf c in
      match n with
      | O => EmptyString
      | S m =>
        if b <? 192 then String c (sliceUnits m 0 r)
        else if b <? 224 then String c (sliceUnits m 1 r)
        else if b <? 240 then String c (sliceUnits m 2 r)
        else match m with
             | S m' => String c (sliceUnits m' 3 r)
             | O => highSurrogate s
             end
      end
    end
  end.

(** [s.slice(0, n)]: [n] counts UTF-16 code units. *)
Definition slice0 (n : nat) (s : string) : string := sliceUnits n 0 s.

(** A number: a finite double, written [m * 2^e], or one of the
    non-finite values. *)
Inductive JSNumber :=
| NFinite (m e : Z)
| NNaN
| NInfinity (negative : bool).

(** A JavaScript value, as far as the services handle them: what
    [JSON.parse] returns, plus [undefined] and [Date] objects.  An object
    is the list of its own properties in insertion order. *)
#[warnings="-register-all"]
Inductive JSValue :=
| JUndefined
| JNull
| JBool (b : bool)
| JNumber (n : JSNumber)
| JString (s : string)
| JDate (ms : Z)
| JArray (items : list JSValue)
| JObject (fields : list (string * JSValue)).

(** An integer as a number. *)
Definition JInt (z : Z) : JSValue := JNumber (NFinite z 0).

(** Truthiness, as [||] and [if] test it. *)
Definition truthy (v : JSValue) : bool :=
  match v with
  | JUndefined | JNull => false
  | JBool b => b
  | JNumber (NFinite m _) => negb (m =? 0)
  | JNumber NNaN => false
  | JNumber (NInfinity _) => true
  | JString s => negb (isEmpty s)
  | JDate _ | JArray _ | JObject _ => true
  end.

(** [a || b]. *)
Definition or (a b : JSValue) : JSValue := if truthy a then a else b.

(** First binding of [k] in a property list. *)
Fixpoint assoc (k : string) (fs : list (string * JSValue)) : JSValue :=
  match fs with
  | [] => JUndefined
  | (k', v) :: rest => if decide (k = k') then v else assoc k rest
  end.

(** [v.k] for a property name that no prototype defines: [None] stands
    for the [TypeError] that reading a property of [null] or [undefined]
    throws. *)
Definition getProp (v : JSValue) (k : string) : option JSValue :=
  match v with
  | JUndefined | JNull => None
  | JObject fs => Some (assoc k fs)
  | _ => Some JUndefined
  end.

End JS.

(** ** JSON and dates *)

Module JSONModel.
Import JS.

(** [z] in decimal, padded with zeros to at least [width] digits
    ([z >= 0]). *)
Fixpoint zeros (n : nat) : string :=
  match n with O => EmptyString | S k => String "0"%char (zeros k) end.

Definition pad (width : nat) (z : Z) : string :=
  let digits := showZ z in
  zeros (width - String.length digits) +:+ digits.

(** Year, month and day of the day number [days] (days since 1970-01-01)
    in the proleptic Gregorian calendar. *)
Definition civil (days : Z) : Z * Z * Z :=
  let z := days + 719468 in
  let era := z / 146097 in
  let doe := z - era * 146097 in
  let yoe := (doe - doe / 1460 + doe / 36524 - doe / 146096) / 365 in
  let doy := doe - (365 * yoe + yoe / 4 - yoe / 100) in
  let mp := (5 * doy + 2) / 153 in
  let d := doy - (153 * mp + 2) / 5 + 1 in
  let m := if mp <? 10 then mp + 3 else mp - 9 in
  let y := yoe + era * 400 + (if m <=? 2 then 1 else 0) in
  (y, m, d).

(** [new Date(ms).toISOString()]. *)
Definition toISOString (ms : Z) : string :=
  let '(y, m, d) := civil (ms / 86400000) in
  let t := ms mod 86400000 in
  let year :=
    if (0 <=? y) && (y <=? 9999) then pad 4 y
    else (if y <? 0 then "-" else "+") +:+ pad 6 (Z.abs y) in
  year +:+ "-" +:+ pad 2 m +:+ "-" +:+ pad 2 d +:+ "T"
    +:+ pad 2 (t / 3600000) +:+ ":" +:+ pad 2 (t / 60000 mod 60) +:+ ":"
    +:+ pad 2 (t / 1000 mod 60) +:+ "." +:+ pad 3 (t mod 1000) +:+ "Z".

(** A [Date] holds a time value only within 8.64e15 ms of the epoch;
    beyond that it is an invalid date. *)
Definition validTime (ms : Z) : bool := Z.abs ms <=? 8640000000000000.

(** The value [JSON.parse(JSON.stringify(v))]: what a value looks like
    after it went through its JSON text.  [None] when [JSON.stringify]
    yields [undefined].  A [Date] becomes its ISO string ([toJSON]), a
    non-finite number becomes [null], a property whose value is
    [undefined] is omitted, and [undefined] in an array becomes [null]. *)
Fixpoint jsonImage (v : JSValue) : option JSValue :=
  match v with
  | JUndefined => None
  | JNull => Some JNull
  | JBool b => Some (JBool b)
  | JNumber (NFinite m e) => Some (JNumber (NFinite m e))
  | JNumber _ => Some JNull
  | JString s => Some (JString s)
  | JDate ms => Some (if validTime ms then JString (toISOString ms) else JNull)
  | JArray items =>
    Some (JArray ((fix go (l : list JSValue) : list JSValue :=
                     match l with
                     | [] => []
                     | x :: r => default JNull (jsonImage x) :: go r
                     end) items))
  | JObject fields =>
    Some (JObject ((fix go (l : list (string * JSValue)) : list (string * JSValue) :=
                      match l with
                      | [] => []
                      | (k, x) :: r =>
                        match jsonImage x with
                        | Some y => (k, y) :: go r
                        | None => go r
                        end
                      end) fields))
  end.

(** A value that [JSON.parse] can return: no [undefined], no [Date], no
    non-finite number anywhere inside. *)
Fixpoint jsonClean (v : JSValue) : bool :=
  match v with
  | JUndefined | JDate _ => false
  | JNull | JBool _ | JString _ => true
  | JNumber (NFinite _ _) => true
  | JNumber _ => false
  | JArray items =>
    (fix go (l : list JSValue) : bool :=
       match l with [] => true | x :: r => jsonClean x && go r end) items
  | JObject fields =>
    (fix go (l : list (string * JSValue)) : bool :=
       match l with [] => true | (_, x) :: r => jsonClean x && go r end) fields
  end.

End JSONModel.

(** ** The shell that [exec] hands the command to *)

Module Shell.

(** Word splitting of a command line by the POSIX shell, for the
    fragment of its grammar that the scanner command uses: words
    separated by blanks, single-quoted text (everything literal up to the
    closing quote) and double-quoted text.  Every character with another
    meaning to the shell (expansions, operators, escapes, globs) is
    outside the fragment when it occurs outside single quotes: the result
    is then [None], as it is for an unterminated quote. *)
Inductive Mode := Unquoted | Single | Double.

Definition blank (c : ascii) : bool :=
  bool_decide (c = " "%char) || bool_decide (c = "009"%char)
  || bool_decide (c = "010"%char).

(** Characters that are ordinary in an unquoted word. *)
Definition plain (c : ascii) : bool :=
  let b := JS.byteOf c in
  ((97 <=? b) && (b <=? 122)) || ((65 <=? b) && (b <=? 90))
  || ((48 <=? b) && (b <=? 57))
  || bool_decide (c = "-"%char) || bool_decide (c = "="%char)
  || bool_decide (c = "_"%char) || bool_decide (c = "."%char)
  || bool_decide (c = "/"%char) || bool_decide (c = ":"%char).

(** Characters that are ordinary between double quotes. *)
Definition plainInDouble (c : ascii) : bool :=
  negb (bool_decide (c = "034"%char) || bool_decide (c = "$"%char)
        || bool_decide (c = "`"%char) || bool_decide (c = "\"%char)).

Definition snoc (w : string) (c : ascii) : string := w +:+ String c EmptyString.

Definition flush (cur : option string) : list string :=
  match cur with Some w => [w] | None => [] end.

(** [acc] holds the finished words, [cur] the word in progress, if
    any. *)
Fixpoint split (m : Mode) (acc : list string) (cur : option string)
  (s : string) : option (list string) :=
  match s with
  | EmptyString =>
    match m with
    | Unquoted => Some (acc ++ flush cur)
    | _ => None
    end
  | String c r =>
    match m with
    | Unquoted =>
      if blank c then split Unquoted (acc ++ flush cur) None r
      else if bool_decide (c = "'"%char) then
        split Single acc (Some (default "" cur)) r
      else if bool_decide (c = "034"%char) then
        split Double acc (Some (default "" cur)) r
      else if plain c then
        split Unquoted acc (Some (snoc (default "" cur) c)) r
      else None
    | Single =>
      if bool_decide (c = "'"%char) then split Unquoted acc cur r
      else split Single acc (Some (snoc (default "" cur) c)) r
    | Double =>
      if bool_decide (c = "034"%char) then split Unquoted acc cur r
      else if plainInDouble c then
        split Double acc (Some (snoc (default "" cur) c)) r
      else None
    end
  end.

(** The argument vector the shell builds from a command line. *)
Definition words (command : string) : option (list string) :=
  split Unquoted [] None command.

End Shell.

(** ** middleware/errorHandler.ts *)

Module Errors.

(** The classes of the hierarchy [Error > AppError > {ValidationError,
    NotFoundError, ConflictError, UnauthorizedError, ForbiddenError,
    ScanError}]. *)
Inductive ErrorClass :=
| CError | CAppError | CValidationError | CNotFoundError | CConflictError
| CUnauthorizedError | CForbiddenError | CScanError.

#[global] Instance ErrorClass_eq_dec : EqDecision ErrorClass.
Proof. solve_decision. Defined.

(** [error.code]: a string for the application's errors; drivers also use
    numbers (the handler tests for [11000]). *)
Inductive ErrCode :=
| CodeStr (s : string)
| CodeNum (n : Z).

#[global] Instance ErrCode_eq_dec : EqDecision ErrCode.
Proof. solve_decision. Defined.

(** An error object.  A plain [Error] has no [statusCode] and no [code];
    [name] is ['Error'] unless a constructor assigns it. *)
Record JSError := mkError {
  cls : ErrorClass;
  name : string;
  message : string;
  statusCode : option Z;
  code : option ErrCode
}.

#[global] Instance JSError_eq_dec : EqDecision JSError.
Proof. solve_decision. Defined.

(** Anything a [catch] clause can receive: an [Error] instance or some
    other value. *)
Inductive Thrown :=
| ThrownError (e : JSError)
| ThrownOther.

(** [new Error(message)]. *)
Definition Error (msg : string) : JSError :=
  mkError CError "Error" msg None None.

(** A [TypeError] thrown by the engine: an [Error] whose [name] is
    ['TypeError']. *)
Definition TypeError (msg : string) : JSError :=
  mkError CError "TypeError" msg None None.

(** The message of the [TypeError] that reading the property [k] of [null]
    or [undefined] throws, in the words of V8. *)
Definition cannotRead (isNull : bool) (k : string) : string :=
  "Cannot read properties of " +:+ (if isNull then "null" else "undefined")
    +:+ " (reading '" +:+ k +:+ "')".

(** [new AppError(message, statusCode, code)]; the class does not assign
    [name]. *)
Definition AppError (msg : string) (status : Z) (c : string) : JSError :=
  mkError CAppError "Error" msg (Some status) (Some (CodeStr c)).

(** [class ScanError extends AppError]:
    [super(message, 500, 'SCAN_ERROR'); this.name = 'ScanError']. *)
Definition ScanError (msg : string) : JSError :=
  mkError CScanError "ScanError" msg (Some 500) (Some (CodeStr "SCAN_ERROR")).

(** [class ValidationError extends AppError]:
    [super(message, 400, 'VALIDATION_ERROR'); this.name = 'ValidationError']. *)
Definition ValidationError (msg : string) : JSError :=
  mkError CValidationError "ValidationError" msg (Some 400)
          (Some (CodeStr "VALIDATION_ERROR")).

(** [error instanceof AppError]. *)
Definition instanceofAppError (t : Thrown) : bool :=
  match t with
  | ThrownError e => negb (bool_decide (cls e = CError))
  | ThrownOther => false
  end.

(** [error instanceof ScanError]. *)
Definition instanceofScanError (t : Thrown) : bool :=
  match t with
  | ThrownError e => bool_decide (cls e = CScanError)
  | ThrownOther => false
  end.

(** [error instanceof ValidationError]. *)
Definition instanceofValidationError (t : Thrown) : bool :=
  match t with
  | ThrownError e => bool_decide (cls e = CValidationError)
  | ThrownOther => false
  end.

(** [error instanceof Error ? error.message : 'Unknown error']. *)
Definition messageOrUnknown (t : Thrown) : string :=
  match t with
  | ThrownError e => message e
  | ThrownOther => "Unknown error"
  end.

(** What [errorHandler] writes into the response: the HTTP status and the
    [error.code] and [error.message] fields of the JSON body. *)
Record ErrorResponse := mkResp {
  respStatus : Z;
  respCode : string;
  respMessage : string
}.

#[global] Instance ErrorResponse_eq_dec : EqDecision ErrorResponse.
Proof. solve_decision. Defined.

(** The string the handler copies from [error.code] of an [AppError]
    (every constructor of the hierarchy passes a string). *)
Definition codeString (c : option ErrCode) : string :=
  match c with
  | Some (CodeStr s) => s
  | _ => "INTERNAL_ERROR"
  end.

Definition errorHandler (e : JSError) : ErrorResponse :=
  if instanceofAppError (ThrownError e) then
    mkResp (default 500 (statusCode e)) (codeString (code e)) (message e)
  else if bool_decide (name e = "ValidationError") then
    mkResp 400 "VALIDATION_ERROR" (message e)
  else if bool_decide (name e = "CastError") then
    mkResp 400 "INVALID_DATA" "Invalid data format"
  else if bool_decide (name e = "MongoServerError")
          && bool_decide (code e = Some (CodeNum 11000)) then
    mkResp 409 "DUPLICATE_ENTRY" "Duplicate entry detected"
  else
    mkResp 500 "INTERNAL_ERROR" "Internal server error".

End Errors.

(** ** services/trufflehogService.ts *)

Module TruffleHog.
Import JS Errors.

(** *** Building the scanner command *)

(** The double-quote character, and the replacement text of
    [escapeShellArg]: quote, double quote, quote, double quote, quote. *)
Definition DQ : string := String "034"%char EmptyString.
Definition quoteEscape : string := "'" +:+ DQ +:+ "'" +:+ DQ +:+ "'".

(** [arg.replace(/'/g, quoteEscape)]. *)
Fixpoint replaceQuotes (arg : string) : string :=
  match arg with
  | EmptyString => EmptyString
  | String c r =>
    if decide (c = "'"%char) then quoteEscape +:+ replaceQuotes r
    else String c (replaceQuotes r)
  end.

(** [escapeShellArg]: the argument between single quotes. *)
Definition escapeShellArg (arg : string) : string :=
  "'" +:+ replaceQuotes arg +:+ "'".

(** [l.join(sep)]. *)
Fixpoint join (sep : string) (l : list string) : string :=
  match l with
  | [] => EmptyString
  | [x] => x
  | x :: rest => x +:+ sep +:+ join sep rest
  end.

Definition flags : list string :=
  ["--json"; "--no-verification"; "--concurrency=1"].

(** The [subcommand] variable of [buildTruffleHogCommand] after the
    [if / else if / else]. *)
Definition subcommandOf (repoUrl : string) : string :=
  if includes repoUrl "gitlab.com" then "gitlab"
  else if includes repoUrl "github.com" then "github"
  else "git".

Definition buildTruffleHogCommand (repoUrl : string) : string :=
  let subcommand := subcommandOf repoUrl in
  if decide (subcommand = "git") then
    "trufflehog git " +:+ escapeShellArg repoUrl +:+ " " +:+ join " " flags
  else
    "trufflehog " +:+ subcommand +:+ " --repo=" +:+ escapeShellArg repoUrl
      +:+ " " +:+ join " " flags.

(** The argument that names the repository: the [--repo=] flag for the
    [github] and [gitlab] subcommands, the bare URL for [git]. *)
Definition repoArgument (repoUrl : string) : string :=
  if decide (subcommandOf repoUrl = "git") then repoUrl
  else "--repo=" +:+ repoUrl.

(** How a child process is requested from [child_process]: [exec] hands one
    command string to the shell; [execFile] and [spawn] take the program
    and its argument vector. *)
Inductive SpawnRequest :=
| ExecShell (command : string)
| ExecFile (file : string) (args : list string).

(** [executeWithTimeout] starts the child with [exec(command, ...)]. *)
Definition spawnRequest (command : string) : SpawnRequest := ExecShell command.

(** The request issued for a repository URL ([executeTruffleHog]). *)
Definition scannerInvocation (repoUrl : string) : SpawnRequest :=
  spawnRequest (buildTruffleHogCommand repoUrl).

(** *** The process runner: [executeWithTimeout] *)

Inductive Settlement :=
| Resolved (stdout stderr : string)
| Rejected (e : JSError).

(** The timer of [setTimeout]: pending, cancelled by [clearTimeout], or
    run. *)
Inductive TimerState := Armed | Cleared | Fired.

(** The child that [exec] returns, on the operating-system side.  [exec]
    runs the command in a shell: this child is the shell, and the scanner
    is a process that the shell starts. *)
Inductive ChildState :=
| Running
| Killed (signal : string)   (* a kill signal was sent to the running child *)
| Exited                     (* ['exit'] was emitted *)
| NeverSpawned.              (* the spawn failed: there is no process *)

#[global] Instance TimerState_eq_dec : EqDecision TimerState.
Proof. solve_decision. Defined.
#[global] Instance ChildState_eq_dec : EqDecision ChildState.
Proof. solve_decision. Defined.

(** The closure of one [executeWithTimeout] call, with the two processes
    behind it: the child of [exec] (the shell) and the scanner that the
    shell runs; [scanner] says whether the scanner process is running. *)
Record Runner := mkRunner {
  stdout : string;
  stderr : string;
  timer : TimerState;
  child : ChildState;
  settled : option Settlement;
  scanner : bool
}.

(** [resolve] and [reject]: only the first call settles the promise. *)
Definition settle (s : Settlement) (r : Runner) : Runner :=
  match settled r with
  | Some _ => r
  | None => mkRunner (stdout r) (stderr r) (timer r) (child r) (Some s) (scanner r)
  end.

(** [clearTimeout(timer)]: cancels a pending timer. *)
Definition clearTimeout (r : Runner) : Runner :=
  mkRunner (stdout r) (stderr r)
           (match timer r with Armed => Cleared | t => t end)
           (child r) (settled r) (scanner r).

(** [child.kill(signal)]: the signal is sent to the child of [exec], the
    shell, while it runs; no signal is sent to the scanner. *)
Definition kill (signal : string) (r : Runner) : Runner :=
  mkRunner (stdout r) (stderr r) (timer r)
           (match child r with Running => Killed signal | c => c end)
           (settled r) (scanner r).

(** [child.stdout.on('data', ...)] and [child.stderr.on('data', ...)]. *)
Definition onStdout (data : string) (r : Runner) : Runner :=
  mkRunner (stdout r +:+ data) (stderr r) (timer r) (child r) (settled r) (scanner r).
Definition onStderr (data : string) (r : Runner) : Runner :=
  mkRunner (stdout r) (stderr r +:+ data) (timer r) (child r) (settled r) (scanner r).

(** The [setTimeout] callback. *)
Definition onTimeout (r : Runner) : Runner :=
  settle (Rejected (Error "Command timeout")) (kill "SIGKILL" r).

(** The message of a nonzero exit. *)
Definition exitMessage (code : Z) (stderr : string) : string :=
  "TruffleHog exited with code " +:+ showZ code +:+ ": "
    +:+ orElse stderr "Unknown error".

(** [child.on('exit', (code, signal) => ...)]. *)
Definition onExit (code : option Z) (signal : option string) (r : Runner) : Runner :=
  let r := clearTimeout r in
  if bool_decide (signal = Some "SIGKILL") then
    settle (Rejected (Error "Command was killed due to timeout")) r
  else
    match code with
    | Some c =>
      if bool_decide (c = 0) then settle (Resolved (stdout r) (stderr r)) r
      else settle (Rejected (Error (exitMessage c (stderr r)))) r
    | None => settle (Resolved (stdout r) (stderr r)) r
    end.

(** [child.on('error', (error) => ...)]. *)
Definition onError (e : JSError) (r : Runner) : Runner :=
  settle (Rejected e) (clearTimeout r).

(** The closure right after [executeWithTimeout] has registered its
    listeners, for a child that was spawned (the shell runs the scanner)
    and for a spawn that failed. *)
Definition started : Runner := mkRunner "" "" Armed Running None true.
Definition spawnFailed : Runner := mkRunner "" "" Armed NeverSpawned None false.

(** What the event loop and the operating system can deliver to the
    listeners, and the end of the scanner process, which no listener
    hears of. *)
Inductive Event :=
| EvStdout (data : string)
| EvStderr (data : string)
| EvTimeout
| EvExit (code : option Z) (signal : option string)
| EvError (e : JSError)
| EvScannerExit.

Definition markExited (r : Runner) : Runner :=
  mkRunner (stdout r) (stderr r) (timer r) Exited (settled r) (scanner r).
Definition markFired (r : Runner) : Runner :=
  mkRunner (stdout r) (stderr r) Fired (child r) (settled r) (scanner r).
Definition scannerEnded (r : Runner) : Runner :=
  mkRunner (stdout r) (stderr r) (timer r) (child r) (settled r) false.

(** The child has a process whose ['exit'] is still to come. *)
Definition alive (c : ChildState) : bool :=
  match c with Running | Killed _ => true | _ => false end.

(** A process holds the write ends of the output pipes. *)
Definition writing (r : Runner) : bool := alive (child r) || scanner r.

(** One delivery.  Output arrives while a process can write it; the timer
    callback runs only while the timer is pending, and once; ['exit'] is
    emitted once: with an exit code when the shell ends by itself, which it
    does when the scanner it waited for has ended, and with the signal when
    the shell is ended by one, which leaves the scanner as it is; ['error']
    reports a failed spawn. *)
Inductive step : Runner -> Event -> Runner -> Prop :=
| step_stdout r d : writing r = true -> step r (EvStdout d) (onStdout d r)
| step_stderr r d : writing r = true -> step r (EvStderr d) (onStderr d r)
| step_timeout r : timer r = Armed -> step r EvTimeout (onTimeout (markFired r))
| step_exit_natural r c :
    child r = Running ->
    step r (EvExit (Some c) None) (onExit (Some c) None (markExited (scannerEnded r)))
| step_exit_signal r sig :
    child r = Running -> step r (EvExit None (Some sig)) (onExit None (Some sig) (markExited r))
| step_exit_killed r sig :
    child r = Killed sig -> step r (EvExit None (Some sig)) (onExit None (Some sig) (markExited r))
| step_error r e :
    child r = NeverSpawned -> step r (EvError e) (onError e r)
| step_scanner_exit r :
    scanner r = true -> step r EvScannerExit (scannerEnded r).

(** The closures a call can reach. *)
Inductive reachable : Runner -> Prop :=
| reach_started : reachable started
| reach_failed : reachable spawnFailed
| reach_step r ev r' : reachable r -> step r ev r' -> reachable r'.

(** Several deliveries in a row. *)
Inductive steps : Runner -> list Event -> Runner -> Prop :=
| steps_nil r : steps r [] r
| steps_cons r ev r' evs r'' :
    step r ev r' -> steps r' evs r'' -> steps r (ev :: evs) r''.

(** The delay that [setTimeout(callback, timeoutMs)] waits: a delay below
    1 or above 2147483647 is replaced by 1. *)
Definition setTimeoutDelay (timeoutMs : Z) : Z :=
  if (1 <=? timeoutMs) && (timeoutMs <=? 2147483647) then timeoutMs else 1.

(** The closures a call with the deadline [timeoutMs] can have reached
    [t] milliseconds after it started: time does not run backwards, and
    the timer callback does not run before the delay has passed. *)
Inductive reachedAt (timeoutMs : Z) : Z -> Runner -> Prop :=
| at_started : reachedAt timeoutMs 0 started
| at_failed : reachedAt timeoutMs 0 spawnFailed
| at_step t r t' ev r' :
    reachedAt timeoutMs t r -> t <= t' -> step r ev r' ->
    (ev = EvTimeout -> setTimeoutDelay timeoutMs <= t') ->
    reachedAt timeoutMs t' r'.

(** Running a list of deliveries, for concrete traces: an event that the
    state does not enable is ignored. *)
Definition deliver (r : Runner) (ev : Event) : Runner :=
  match ev with
  | EvStdout d => if writing r then onStdout d r else r
  | EvStderr d => if writing r then onStderr d r else r
  | EvTimeout => if bool_decide (timer r = Armed) then onTimeout (markFired r) else r
  | EvExit code signal =>
    if alive (child r) then
      onExit code signal
             (markExited (match signal with None => scannerEnded r | Some _ => r end))
    else r
  | EvError e =>
    if bool_decide (child r = NeverSpawned) then onError e r else r
  | EvScannerExit => if scanner r then scannerEnded r else r
  end.

(** The errors by which the runner reports a timeout. *)
Definition isTimeoutError (e : JSError) : bool :=
  bool_decide (message e = "Command timeout")
  || bool_decide (message e = "Command was killed due to timeout").

Definition timedOut (r : Runner) : bool :=
  match settled r with
  | Some (Rejected e) => isTimeoutError e
  | _ => false
  end.

(** *** The result parser and the scan *)

Section WithDecoder.

(** [JSON.parse] applied to a line of scanner output: [None] stands for the
    [SyntaxError] it throws on text that is not JSON. *)
Variable JSON_parse : string -> option JSValue.

(** The object literal built from a decoded line; [None] when reading a
    property of the decoded value throws. *)
Definition resultOf (parsed : JSValue) : option JSValue :=
  SourceMetadata ← getProp parsed "SourceMetadata";
  SourceID ← getProp parsed "SourceID";
  SourceType ← getProp parsed "SourceType";
  SourceName ← getProp parsed "SourceName";
  DetectorType ← getProp parsed "DetectorType";
  DetectorName ← getProp parsed "DetectorName";
  DecoderName ← getProp parsed "DecoderName";
  Verified ← getProp parsed "Verified";
  Raw ← getProp parsed "Raw";
  RawV2 ← getProp parsed "RawV2";
  Redacted ← getProp parsed "Redacted";
  ExtraData ← getProp parsed "ExtraData";
  Some (JObject [
    ("SourceMetadata", SourceMetadata);
    ("SourceID", SourceID);
    ("SourceType", SourceType);
    ("SourceName", SourceName);
    ("DetectorType", DetectorType);
    ("DetectorName", DetectorName);
    ("DecoderName", DecoderName);
    ("Verified", or Verified (JBool false));
    ("Raw", Raw);
    ("RawV2", RawV2);
    ("Redacted", Redacted);
    ("ExtraData", or ExtraData (JObject []))
  ]).

(** The state of the loop of [parseTruffleHogOutput]: the [results] array
    and the lines handed to [logger.warn], both in order. *)
Record ParseState := mkParse {
  results : list JSValue;
  warnings : list string
}.

(** One iteration of the [for] loop: a blank line is skipped; the body of
    the [try] pushes a result; the [catch] logs the line (its first 200
    characters) and goes on. *)
Definition parseLine (st : ParseState) (line : string) : ParseState :=
  if isEmpty (trim line) then st
  else match JSON_parse line ≫= resultOf with
       | Some result => mkParse (results st ++ [result]) (warnings st)
       | None => mkParse (results st) (warnings st ++ [slice0 200 line])
       end.

(** The lines the loop runs over. *)
Definition outputLines (output : string) : list string :=
  splitLines (trim output).

Definition parseTruffleHogOutput (output : string) : ParseState :=
  if isEmpty (trim output) then mkParse [] []
  else foldl parseLine (mkParse [] []) (outputLines output).

(** The three kinds of line of a scanner output: a valid line, which
    decodes to a JSON object (or to any other value whose properties can be
    read, that is any value but [null]); a malformed line, which does not
    decode; and a blank separator. *)
Definition blankLine (line : string) : bool := isEmpty (trim line).

Definition validLine (line : string) : bool :=
  negb (blankLine line)
  && match JSON_parse line with
     | Some JNull | Some JUndefined | None => false
     | Some _ => true
     end.

Definition malformedLine (line : string) : bool :=
  negb (blankLine line)
  && match JSON_parse line with None => true | Some _ => false end.

(** What a line contributes to [results] and to the warnings. *)
Definition lineResult (line : string) : option JSValue :=
  if blankLine line then None else JSON_parse line ≫= resultOf.

Definition lineWarning (line : string) : option string :=
  if blankLine line then None
  else match JSON_parse line ≫= resultOf with
       | Some _ => None
       | None => Some (slice0 200 line)
       end.

(** The [catch] clause of [executeTruffleHog]: errors are told apart by
    the text of their message. *)
Definition classify (t : Thrown) : Thrown :=
  match t with
  | ThrownError e =>
    let m := message e in
    if includes m "timeout" then
      ThrownError (ScanError "Scan timed out. Repository may be too large or network is slow.")
    else if includes m "not found" || includes m "command not found" then
      ThrownError (ScanError "TruffleHog is not installed or not accessible.")
    else if includes m "permission denied" || includes m "access denied" then
      ThrownError (ScanError "Access denied to repository. Please check repository permissions.")
    else if includes m "repository not found" || includes m "404" then
      ThrownError (ScanError "Repository not found or is private.")
    else t
  | ThrownOther => t
  end.

(** [executeTruffleHog] once [executeWithTimeout] has settled. *)
Definition executeTruffleHog (s : Settlement) : Thrown + list JSValue :=
  match s with
  | Resolved out _ => inr (results (parseTruffleHogOutput out))
  | Rejected e => inl (classify (ThrownError e))
  end.

End WithDecoder.

(** *** The concurrency gate

    The service object: its two counters. *)
Record Service := mkService {
  maxConcurrentScans : Z;
  currentScans : Z
}.

(** [scanRepository] up to its first [await]: the capacity test and the
    increment run without interruption.  [inl]: the error thrown. *)
Definition scanRepository_enter (s : Service) : Service * (JSError + unit) :=
  if currentScans s >=? maxConcurrentScans s then
    (s, inl (ScanError "Maximum concurrent scans reached. Please try again later."))
  else
    (mkService (maxConcurrentScans s) (currentScans s + 1), inr tt).

(** [scanRepository] from the point where the awaited [executeTruffleHog]
    settles, with a value or with whatever was thrown: the rest of the
    [try], the [catch], and the [finally]. *)
Definition scanRepository_resume (s : Service) (r : Thrown + list JSValue)
  : Service * (JSError + list JSValue) :=
  let outcome :=
    match r with
    | inr results => inr results
    | inl error =>
      match error with
      | ThrownError e =>
        if instanceofScanError error then inl e
        else inl (ScanError ("Failed to scan repository: " +:+ messageOrUnknown error))
      | ThrownOther =>
        inl (ScanError ("Failed to scan repository: " +:+ messageOrUnknown error))
      end
    end in
  (mkService (maxConcurrentScans s) (currentScans s - 1), outcome).

(** [getScanStats().availableSlots]. *)
Definition availableSlots (s : Service) : Z :=
  maxConcurrentScans s - currentScans s.

(** Requests in flight.

    Requests are interleaved at their [await]s.  The system is the service
    object together with the requests that are past the gate and wait for
    their scan to settle; each of them holds one permit.  A request
    finishes with the results of its scan or with the error its scan threw
    (a timeout, a failed process, or anything else). *)
Record System := mkSystem {
  service : Service;
  inflight : list nat
}.

Definition heldPermits (sys : System) : Z := Z.of_nat (length (inflight sys)).

Inductive GateEvent :=
| Entered (id : nat)
| Turned_away (id : nat) (e : JSError)
| Finished (id : nat) (r : Thrown + list JSValue)
           (outcome : JSError + list JSValue).

Inductive gate_step : System -> GateEvent -> System -> Prop :=
| gate_enter sys id svc' :
    id ∉ inflight sys ->
    scanRepository_enter (service sys) = (svc', inr tt) ->
    gate_step sys (Entered id) (mkSystem svc' (id :: inflight sys))
| gate_reject sys id svc' e :
    id ∉ inflight sys ->
    scanRepository_enter (service sys) = (svc', inl e) ->
    gate_step sys (Turned_away id e) (mkSystem svc' (inflight sys))
| gate_finish sys id r svc' outcome :
    id ∈ inflight sys ->
    scanRepository_resume (service sys) r = (svc', outcome) ->
    gate_step sys (Finished id r outcome)
              (mkSystem svc' (filter (λ j, j ≠ id) (inflight sys))).

(** The states reachable from a fresh service of capacity [cap]. *)
Inductive gate_reachable (cap : Z) : System -> Prop :=
| gate_init : gate_reachable cap (mkSystem (mkService cap 0) [])
| gate_next sys ev sys' :
    gate_reachable cap sys -> gate_step sys ev sys' -> gate_reachable cap sys'.

(** The bookkeeping that every reachable state satisfies: the counter
    equals the number of requests in flight, those are distinct, and the
    capacity never changes. *)
Definition gate_inv (cap : Z) (sys : System) : Prop :=
  maxConcurrentScans (service sys) = cap
  ∧ currentScans (service sys) = heldPermits sys
  ∧ NoDup (inflight sys)
  ∧ heldPermits sys <= cap.

(** What one step does to the permits, by the kind of step. *)
Definition permit_effect (sys : System) (ev : GateEvent) (sys' : System) : Prop :=
  match ev with
  | Entered id =>
      heldPermits sys' = heldPermits sys + 1 ∧ id ∈ inflight sys'
  | Turned_away id e =>
      heldPermits sys' = heldPermits sys ∧ service sys' = service sys
      ∧ e = ScanError "Maximum concurrent scans reached. Please try again later."
  | Finished id r outcome =>
      heldPermits sys' = heldPermits sys - 1
      ∧ currentScans (service sys') = currentScans (service sys) - 1
      ∧ id ∉ inflight sys'
  end.

End TruffleHog.

(** ** services/cacheService.ts *)

Module Cache.
Import JS JSONModel.

(** [models/scan.ts]: a [ScanResult]; [scannedAt] is a [Date], held by
    its time value. *)
Record Metadata := mkMetadata {
  totalVulnerabilities : Z;
  verifiedVulnerabilities : Z;
  scanDuration : Z;
  scannedAt : Z
}.

Record ScanResult := mkScanResult {
  repoUrl : string;
  provider : string;
  vulnerabilities : list JSValue;
  metadata : Metadata
}.

(** The object in memory. *)
Definition toJS (r : ScanResult) : JSValue :=
  JObject [
    ("repoUrl", JString (repoUrl r));
    ("provider", JString (provider r));
    ("vulnerabilities", JArray (vulnerabilities r));
    ("metadata", JObject [
       ("totalVulnerabilities", JInt (totalVulnerabilities (metadata r)));
       ("verifiedVulnerabilities", JInt (verifiedVulnerabilities (metadata r)));
       ("scanDuration", JInt (scanDuration (metadata r)));
       ("scannedAt", JDate (scannedAt (metadata r)))])
  ].

(** A JSON text, by the value it denotes: [JSON.parse] depends on the
    characters of a text only through that value.  [JSON_stringify]
    writes the text of a value that is not [undefined]; [JSON_parse]
    reads it back. *)
Record JSONText := mkText { denotes : JSValue }.

Definition JSON_stringify (v : JSValue) : option JSONText := mkText <$> jsonImage v.
Definition JSON_parse (t : JSONText) : JSValue := denotes t.

(** A string value of the store: a JSON text, or a string that
    [JSON.parse] rejects (the empty string is one). *)
Inductive Stored :=
| Text (t : JSONText)
| NotJSON.

(** The Redis server as the cache uses it: string keys with a value and
    the time at which the key expires; [up = false] when commands fail
    (connection lost). *)
Record Entry := mkEntry { value : Stored; expiresAt : Z }.

Record Redis := mkRedis {
  up : bool;
  entries : gmap string Entry
}.

(** [GET key] at time [now]: [Some None] is the [null] of a missing or
    expired key, the outer [None] a failed command. *)
Definition redis_get (redis : Redis) (now : Z) (key : string) : option (option Stored) :=
  if up redis then
    Some (match entries redis !! key with
          | Some e => if now <? expiresAt e then Some (value e) else None
          | None => None
          end)
  else None.

(** [SETEX key seconds value] at time [now]; a time to live that is not
    positive is refused. *)
Definition redis_setex (redis : Redis) (now : Z) (key : string) (seconds : Z)
  (v : JSONText) : option Redis :=
  if up redis && (0 <? seconds) then
    Some (mkRedis (up redis)
            (<[key := mkEntry (Text v) (now + seconds * 1000)]> (entries redis)))
  else None.

(** [parsedData.vulnerabilities.length] is evaluated without a
    [TypeError]: [parsedData] is neither [null] nor [undefined], and
    neither is its [vulnerabilities]. *)
Definition lengthReadable (parsedData : JSValue) : bool :=
  match getProp parsedData "vulnerabilities" with
  | Some JUndefined | Some JNull | None => false
  | Some _ => true
  end.

Section WithDigest.

(** [crypto.createHash('md5').update(s).digest('hex')]. *)
Variable md5hex : string -> string.

(** [config.redis.ttl], in seconds. *)
Variable defaultTTL : Z.

Definition generateCacheKey (repoUrl provider : string) : string :=
  "scan:" +:+ provider +:+ ":" +:+ md5hex repoUrl.

(** [ttl || this.defaultTTL]: an omitted or zero [ttl] is falsy. *)
Definition effectiveTTL (ttl : option Z) : Z :=
  match ttl with
  | Some t => if t =? 0 then defaultTTL else t
  | None => defaultTTL
  end.

(** [getScanResult]: [None] is [null].  It is returned for a missing
    key or an empty string ([!cachedData]) and from the [catch] clause:
    when the command fails, when [JSON.parse] throws, and when the
    argument [parsedData.vulnerabilities.length] of the log call throws. *)
Definition getScanResult (redis : Redis) (now : Z) (repoUrl provider : string)
  : option JSValue :=
  let cacheKey := generateCacheKey repoUrl provider in
  match redis_get redis now cacheKey with
  | Some (Some (Text cachedData)) =>
    let parsedData := JSON_parse cachedData in
    if lengthReadable parsedData then Some parsedData else None
  | Some (Some NotJSON) => None
  | Some None => None
  | None => None
  end.

(** [setScanResult]: the flag it returns and the server afterwards. *)
Definition setScanResult (redis : Redis) (now : Z) (repoUrl provider : string)
  (result : ScanResult) (ttl : option Z) : bool * Redis :=
  let cacheKey := generateCacheKey repoUrl provider in
  let cacheTTL := effectiveTTL ttl in
  match JSON_stringify (toJS result) with
  | Some serializedData =>
    match redis_setex redis now cacheKey cacheTTL serializedData with
    | Some redis' => (true, redis')
    | None => (false, redis)
    end
  | None => (false, redis)
  end.

(** What a stored result reads back as: the dates are ISO strings and
    every finding went through its JSON text. *)
Definition cachedImage (r : ScanResult) : JSValue :=
  JObject [
    ("repoUrl", JString (repoUrl r));
    ("provider", JString (provider r));
    ("vulnerabilities",
       JArray ((λ v, default JNull (jsonImage v)) <$> vulnerabilities r));
    ("metadata", JObject [
       ("totalVulnerabilities", JInt (totalVulnerabilities (metadata r)));
       ("verifiedVulnerabilities", JInt (verifiedVulnerabilities (metadata r)));
       ("scanDuration", JInt (scanDuration (metadata r)));
       ("scannedAt",
          if validTime (scannedAt (metadata r))
          then JString (toISOString (scannedAt (metadata r))) else JNull)])
  ].

End WithDigest.

End Cache.

(** ** middleware/rateLimiter.ts *)

Module RateLimit.
Import JS JSONModel.

(** *** The Redis sorted sets behind the limiter *)

(** A sorted-set key: the score of each member, and the time at which the
    key expires, if [EXPIRE] set one. *)
Record ZKey := mkZKey {
  members : gmap string Z;
  expireAt : option Z
}.

(** The key as the server sees it at time [now]: an expired key is gone. *)
Definition live (store : gmap string ZKey) (now : Z) (key : string) : option ZKey :=
  match store !! key with
  | Some z =>
    match expireAt z with
    | Some t => if now <? t then Some z else None
    | None => Some z
    end
  | None => None
  end.

(** [ZREMRANGEBYSCORE key lo hi]: both bounds inclusive; a key left
    without members is removed. *)
Definition zremrangebyscore (now : Z) (key : string) (lo hi : Z)
  (store : gmap string ZKey) : gmap string ZKey :=
  match live store now key with
  | Some z =>
    let kept := filter (λ p, ¬ (lo <= p.2 <= hi)) (members z) in
    if decide (kept = ∅) then delete key store
    else <[key := mkZKey kept (expireAt z)]> store
  | None => delete key store
  end.

(** [ZCARD key]. *)
Definition zcard (now : Z) (key : string) (store : gmap string ZKey) : Z :=
  match live store now key with
  | Some z => Z.of_nat (size (members z))
  | None => 0
  end.

(** [EXPIRE key seconds]: only an existing key gets a time to live. *)
Definition expire (now : Z) (key : string) (seconds : Z)
  (store : gmap string ZKey) : gmap string ZKey :=
  match live store now key with
  | Some z =>
    if 0 <? seconds then <[key := mkZKey (members z) (Some (now + seconds * 1000))]> store
    else delete key store
  | None => store
  end.

(** [ZADD key score member]: adds the member or updates its score. *)
Definition zadd (now : Z) (key : string) (score : Z) (member : string)
  (store : gmap string ZKey) : gmap string ZKey :=
  match live store now key with
  | Some z => <[key := mkZKey (<[member := score]> (members z)) (expireAt z)]> store
  | None => <[key := mkZKey {[member := score]} None]> store
  end.

(** *** The middleware *)

Record RateLimitOptions := mkOptions {
  windowMs : Z;
  maxRequests : Z;
  keyGenerator : string -> string   (* applied to [req.ip || ''] *)
}.

(** What distinguishes one call of the middleware: the client address, the
    value of [Date.now()], and the text of [Math.random()]. *)
Record Request := mkRequest {
  ip : string;
  now : Z;
  random : string
}.

(** How the store answers during one call. *)
Inductive ExecAnswer :=
| ExecResults     (* the transaction ran *)
| ExecNull        (* [exec()] resolved to [null] *)
| ExecRejects.    (* [exec()] rejected *)

Record StoreBehaviour := mkBehaviour {
  execAnswer : ExecAnswer;
  zaddRejects : bool
}.

Definition healthy : StoreBehaviour := mkBehaviour ExecResults false.

Record Headers := mkHeaders {
  limit : string;
  remaining : string;
  reset : string
}.

Inductive Outcome :=
| Next (headers : option Headers)     (* [next()]: the request proceeds *)
| TooManyRequests (retryAfter : Z).   (* status 429 *)

(** [Math.ceil(window / 1000)]. *)
Definition ceilSeconds (window : Z) : Z := - ((- window) / 1000).

Definition rateKey (opts : RateLimitOptions) (req : Request) : string :=
  "rate_limit:" +:+ keyGenerator opts (ip req).

Definition memberOf (req : Request) : string :=
  showZ (now req) +:+ "-" +:+ random req.

(** The transaction [multi.zremrangebyscore; multi.zcard; multi.expire]
    run by [exec()]: the store afterwards and the reply of [ZCARD]. *)
Definition transaction (opts : RateLimitOptions) (req : Request)
  (store : gmap string ZKey) : gmap string ZKey * Z :=
  let key := rateKey opts req in
  let windowStart := now req - windowMs opts in
  let s1 := zremrangebyscore (now req) key 0 windowStart store in
  let currentCount := zcard (now req) key s1 in
  let s2 := expire (now req) key (ceilSeconds (windowMs opts)) s1 in
  (s2, currentCount).

(** The call up to the reply of [exec()]: [inl] when the [try] block is
    left by an exception. *)
Definition countPhase (opts : RateLimitOptions) (b : StoreBehaviour)
  (req : Request) (store : gmap string ZKey) : gmap string ZKey * (string + Z) :=
  match execAnswer b with
  | ExecRejects => (store, inl "exec rejected")
  | ExecNull => (store, inl "Redis transaction failed")
  | ExecResults =>
    let '(store', currentCount) := transaction opts req store in
    (store', inr currentCount)
  end.

(** The members of a key that the pruning of this call leaves. *)
Definition survivors (opts : RateLimitOptions) (req : Request)
  (mem : gmap string Z) : gmap string Z :=
  filter (λ p, ¬ (0 <= p.2 <= now req - windowMs opts)) mem.

(** The [X-RateLimit-*] headers, the argument of [res.set]: [None] stands
    for the [RangeError] that [new Date(now + window).toISOString()]
    throws when the time is out of the range of [Date]. *)
Definition headersFor (opts : RateLimitOptions) (req : Request)
  (currentCount : Z) : option Headers :=
  if validTime (now req + windowMs opts) then
    Some (mkHeaders (showZ (maxRequests opts))
                    (showZ (maxRequests opts - currentCount - 1))
                    (toISOString (now req + windowMs opts)))
  else None.

(** The call from the reply of [exec()] on: the test against
    [maxRequests], [ZADD], the headers and [next()].  The headers are
    computed after [ZADD]. *)
Definition recordPhase (opts : RateLimitOptions) (b : StoreBehaviour)
  (req : Request) (currentCount : Z) (store : gmap string ZKey)
  : gmap string ZKey * (string + Outcome) :=
  if currentCount >=? maxRequests opts then
    (store, inr (TooManyRequests (ceilSeconds (windowMs opts))))
  else if zaddRejects b then (store, inl "zadd rejected")
  else
    let store' := zadd (now req) (rateKey opts req) (now req) (memberOf req) store in
    match headersFor opts req currentCount with
    | Some headers => (store', inr (Next (Some headers)))
    | None => (store', inl "Invalid time value")
    end.

(** The [catch] clause: [logger.error(...); next()]. *)
Definition recover (r : string + Outcome) : Outcome :=
  match r with
  | inr outcome => outcome
  | inl _ => Next None
  end.

(** How a call that has recorded its time stamp ends: with the headers
    and [next()], or, when computing the headers throws, in the [catch]
    clause with [next()] alone. *)
Definition proceed (opts : RateLimitOptions) (req : Request) (currentCount : Z)
  : Outcome :=
  Next (headersFor opts req currentCount).

(** One call that runs without another call in between. *)
Definition middleware (opts : RateLimitOptions) (b : StoreBehaviour)
  (req : Request) (store : gmap string ZKey) : gmap string ZKey * Outcome :=
  match countPhase opts b req store with
  | (store', inl e) => (store', recover (inl e))
  | (store', inr currentCount) =>
    let '(store'', r) := recordPhase opts b req currentCount store' in
    (store'', recover r)
  end.

Definition allowed (o : Outcome) : bool :=
  match o with Next _ => true | TooManyRequests _ => false end.

(** The scan limiter the module exports (the general limiter takes its
    numbers from the configuration and keys by the bare address). *)
Definition scanRateLimiter : RateLimitOptions :=
  mkOptions (5 * 60 * 1000) 10 (λ ip, "scan:" +:+ ip).

(** The number of recorded requests of the client of [req] whose time
    stamp lies in the window of length [windowMs] that ends at [t]. *)
Definition recordedWithin (opts : RateLimitOptions) (req : Request) (t : Z)
  (store : gmap string ZKey) : Z :=
  match store !! rateKey opts req with
  | Some z => Z.of_nat (size (filter (λ p, t - windowMs opts < p.2 <= t) (members z)))
  | None => 0
  end.

(** *** Calls in flight

    A call of the middleware gives up control at its two [await]s: while
    [exec()] is outstanding and while [zadd] is outstanding.  Other calls
    run in between. *)
Inductive Call :=
| Counting (req : Request)                       (* before the reply of [exec()] *)
| Recording (req : Request) (currentCount : Z)   (* [exec()] replied *)
| Completed (req : Request) (outcome : Outcome).

(** The next piece of a call, up to its next [await] or its end. *)
Definition advance (opts : RateLimitOptions) (b : StoreBehaviour) (c : Call)
  (store : gmap string ZKey) : gmap string ZKey * Call :=
  match c with
  | Counting req =>
    match countPhase opts b req store with
    | (store', inr currentCount) => (store', Recording req currentCount)
    | (store', inl e) => (store', Completed req (recover (inl e)))
    end
  | Recording req currentCount =>
    let '(store', r) := recordPhase opts b req currentCount store in
    (store', Completed req (recover r))
  | Completed req outcome => (store, c)
  end.

(** A schedule names, step by step, the call that runs next. *)
Fixpoint runSchedule (opts : RateLimitOptions) (b : StoreBehaviour)
  (schedule : list nat) (calls : list Call) (store : gmap string ZKey)
  : gmap string ZKey * list Call :=
  match schedule with
  | [] => (store, calls)
  | i :: rest =>
    match calls !! i with
    | Some c =>
      let '(store', c') := advance opts b c store in
      runSchedule opts b rest (<[i := c']> calls) store'
    | None => runSchedule opts b rest calls store
    end
  end.

Definition wasAllowed (c : Call) : bool :=
  match c with
  | Completed _ outcome => allowed outcome
  | _ => false
  end.

(** The outcome of five calls in a row: the states in between and the
    verdicts. *)
Definition burstThenPause (opts : RateLimitOptions) (store : gmap string ZKey)
  (r1 r2 r3 r4 r5 : Request) : Prop :=
  ∃ s1 s2 s3 s4 s5 o1 o2 o3 o5,
    middleware opts healthy r1 store = (s1, o1) ∧ allowed o1 = true
    ∧ middleware opts healthy r2 s1 = (s2, o2) ∧ allowed o2 = true
    ∧ middleware opts healthy r3 s2 = (s3, o3) ∧ allowed o3 = true
    ∧ middleware opts healthy r4 s3 = (s4, TooManyRequests 60)
    ∧ members <$> s4 !! rateKey opts r1 = members <$> s3 !! rateKey opts r1
    ∧ middleware opts healthy r5 s4 = (s5, o5) ∧ allowed o5 = true.

(** A store operation of this call fails: [exec()] does not deliver
    results, or [zadd] is reached and rejects. *)
Definition storeFails (opts : RateLimitOptions) (b : StoreBehaviour)
  (req : Request) (store : gmap string ZKey) : Prop :=
  execAnswer b ≠ ExecResults
  ∨ (zaddRejects b = true ∧ (transaction opts req store).2 < maxRequests opts).

End RateLimit.

(** ** validators/scanValidator.ts *)

Module Validator.
Import JS.

(** The two fields of a [URL] object the validator reads. *)
Record URL := mkURL {
  protocol : string;
  hostname : string
}.

(** The fields of [req.body] that [validateScanRequest] destructures; an
    absent field is [undefined]. *)
Record Body := mkBody {
  repoUrl : JSValue;
  provider : JSValue
}.

Inductive Verdict :=
| Accepted                              (* [next()] *)
| BadRequest (details : list string).   (* status 400, code VALIDATION_ERROR *)

(** [list.includes(v)] for a list of strings: only an equal string is
    found. *)
Definition includesValue (l : list string) (v : JSValue) : bool :=
  match v with
  | JString s => bool_decide (s ∈ l)
  | _ => false
  end.

(** [v !== s]. *)
Definition notStrictEq (v : JSValue) (s : string) : bool :=
  match v with
  | JString s' => negb (bool_decide (s' = s))
  | _ => true
  end.

Definition supportedHosts : list string :=
  ["github.com"; "gitlab.com"; "bitbucket.org"].

Definition providers : list string :=
  ["github"; "gitlab"; "bitbucket"; "other"].

Section WithURL.

(** [new URL(s)]: [None] when the constructor throws. *)
Variable parseURL : string -> option URL.

(** The errors pushed by the first [if / else if / else]. *)
Definition repoUrlErrors (b : Body) : list string :=
  if negb (truthy (repoUrl b)) then ["repoUrl is required"]
  else match repoUrl b with
  | JString s =>
    match parseURL s with
    | Some url =>
      (if negb (bool_decide (protocol url ∈ ["http:"; "https:"]))
       then ["repoUrl must be a valid HTTP/HTTPS URL"] else [])
      ++ (if negb (existsb (λ host, includes (hostname url) host) supportedHosts)
          then (if notStrictEq (provider b) "other"
                then ["repoUrl must be from a supported Git provider"] else [])
          else [])
    | None => ["repoUrl must be a valid URL"]
    end
  | _ => ["repoUrl must be a string"]
  end.

(** The errors pushed by the second [if / else if]. *)
Definition providerErrors (b : Body) : list string :=
  if negb (truthy (provider b)) then ["provider is required"]
  else if negb (includesValue providers (provider b)) then
    ["provider must be one of: github, gitlab, bitbucket, other"]
  else [].

Definition validateScanRequest (b : Body) : Verdict :=
  let errors := repoUrlErrors b ++ providerErrors b in
  if (0 <? Z.of_nat (length errors)) then BadRequest errors else Accepted.

(** The condition under which a request is let through. *)
Definition acceptable (b : Body) : Prop :=
  (∃ p, provider b = JString p ∧ p ∈ providers)
  ∧ ∃ s url,
      repoUrl b = JString s ∧ parseURL s = Some url
      ∧ (protocol url = "http:" ∨ protocol url = "https:")
      ∧ ((∃ host, host ∈ supportedHosts ∧ includes (hostname url) host = true)
         ∨ provider b = JString "other").

End WithURL.

(** A URL reader for examples: [scheme://host] followed by the end of the
    text or by a slash. *)
Fixpoint upTo (stop : ascii) (s : string) : string * option string :=
  match s with
  | EmptyString => (EmptyString, None)
  | String c r =>
    if decide (c = stop) then (EmptyString, Some r)
    else let '(h, t) := upTo stop r in (String c h, t)
  end.

Definition sampleParseURL (s : string) : option URL :=
  match upTo ":"%char s with
  | (scheme, Some (String "/" (String "/" rest))) =>
    if isEmpty scheme then None
    else let '(host, _) := upTo "/"%char rest in
         if isEmpty host then None else Some (mkURL (scheme +:+ ":") host)
  | _ => None
  end.

End Validator.

(** ** services/scanService.ts and controllers/scanController.ts *)

Module ScanService.
Import JS Errors TruffleHog Cache.

(** The [catch] clause of [ScanService.scanRepository]. *)
Definition rethrow (t : Thrown) : JSError :=
  match t with
  | ThrownError e =>
    if instanceofValidationError t || instanceofScanError t then e
    else ScanError ("Scan failed: " +:+ messageOrUnknown t)
  | ThrownOther => ScanError ("Scan failed: " +:+ messageOrUnknown t)
  end.

(** [vulnerabilities.filter(v => v.Verified).length]. *)
Definition verifiedCount (vulnerabilities : list JSValue) : Z :=
  Z.of_nat (length (filter (λ v, truthy (default JUndefined (getProp v "Verified")) = true)
                           vulnerabilities)).

(** What one request meets on its way: the cache entry, if any; the
    answer of the availability probe; the settlement of the scanner
    process; the clock at the start, at the end of the scan
    ([Date.now()] for the duration) and when the result is stamped
    ([new Date()] for [scannedAt]). *)
Record Environment := mkEnv {
  cached : option JSValue;
  isAvailable : bool;
  settlement : Settlement;
  startTime : Z;
  endTime : Z;
  stampTime : Z
}.

Section WithDecoder.
Variable JSON_parse : string -> option JSValue.

(** The arguments of the log call on a cache hit,
    [cachedResult.metadata.scannedAt] and
    [cachedResult.vulnerabilities.length], are evaluated inside the [try]:
    the [TypeError] they throw when [metadata] or [vulnerabilities] is
    [null] or [undefined], if any. *)
Definition cacheHitError (cachedResult : JSValue) : option JSError :=
  match getProp cachedResult "metadata" with
  | None => Some (TypeError (cannotRead false "metadata"))
  | Some JUndefined => Some (TypeError (cannotRead false "scannedAt"))
  | Some JNull => Some (TypeError (cannotRead true "scannedAt"))
  | Some _ =>
    match getProp cachedResult "vulnerabilities" with
    | Some JUndefined | None => Some (TypeError (cannotRead false "length"))
    | Some JNull => Some (TypeError (cannotRead true "length"))
    | Some _ => None
    end
  end.

(** The request after a cache miss: the availability probe, then the scan
    behind the gate.  The cache write and the database write that follow a
    fresh scan are not awaited and cannot fail the request. *)
Definition freshScan (svc : Service) (env : Environment)
  (repoUrl provider : string) : Service * (JSError + JSValue) :=
  if negb (isAvailable env) then
    (svc, inl (rethrow (ThrownError (ScanError
       "TruffleHog scanner is not available. Please ensure it is properly installed."))))
  else
    match scanRepository_enter svc with
    | (svc', inl e) => (svc', inl (rethrow (ThrownError e)))
    | (svc', inr _) =>
      match scanRepository_resume svc'
              (executeTruffleHog JSON_parse (settlement env)) with
      | (svc'', inl e) => (svc'', inl (rethrow (ThrownError e)))
      | (svc'', inr vulnerabilities) =>
        (svc'', inr (toJS (mkScanResult repoUrl provider vulnerabilities
           (mkMetadata (Z.of_nat (length vulnerabilities))
                       (verifiedCount vulnerabilities)
                       (endTime env - startTime env)
                       (stampTime env)))))
      end
    end.

(** [ScanService.scanRepository], for one request that runs alone: the
    cache first ([if (cachedResult)]: a falsy value counts as a miss), then
    the fresh scan. *)
Definition scanRepository (svc : Service) (env : Environment)
  (repoUrl provider : string) : Service * (JSError + JSValue) :=
  match cached env with
  | Some cachedResult =>
    if truthy cachedResult then
      match cacheHitError cachedResult with
      | Some e => (svc, inl (rethrow (ThrownError e)))
      | None => (svc, inr cachedResult)
      end
    else freshScan svc env repoUrl provider
  | None => freshScan svc env repoUrl provider
  end.

(** The controller passes a failure to [next(error)], which reaches
    [errorHandler]: the error body delivered to the caller, if any. *)
Definition delivered (svc : Service) (env : Environment)
  (repoUrl provider : string) : option ErrorResponse :=
  match (scanRepository svc env repoUrl provider).2 with
  | inl e => Some (errorHandler e)
  | inr _ => None
  end.

End WithDecoder.

(** The four failures of a scan, as the environment of a request. *)
Definition idle : Service := mkService 3 0.
Definition saturated : Service := mkService 3 3.

Definition envOf (available : bool) (s : Settlement) : Environment :=
  mkEnv None available s 0 0 0.

Definition timeoutSettlement : Settlement :=
  Rejected (Error "Command timeout").

Definition exitSettlement (code : Z) (stderr : string) : Settlement :=
  Rejected (Error (exitMessage code stderr)).

End ScanService.

(** ** Data for the examples *)

Module Samples.
Import JS.

(** A line decoder that knows two texts. *)
Definition sampleDecoder (line : string) : option JSValue :=
  if decide (line = "{}") then Some (JObject [])
  else if decide (line = "null") then Some JNull
  else None.

(** A digest that is the identity. *)
Definition sampleDigest (s : string) : string := s.

Definition sampleResult : Cache.ScanResult :=
  Cache.mkScanResult "https://github.com/org/repo" "github" []
                     (Cache.mkMetadata 0 0 1500 0).

Definition emptyRedis : Cache.Redis := Cache.mkRedis true ∅.

(** [n] calls of one client, one millisecond apart. *)
Fixpoint burst (n : nat) (t : Z) : list RateLimit.Request :=
  match n with
  | O => []
  | S k => RateLimit.mkRequest "203.0.113.7" t ("0." +:+ showZ t) :: burst k (t + 1)
  end.

End Samples.

(** ** Traces of the process runner, and the fields of a finding *)

Module RunnerTraces.
Import JS Errors TruffleHog.

(** The chunks a list of deliveries carries on each stream, joined in
    order. *)
Fixpoint stdoutOf (evs : list Event) : string :=
  match evs with
  | [] => EmptyString
  | EvStdout d :: rest => d +:+ stdoutOf rest
  | _ :: rest => stdoutOf rest
  end.

Fixpoint stderrOf (evs : list Event) : string :=
  match evs with
  | [] => EmptyString
  | EvStderr d :: rest => d +:+ stderrOf rest
  | _ :: rest => stderrOf rest
  end.

Definition isData (ev : Event) : bool :=
  match ev with EvStdout _ | EvStderr _ => true | _ => false end.

(** The names of the properties of a finding, in the order of the object
    literal. *)
Definition findingKeys : list string :=
  ["SourceMetadata"; "SourceID"; "SourceType"; "SourceName"; "DetectorType";
   "DetectorName"; "DecoderName"; "Verified"; "Raw"; "RawV2"; "Redacted";
   "ExtraData"].

(** A line decoder that knows three texts, one of them a verified
    finding. *)
Definition verifiedDecoder (line : string) : option JSValue :=
  if decide (line = "verified") then
    Some (JObject [("DetectorName", JString "AWS"); ("Verified", JBool true)])
  else if decide (line = "{}") then Some (JObject [])
  else if decide (line = "null") then Some JNull
  else None.

End RunnerTraces.

(** ** services/cacheService.ts: delete, exists, time to live, invalidation *)

Module CacheOps.
Import JS JSONModel Cache.

(** The entry of a key as the server sees it at time [now]. *)
Definition liveEntry (redis : Redis) (now : Z) (key : string) : option Entry :=
  match entries redis !! key with
  | Some e => if now <? expiresAt e then Some e else None
  | None => None
  end.

(** [DEL key ...]: the number of keys that existed, and the server
    afterwards.  The keys are pairwise distinct, as the callers pass
    them. *)
Definition redis_del (redis : Redis) (now : Z) (keys : list string)
  : option (Z * Redis) :=
  if up redis then
    Some (Z.of_nat (length (filter (λ k, is_Some (liveEntry redis now k)) keys)),
          mkRedis (up redis) (foldr delete (entries redis) keys))
  else None.

(** [EXISTS key]. *)
Definition redis_exists (redis : Redis) (now : Z) (key : string) : option Z :=
  if up redis then
    Some (match liveEntry redis now key with Some _ => 1 | None => 0 end)
  else None.

(** [TTL key]: the remaining time to live in seconds, rounded; [-2] for
    a key that does not exist.  (Every key of this model carries a time to
    live, so the answer [-1] does not occur.) *)
Definition redis_ttl (redis : Redis) (now : Z) (key : string) : option Z :=
  if up redis then
    Some (match liveEntry redis now key with
          | Some e => (expiresAt e - now + 500) / 1000
          | None => -2
          end)
  else None.

(** Glob matching as [KEYS] does it, for patterns made of ordinary
    characters and [*]. *)
Fixpoint globMatch (pattern s : string) : bool :=
  match pattern with
  | EmptyString => isEmpty s
  | String c pattern' =>
    if decide (c = "*"%char) then
      (fix star (s : string) : bool :=
         globMatch pattern' s
         || match s with
            | EmptyString => false
            | String _ s' => star s'
            end) s
    else
      match s with
      | String d s' => bool_decide (c = d) && globMatch pattern' s'
      | EmptyString => false
      end
  end.

(** [KEYS pattern]: the keys that exist and match. *)
Definition redis_keys (redis : Redis) (now : Z) (pattern : string)
  : option (list string) :=
  if up redis then
    Some (filter (λ k, is_Some (liveEntry redis now k) ∧ globMatch pattern k = true)
                 (map_to_list (entries redis)).*1)
  else None.

Section WithDigest.
Variable md5hex : string -> string.

(** [deleteScanResult]. *)
Definition deleteScanResult (redis : Redis) (now : Z) (repoUrl provider : string)
  : bool * Redis :=
  let cacheKey := generateCacheKey md5hex repoUrl provider in
  match redis_del redis now [cacheKey] with
  | Some (result, redis') => (0 <? result, redis')
  | None => (false, redis)
  end.

(** [hasScanResult]. *)
Definition hasScanResult (redis : Redis) (now : Z) (repoUrl provider : string) : bool :=
  let cacheKey := generateCacheKey md5hex repoUrl provider in
  match redis_exists redis now cacheKey with
  | Some exists_ => exists_ =? 1
  | None => false
  end.

(** [getScanResultTTL]. *)
Definition getScanResultTTL (redis : Redis) (now : Z) (repoUrl provider : string) : Z :=
  let cacheKey := generateCacheKey md5hex repoUrl provider in
  match redis_ttl redis now cacheKey with
  | Some ttl => ttl
  | None => -2
  end.

(** The tail shared by [invalidateRepository] and [clearScanCache]: [KEYS],
    then [DEL] unless nothing matched.  The two commands are answered at
    the same instant [now]. *)
Definition deleteMatching (redis : Redis) (now : Z) (pattern : string) : Z * Redis :=
  match redis_keys redis now pattern with
  | Some keys =>
    if (length keys =? 0)%nat then (0, redis)
    else match redis_del redis now keys with
         | Some (deletedCount, redis') => (deletedCount, redis')
         | None => (0, redis)
         end
  | None => (0, redis)
  end.

(** [invalidateRepository]. *)
Definition invalidateRepository (redis : Redis) (now : Z) (repoUrl : string)
  : Z * Redis :=
  let urlHash := md5hex repoUrl in
  let pattern := "scan:*:" +:+ urlHash in
  deleteMatching redis now pattern.

End WithDigest.

(** [clearScanCache]. *)
Definition clearScanCache (redis : Redis) (now : Z) : Z * Redis :=
  deleteMatching redis now "scan:*".

(** [healthCheck]. *)
Definition healthCheck (redis : Redis) : bool := up redis.

(** The characters of a digest: none of them is special in a glob
    pattern. *)
Definition plainChar (c : ascii) : bool :=
  negb (bool_decide (c = "*"%char) || bool_decide (c = "?"%char)
        || bool_decide (c = "["%char) || bool_decide (c = "\"%char)).

Fixpoint plainText (s : string) : bool :=
  match s with
  | EmptyString => true
  | String c r => plainChar c && plainText r
  end.

(** What [getScanResult] makes of a value it was handed: the parsed value
    of a JSON text whose [vulnerabilities] can be measured, and [null] for
    everything else. *)
Definition readBack (v : Stored) : option JSValue :=
  match v with
  | Text t => if lengthReadable (JSON_parse t) then Some (JSON_parse t) else None
  | NotJSON => None
  end.

(** A server whose key for the sample target holds a JSON text that some
    other writer left there ([setWithTTL] can): an object without
    [vulnerabilities]. *)
Definition foreignStore : Redis :=
  mkRedis true {[ "scan:github:https://github.com/org/repo"
                  := mkEntry (Text (mkText (JObject [("hello", JInt 1)]))) 61000 ]}.

(** A server that holds one result, stored at time 1000 for 60 seconds
    under a digest that is the identity. *)
Definition sampleStore : Redis :=
  (setScanResult Samples.sampleDigest 86400 Samples.emptyRedis 1000
     "https://github.com/org/repo" "github" Samples.sampleResult (Some 60)).2.

End CacheOps.

(** ** middleware/rateLimiter.ts: runs of calls *)

Module RateLimitRuns.
Import JS RateLimit.

(** The time stamps of a key as the server sees them at time [now]. *)
Definition liveMembers (store : gmap string ZKey) (now : Z) (key : string)
  : gmap string Z :=
  match live store now key with
  | Some z => members z
  | None => ∅
  end.

(** Calls that run one after the other, each with its own answers of the
    store: the store at the end and the verdicts in order. *)
Fixpoint runCalls (opts : RateLimitOptions) (calls : list (StoreBehaviour * Request))
  (store : gmap string ZKey) : gmap string ZKey * list Outcome :=
  match calls with
  | [] => (store, [])
  | (b, req) :: rest =>
    let '(store', outcome) := middleware opts b req store in
    let '(store'', outcomes) := runCalls opts rest store' in
    (store'', outcome :: outcomes)
  end.

(** The general limiter of the module, for given numbers: it keys by the
    bare address. *)
Definition rateLimiter (window maxReq : Z) : RateLimitOptions :=
  mkOptions window maxReq (λ ip, ip).

(** The way of a [POST /scan] request through the limiters: the general
    limiter, which [app.use(rateLimiter)] installs in front of every route,
    and then, when that one calls [next()], the scan limiter of
    [router.post('/scan', scanRateLimiter, ...)], for a request that the
    body parsers and the logger in between pass on.  Each of the two
    calls reads the clock and [Math.random()] for itself, so each has its
    own [Request] record; the address is the one of the request. *)
Definition postScan (general : RateLimitOptions) (b1 b2 : StoreBehaviour)
  (first second : Request) (store : gmap string ZKey)
  : gmap string ZKey * Outcome :=
  match middleware general b1 first store with
  | (store', TooManyRequests retryAfter) => (store', TooManyRequests retryAfter)
  | (store', Next _) => middleware scanRateLimiter b2 second store'
  end.

(** The requests that a run of healthy calls lets through, in order. *)
Fixpoint allowedCalls (opts : RateLimitOptions) (reqs : list Request)
  (store : gmap string ZKey) : list Request :=
  match reqs with
  | [] => []
  | req :: rest =>
    let '(store', outcome) := middleware opts healthy req store in
    (if allowed outcome then [req] else []) ++ allowedCalls opts rest store'
  end.

(** The clock does not run backwards from [t] on through the calls. *)
Fixpoint nondecreasing (t : Z) (reqs : list Request) : Prop :=
  match reqs with
  | [] => True
  | req :: rest => t <= now req ∧ nondecreasing (now req) rest
  end.

(** The time of the last call, [t] when there is none. *)
Fixpoint lastTime (t : Z) (reqs : list Request) : Z :=
  match reqs with
  | [] => t
  | req :: rest => lastTime (now req) rest
  end.

(** The requests of [reqs] whose time lies in the window that ends at
    [t]. *)
Definition inWindow (opts : RateLimitOptions) (t : Z) (reqs : list Request)
  : list Request :=
  filter (λ r, t - windowMs opts < now r) reqs.

(** No stored set holds more than [maxRequests] time stamps. *)
Definition withinLimit (opts : RateLimitOptions) (store : gmap string ZKey) : Prop :=
  ∀ k z, store !! k = Some z -> Z.of_nat (size (members z)) <= maxRequests opts.

(** The store keeps track of the requests [seen] of one client up to time
    [t]: none is later than [t], those still inside a window that ends at
    [t] or later are among the live members of the client's key, and at
    most [maxRequests] of them lie in the window that ends at [t]. *)
Definition tracked (opts : RateLimitOptions) (client : string)
  (store : gmap string ZKey) (seen : list Request) (t : Z) : Prop :=
  (∀ r, r ∈ seen -> now r <= t)
  ∧ (∀ t' r, t <= t' -> r ∈ seen -> t' - windowMs opts < now r ->
       liveMembers store t' ("rate_limit:" +:+ keyGenerator opts client)
         !! memberOf r = Some (now r))
  ∧ Z.of_nat (length (inWindow opts t seen)) <= maxRequests opts.

End RateLimitRuns.

(** ** The health checks: services/scanService.ts,
       controllers/scanController.ts and routes/health.ts *)

Module Health.
Import JS.

(** What the three probes meet: whether [trufflehog --version] runs,
    whether the database answers [SELECT 1], whether Redis answers
    [PING]. *)
Record Probes := mkProbes {
  trufflehogRuns : bool;
  databaseAnswers : bool;
  redisAnswers : bool
}.

(** [TruffleHogService.checkTruffleHogAvailability],
    [ScanRepository.healthCheck] and [CacheService.healthCheck]: each
    catches the failure of its probe and returns [false]. *)
Definition checkTruffleHogAvailability (p : Probes) : bool := trufflehogRuns p.
Definition repositoryHealthCheck (p : Probes) : bool := databaseAnswers p.
Definition cacheHealthCheck (p : Probes) : bool := redisAnswers p.

Inductive Status := Healthy | Degraded | Unhealthy.

Record Services := mkServices {
  trufflehog : bool;
  database : bool;
  cache : bool
}.

Record ServiceHealth := mkServiceHealth {
  status : Status;
  services : Services
}.

(** [Object.values(services).filter(Boolean).length]. *)
Definition healthyServices (s : Services) : Z :=
  Z.of_nat (length (filter (λ b : bool, b = true) [trufflehog s; database s; cache s])).

(** [ScanService.getServiceHealth].  None of the three checks can
    reject, so the [catch] clause of the function is never entered. *)
Definition getServiceHealth (p : Probes) : ServiceHealth :=
  let services := mkServices (checkTruffleHogAvailability p)
                             (repositoryHealthCheck p)
                             (cacheHealthCheck p) in
  let status :=
    if healthyServices services =? 3 then Healthy
    else if healthyServices services >=? 2 then Degraded
    else Unhealthy in
  mkServiceHealth status services.

(** What a handler sends: the status code, the [success] field where the
    body has one, the status text and the three service texts where the
    body has them. *)
Record Reply := mkReply {
  statusCode : Z;
  success : option bool;
  statusText : string;
  serviceTexts : option (string * string * string)  (* database, redis, trufflehog *)
}.

Definition statusName (s : Status) : string :=
  match s with
  | Healthy => "healthy"
  | Degraded => "degraded"
  | Unhealthy => "unhealthy"
  end.

(** [ScanController.getHealth]; [getServiceHealth] does not throw, so
    the [catch] clause with its 503 is never entered. *)
Definition getHealth (p : Probes) : Reply :=
  let health := getServiceHealth p in
  let code :=
    match status health with
    | Healthy => 200
    | Degraded => 200
    | Unhealthy => 503
    end in
  mkReply code
          (Some (match status health with Unhealthy => false | _ => true end))
          (statusName (status health))
          None.

(** [GET /health]: the database and Redis are probed inside the outer
    [try], the scanner inside a [try] of its own. *)
Definition healthRoute (p : Probes) : Reply :=
  if databaseAnswers p && redisAnswers p then
    mkReply 200 None "healthy"
            (Some ("connected", "connected",
                   if trufflehogRuns p then "available" else "unavailable"))
  else
    mkReply 503 None "unhealthy" (Some ("disconnected", "disconnected", "unavailable")).

(** [GET /health/ready]. *)
Definition readyRoute (p : Probes) : Reply :=
  if databaseAnswers p && redisAnswers p then mkReply 200 None "ready" None
  else mkReply 503 None "not ready" None.

(** [GET /health/live]. *)
Definition liveRoute (p : Probes) : Reply := mkReply 200 None "alive" None.

End Health.

(** ** The scan history: validators/scanValidator.ts and
       repositories/scanRepository.ts *)

Module History.
Import JS Validator.

(** The fields of [req.query] that [validateHistoryQuery] destructures:
    a text, an array or a nested object as the query parser leaves them;
    an absent field is [undefined]. *)
Record Query := mkQuery {
  qRepoUrl : JSValue;
  qProvider : JSValue;
  qPage : JSValue;
  qLimit : JSValue;
  qSortBy : JSValue;
  qSortOrder : JSValue
}.

Definition sortFields : list string := ["created_at"; "repo_url"].
Definition sortOrders : list string := ["asc"; "desc"].

Section WithPlatform.

(** [new URL(s)]: [None] when the constructor throws. *)
Variable parseURL : string -> option URL.

(** [parseInt(v)], the value converted to a text first: [None] when the
    result is [NaN]. *)
Variable parseInt : JSValue -> option Z.

Definition historyRepoUrlErrors (q : Query) : list string :=
  if truthy (qRepoUrl q) then
    match qRepoUrl q with
    | JString s =>
      match parseURL s with
      | Some _ => []
      | None => ["repoUrl must be a valid URL"]
      end
    | _ => ["repoUrl must be a string"]
    end
  else [].

Definition historyProviderErrors (q : Query) : list string :=
  if truthy (qProvider q) then
    if negb (includesValue providers (qProvider q)) then
      ["provider must be one of: github, gitlab, bitbucket, other"]
    else []
  else [].

Definition pageErrors (q : Query) : list string :=
  if truthy (qPage q) then
    match parseInt (qPage q) with
    | Some pageNum => if pageNum <? 1 then ["page must be a positive integer"] else []
    | None => ["page must be a positive integer"]
    end
  else [].

Definition limitErrors (q : Query) : list string :=
  if truthy (qLimit q) then
    match parseInt (qLimit q) with
    | Some limitNum =>
      if (limitNum <? 1) || (100 <? limitNum) then ["limit must be between 1 and 100"]
      else []
    | None => ["limit must be between 1 and 100"]
    end
  else [].

Definition sortByErrors (q : Query) : list string :=
  if truthy (qSortBy q) then
    if negb (includesValue sortFields (qSortBy q)) then
      ["sortBy must be one of: created_at, repo_url"]
    else []
  else [].

Definition sortOrderErrors (q : Query) : list string :=
  if truthy (qSortOrder q) then
    if negb (includesValue sortOrders (qSortOrder q)) then
      ["sortOrder must be one of: asc, desc"]
    else []
  else [].

(** [validateHistoryQuery]. *)
Definition validateHistoryQuery (q : Query) : Verdict :=
  let errors := historyRepoUrlErrors q ++ historyProviderErrors q ++ pageErrors q
                ++ limitErrors q ++ sortByErrors q ++ sortOrderErrors q in
  if (0 <? Z.of_nat (length errors)) then BadRequest errors else Accepted.

(** A field passes when it is absent or empty, or meets [ok]. *)
Definition absentOr (v : JSValue) (ok : Prop) : Prop :=
  truthy v = false ∨ ok.

(** The condition under which a history query is let through. *)
Definition historyAcceptable (q : Query) : Prop :=
  absentOr (qRepoUrl q) (∃ s, qRepoUrl q = JString s ∧ is_Some (parseURL s))
  ∧ absentOr (qProvider q) (∃ s, qProvider q = JString s ∧ s ∈ providers)
  ∧ absentOr (qPage q) (∃ n, parseInt (qPage q) = Some n ∧ 1 <= n)
  ∧ absentOr (qLimit q) (∃ n, parseInt (qLimit q) = Some n ∧ 1 <= n <= 100)
  ∧ absentOr (qSortBy q) (∃ s, qSortBy q = JString s ∧ s ∈ sortFields)
  ∧ absentOr (qSortOrder q) (∃ s, qSortOrder q = JString s ∧ s ∈ sortOrders).

End WithPlatform.

(** *** The history query of the repository

    [ScanRepository.getScanHistory] up to its two SQL statements.  The
    type [HistoryQuery] declares [page] and [limit] as numbers, but the
    controller hands over [req.query] as it is ([req.query as any]), so
    at run time every field is whatever the request carries: a text for
    the most part. *)
Record HistoryQuery := mkHistoryQuery {
  repoUrl : JSValue;
  provider : JSValue;
  page : JSValue;
  limit : JSValue;
  sortBy : JSValue;
  sortOrder : JSValue
}.

(** [const query: HistoryQuery = req.query as any] in the controller;
    [ScanService.getScanHistory] passes the object on. *)
Definition asHistoryQuery (q : Query) : HistoryQuery :=
  mkHistoryQuery (qRepoUrl q) (qProvider q) (qPage q) (qLimit q)
                 (qSortBy q) (qSortOrder q).

(** A destructuring default: it replaces [undefined] only. *)
Definition orDefault (v d : JSValue) : JSValue :=
  match v with JUndefined => d | _ => v end.

Definition nl : string := String "010"%char EmptyString.

Definition allowedSortFields : list string := ["created_at"; "repo_url"].

(** [allowedSortFields.includes(sortBy) ? sortBy : 'created_at']. *)
Definition safeSortBy (sortBy : JSValue) : string :=
  match orDefault sortBy (JString "created_at") with
  | JString s => if bool_decide (s ∈ allowedSortFields) then s else "created_at"
  | _ => "created_at"
  end.

Section WithRuntime.

(** [String.prototype.toLowerCase]. *)
Variable toLowerCase : string -> string.

(** The conversion to a number that [-] and [*] apply to their operands,
    and the difference and the product of two numbers. *)
Variable toNumber : JSValue -> JSNumber.
Variable minus : JSNumber -> JSNumber -> JSNumber.
Variable times : JSNumber -> JSNumber -> JSNumber.

(** [sortOrder.toLowerCase() === 'asc' ? 'ASC' : 'DESC']: [None] when the
    value has no method [toLowerCase] and the call throws. *)
Definition safeSortOrder (sortOrder : JSValue) : option string :=
  match orDefault sortOrder (JString "desc") with
  | JString s => Some (if bool_decide (toLowerCase s = "asc") then "ASC" else "DESC")
  | _ => None
  end.

(** The statements and their parameters. *)
Record Plan := mkPlan {
  offset : JSNumber;
  countQuery : string;
  countParams : list JSValue;
  dataQuery : string;
  dataParams : list JSValue
}.

(** The conditions and parameters pushed by one [if]. *)
Definition condition (column : string) (v : JSValue) (paramIndex : Z)
  : list string * list JSValue * Z :=
  if truthy v then ([column +:+ " = $" +:+ showZ paramIndex], [v], paramIndex + 1)
  else ([], [], paramIndex).

Fixpoint joinWith (sep : string) (l : list string) : string :=
  match l with
  | [] => EmptyString
  | [x] => x
  | x :: rest => x +:+ sep +:+ joinWith sep rest
  end.

Definition getScanHistoryPlan (q : HistoryQuery) : option Plan :=
  let page := orDefault (page q) (JInt 1) in
  let limit := orDefault (limit q) (JInt 20) in
  let offset := times (minus (toNumber page) (NFinite 1 0)) (toNumber limit) in
  let '(c1, p1, i1) := condition "repo_url" (repoUrl q) 1 in
  let '(c2, p2, i2) := condition "provider" (provider q) i1 in
  let whereConditions := c1 ++ c2 in
  let queryParams := p1 ++ p2 in
  let whereClause :=
    if (0 <? Z.of_nat (length whereConditions))
    then "WHERE " +:+ joinWith " AND " whereConditions
    else EmptyString in
  match safeSortOrder (sortOrder q) with
  | None => None
  | Some order =>
    let countQuery :=
      nl +:+ "        SELECT COUNT(*) as total" +:+ nl +:+
      "        FROM scans" +:+ nl +:+
      "        " +:+ whereClause +:+ nl +:+
      "      " in
    let dataQuery :=
      nl +:+ "        SELECT id, repo_url, provider, result, created_at" +:+ nl +:+
      "        FROM scans" +:+ nl +:+
      "        " +:+ whereClause +:+ nl +:+
      "        ORDER BY " +:+ safeSortBy (sortBy q) +:+ " " +:+ order +:+ nl +:+
      "        LIMIT $" +:+ showZ i2 +:+ " OFFSET $" +:+ showZ (i2 + 1) +:+ nl +:+
      "      " in
    Some (mkPlan offset countQuery queryParams dataQuery
                 (queryParams ++ [limit; JNumber offset]))
  end.

End WithRuntime.

(** [Math.ceil(total / limit)] for a limit that is not zero. *)
Definition totalPages (total limit : Z) : Z := - ((- total) / limit).

(** The rows that [LIMIT limit OFFSET offset] selects from the sorted
    rows that match. *)
Definition pageRows {A} (rows : list A) (page limit : Z) : list A :=
  take (Z.to_nat limit) (drop (Z.to_nat ((page - 1) * limit)) rows).

(** The pages [first], [first + 1], ..., [count] of them, one after the
    other. *)
Fixpoint pagesFrom {A} (rows : list A) (limit : Z) (first : Z) (count : nat) : list A :=
  match count with
  | O => []
  | S k => pageRows rows first limit ++ pagesFrom rows limit (first + 1) k
  end.

(** The number of placeholders of a statement. *)
Fixpoint placeholders (text : string) : nat :=
  match text with
  | EmptyString => 0
  | String c rest => ((if bool_decide (c = "$"%char) then 1 else 0) + placeholders rest)%nat
  end.

(** A value as the query parser leaves it: absent, a text, an array or a
    nested object. *)
Definition parsedValue (v : JSValue) : bool :=
  match v with
  | JUndefined | JString _ | JArray _ | JObject _ => true
  | _ => false
  end.

(** Lower case for the letters A to Z. *)
Definition asciiLower (c : ascii) : ascii :=
  let n := nat_of_ascii c in
  if ((65 <=? n) && (n <=? 90))%nat then ascii_of_nat (n + 32) else c.

Fixpoint lowerASCII (s : string) : string :=
  match s with
  | EmptyString => EmptyString
  | String c rest => String (asciiLower c) (lowerASCII rest)
  end.

(** A number reader that knows four texts. *)
Definition sampleParseInt (v : JSValue) : option Z :=
  match v with
  | JString "1" => Some 1
  | JString "2" => Some 2
  | JString "50" => Some 50
  | JString "500" => Some 500
  | _ => None
  end.

(** A number conversion that knows numbers and four texts; any other
    value, among them the text [2abc], is [NaN] here. *)
Definition sampleToNumber (v : JSValue) : JSNumber :=
  match v with
  | JNumber n => n
  | JString "1" => NFinite 1 0
  | JString "2" => NFinite 2 0
  | JString "50" => NFinite 50 0
  | JString "500" => NFinite 500 0
  | _ => NNaN
  end.

(** Difference and product for small integers; [NaN] spreads. *)
Definition sampleMinus (a b : JSNumber) : JSNumber :=
  match a, b with
  | NFinite m 0, NFinite n 0 => NFinite (m - n) 0
  | _, _ => NNaN
  end.

Definition sampleTimes (a b : JSNumber) : JSNumber :=
  match a, b with
  | NFinite m 0, NFinite n 0 => NFinite (m * n) 0
  | _, _ => NNaN
  end.

(** The query [?repoUrl=https://github.com/org/repo&page=2&limit=50
    &sortBy=repo_url&sortOrder=asc]. *)
Definition sampleQuery : HistoryQuery :=
  mkHistoryQuery (JString "https://github.com/org/repo") JUndefined
                 (JString "2") (JString "50") (JString "repo_url") (JString "asc").

Definition samplePlan : Plan :=
  default (mkPlan NNaN EmptyString [] EmptyString [])
          (getScanHistoryPlan lowerASCII sampleToNumber sampleMinus sampleTimes
             sampleQuery).

End History.

(** ** Stored scans: services/scanService.ts and
       repositories/scanRepository.ts *)

Module ScanStore.
Import JS Errors Cache CacheOps.

(** A row of the table [scans]. *)
Record ScanRecord := mkScanRecord {
  repo_url : string;
  provider : string;
  result : JSValue
}.

(** The database as the repository uses it: the rows by [id];
    [dbUp = false] when connecting or querying fails. *)
Record Database := mkDatabase {
  dbUp : bool;
  scans : gmap string ScanRecord
}.

(** [ScanRepository.getScanById]: [None] when it throws. *)
Definition repositoryGetScanById (db : Database) (id : string)
  : option (option ScanRecord) :=
  if dbUp db then Some (scans db !! id) else None.

(** [ScanRepository.deleteScan]: [rowCount > 0] and the database
    afterwards; [None] when it throws. *)
Definition repositoryDeleteScan (db : Database) (id : string)
  : option (bool * Database) :=
  if dbUp db then
    Some (match scans db !! id with Some _ => true | None => false end,
          mkDatabase (dbUp db) (delete id (scans db)))
  else None.

(** [ScanService.getScanById]. *)
Definition getScanById (db : Database) (id : string) : JSError + option JSValue :=
  match repositoryGetScanById db id with
  | Some record => inr (result <$> record)
  | None => inl (ScanError "Failed to retrieve scan")
  end.

Section WithDigest.
Variable md5hex : string -> string.

(** [ScanService.deleteScan]: what it returns or throws, the database and
    the cache afterwards. *)
Definition deleteScan (db : Database) (redis : Redis) (now : Z) (id : string)
  : (JSError + bool) * Database * Redis :=
  match repositoryGetScanById db id with
  | None => (inl (ScanError "Failed to delete scan"), db, redis)
  | Some record =>
    match repositoryDeleteScan db id with
    | None => (inl (ScanError "Failed to delete scan"), db, redis)
    | Some (deleted, db') =>
      match deleted, record with
      | true, Some r =>
        (inr deleted, db',
         (deleteScanResult md5hex redis now (repo_url r) (provider r)).2)
      | _, _ => (inr deleted, db', redis)
      end
    end
  end.

End WithDigest.

(** The body the controller sends for a result: [res.json] writes the
    JSON text of [{ success: true, data: result, timestamp }]; this is its
    [data]. *)
Definition bodyData (result : JSValue) : option JSONText := JSON_stringify result.

(** A database with one row, for the target of [sampleStore]. *)
Definition sampleDatabase : Database :=
  mkDatabase true {[ "42" := mkScanRecord "https://github.com/org/repo" "github" JNull ]}.

End ScanStore.

(* ===================================================================== *)
(** * Part II: the properties                                              *)
(* ===================================================================== *)

(** ** The concurrency gate *)

Module GateFacts.
Import JS Errors TruffleHog.

Lemma length_filter_out (id : nat) (l : list nat) :
  NoDup l -> id ∈ l ->
  S (length (filter (λ j, j ≠ id) l)) = length l.
Proof.
  induction 1 as [|x l Hx Hnd IH]; intros Hin.
  - by apply elem_of_nil in Hin.
  - apply elem_of_cons in Hin as [->|Hin].
    + rewrite filter_cons_False by (intros H; by apply H).
      f_equal. clear IH Hnd.
      induction l as [|y l IHl]; [done|].
      apply not_elem_of_cons in Hx as [Hne Hx].
      rewrite filter_cons_True by done. simpl. f_equal. by apply IHl.
    + rewrite filter_cons_True by (intros ->; contradiction).
      simpl. f_equal. by apply IH.
Qed.

Lemma gate_step_inv cap sys ev sys' :
  0 <= cap -> gate_inv cap sys -> gate_step sys ev sys' -> gate_inv cap sys'.
Proof.
  intros Hcap (Hmax & Hcur & Hnd & Hle) Hstep.
  destruct Hstep as [sys id svc' Hfresh Henter|sys id svc' e Hfresh Henter
                    |sys id r svc' outcome Hin Hres];
    unfold gate_inv, heldPermits in *; simpl.
  - unfold scanRepository_enter in Henter.
    destruct (Z.geb_spec (currentScans (service sys)) (maxConcurrentScans (service sys)));
      [discriminate|].
    injection Henter as <-. simpl.
    repeat split; try lia. by constructor.
  - unfold scanRepository_enter in Henter.
    destruct (currentScans (service sys) >=? maxConcurrentScans (service sys));
      [|discriminate].
    injection Henter as <- _. done.
  - unfold scanRepository_resume in Hres. injection Hres as <- _. simpl.
    pose proof (length_filter_out id _ Hnd Hin) as Hlen.
    repeat split; try lia. by apply NoDup_filter.
Qed.

Lemma gate_reachable_inv cap sys :
  0 <= cap -> gate_reachable cap sys -> gate_inv cap sys.
Proof.
  intros Hcap. induction 1 as [|sys ev sys' _ IH Hstep].
  - unfold gate_inv, heldPermits. simpl. repeat split; try lia. constructor.
  - eauto using gate_step_inv.
Qed.

(** C1.  With a capacity [cap >= 0], in every state that interleaved
    requests can reach, the counter [currentScans] is the number of permits
    held and is at most [cap].  A request that passed the gate holds one
    permit until it finishes; finishing, whatever the scan returned or
    threw (results, a process error, a timeout, any other exception), takes
    the counter down by exactly one and takes the request out of flight, so
    that it cannot release a second time; and a request in flight can
    always finish.  A request turned away at the gate changes nothing. *)
Theorem gate_permits_bounded_and_released (cap : Z) (sys : System) :
  0 <= cap ->
  gate_reachable cap sys ->
  (0 <= heldPermits sys <= cap
   ∧ currentScans (service sys) = heldPermits sys)
  ∧ (∀ ev sys', gate_step sys ev sys' -> permit_effect sys ev sys')
  ∧ (∀ id r, id ∈ inflight sys ->
       ∃ sys' outcome, gate_step sys (Finished id r outcome) sys').
Proof.
  intros Hcap Hreach.
  destruct (gate_reachable_inv cap sys Hcap Hreach) as (Hmax & Hcur & Hnd & Hle).
  split; [|split].
  - unfold heldPermits in *. lia.
  - intros ev sys' Hstep.
    destruct Hstep as [sys id svc' Hfresh Henter|sys id svc' e Hfresh Henter
                      |sys id r svc' outcome Hin Hres];
      unfold permit_effect, heldPermits in *; simpl.
    + split; [lia|]. apply elem_of_cons. by left.
    + unfold scanRepository_enter in Henter.
      destruct (currentScans (service sys) >=? maxConcurrentScans (service sys));
        [|discriminate].
      injection Henter as <- <-. done.
    + unfold scanRepository_resume in Hres. injection Hres as <- _. simpl.
      pose proof (length_filter_out id _ Hnd Hin) as Hlen.
      split; [lia|]. split; [done|].
      intros Hin'. apply list_elem_of_filter in Hin' as [Hne _]. by apply Hne.
  - intros id r Hin.
    destruct (scanRepository_resume (service sys) r) as [svc' outcome] eqn:Hres.
    exists (mkSystem svc' (filter (λ j, j ≠ id) (inflight sys))), outcome.
    by constructor.
Qed.

(** A service of capacity 3 with one request in flight. *)
Lemma one_in_flight_reachable :
  gate_reachable 3 (mkSystem (mkService 3 1) [7%nat]).
Proof.
  eapply gate_next; [apply gate_init|].
  apply (gate_enter (mkSystem (mkService 3 0) []) 7 (mkService 3 1)).
  - apply not_elem_of_nil.
  - reflexivity.
Qed.

Lemma gate_permits_witness :
  0 <= 3
  ∧ gate_reachable 3 (mkSystem (mkService 3 1) [7%nat])
  ∧ (0 <= heldPermits (mkSystem (mkService 3 1) [7%nat]) <= 3
     ∧ currentScans (mkService 3 1) = heldPermits (mkSystem (mkService 3 1) [7%nat])).
Proof.
  split; [lia|]. split; [exact one_in_flight_reachable|].
  apply (gate_permits_bounded_and_released 3 (mkSystem (mkService 3 1) [7%nat]));
    [lia|exact one_in_flight_reachable].
Defined.

(** The three kinds of step on a full service, by computation. *)
Example gate_full_turns_away :
  scanRepository_enter (mkService 3 3)
  = (mkService 3 3,
     inl (ScanError "Maximum concurrent scans reached. Please try again later.")).
Proof. reflexivity. Qed.

Example gate_release_on_timeout :
  scanRepository_resume (mkService 3 3)
    (inl (ThrownError (ScanError "Scan timed out. Repository may be too large or network is slow.")))
  = (mkService 3 2,
     inl (ScanError "Scan timed out. Repository may be too large or network is slow.")).
Proof. reflexivity. Qed.

Example gate_release_on_success :
  scanRepository_resume (mkService 3 3) (inr []) = (mkService 3 2, inr []).
Proof. reflexivity. Qed.

End GateFacts.

(** ** The scanner command *)

Module CommandFacts.
Import JS TruffleHog.

Lemma app_cons (c : ascii) (s t : string) :
  String c s +:+ t = String c (s +:+ t).
Proof. reflexivity. Qed.

Lemma app_empty_l (t : string) : "" +:+ t = t.
Proof. reflexivity. Qed.

Lemma app_empty_r (s : string) : s +:+ "" = s.
Proof. induction s as [|c s IH]; [done|]. by rewrite app_cons, IH. Qed.

Lemma app_assoc (a b c : string) : (a +:+ b) +:+ c = a +:+ (b +:+ c).
Proof. induction a as [|x a IH]; [done|]. by rewrite !app_cons, IH. Qed.

Lemma snoc_app (w : string) (c : ascii) (u : string) :
  Shell.snoc w c +:+ u = w +:+ String c u.
Proof. unfold Shell.snoc. by rewrite app_assoc. Qed.

(** Between single quotes, the escaped text of [arg] followed by the
    closing quote adds exactly [arg] to the word in progress. *)
Lemma split_escaped (arg : string) : ∀ acc (cur rest : string),
  Shell.split Shell.Single acc (Some cur) (replaceQuotes arg +:+ String "'" rest)
  = Shell.split Shell.Unquoted acc (Some (cur +:+ arg)) rest.
Proof.
  induction arg as [|c arg IH]; intros acc cur rest.
  - simpl. rewrite app_empty_r. reflexivity.
  - simpl replaceQuotes. destruct (decide (c = "'"%char)) as [->|Hc].
    + unfold quoteEscape, DQ. rewrite !app_cons, !app_empty_l, !app_cons.
      simpl Shell.split.
      rewrite IH. by rewrite snoc_app.
    + rewrite app_cons. simpl Shell.split.
      rewrite bool_decide_eq_false_2 by done.
      simpl. rewrite IH. by rewrite snoc_app.
Qed.

(** The shell reads [escapeShellArg arg] back as [arg], appended to the
    word in progress. *)
Lemma split_escapeShellArg (arg : string) acc (cur : option string) (rest : string) :
  Shell.split Shell.Unquoted acc cur (escapeShellArg arg +:+ rest)
  = Shell.split Shell.Unquoted acc (Some (default "" cur +:+ arg)) rest.
Proof.
  unfold escapeShellArg.
  rewrite !app_assoc.
  change ("'" +:+ replaceQuotes arg +:+ "'" +:+ rest)
    with (String "'"%char (replaceQuotes arg +:+ String "'"%char rest)).
  simpl Shell.split. apply split_escaped.
Qed.

Lemma split_flags acc (w : string) :
  Shell.split Shell.Unquoted acc (Some w) (" " +:+ join " " flags)
  = Some (acc ++ w :: flags).
Proof.
  change (" " +:+ join " " flags) with " --json --no-verification --concurrency=1".
  simpl. by rewrite <- !(assoc_L (++)).
Qed.

Lemma subcommandOf_cases (repoUrl : string) :
  subcommandOf repoUrl = "gitlab" ∨ subcommandOf repoUrl = "github"
  ∨ subcommandOf repoUrl = "git".
Proof.
  unfold subcommandOf.
  destruct (includes repoUrl "gitlab.com"); [by left|].
  destruct (includes repoUrl "github.com"); [by right; left|by right; right].
Qed.

Lemma split_head_repo (sub : string) (rest : string) :
  sub = "gitlab" ∨ sub = "github" ->
  Shell.split Shell.Unquoted [] None ("trufflehog " +:+ sub +:+ " --repo=" +:+ rest)
  = Shell.split Shell.Unquoted ["trufflehog"; sub] (Some "--repo=") rest.
Proof. intros [-> | ->]; reflexivity. Qed.

Lemma split_head_git (rest : string) :
  Shell.split Shell.Unquoted [] None ("trufflehog git " +:+ rest)
  = Shell.split Shell.Unquoted ["trufflehog"; "git"] None rest.
Proof. reflexivity. Qed.

(** C2, as the code has it.  For every repository URL the scanner is
    started through [exec] with one command string; the string is
    [trufflehog], the subcommand, the repository argument inside single
    quotes, and the three flags, and the shell splits it into exactly the
    six words [trufflehog; subcommand; repository argument; --json;
    --no-verification; --concurrency=1], whatever characters the URL
    holds.  The subcommand is [gitlab] when the text of the URL contains
    [gitlab.com], else [github] when it contains [github.com], else [git];
    the repository argument is [--repo=URL] for the first two and the bare
    URL for [git]. *)
Theorem scanner_command_is_quoted_shell_string (repoUrl : string) :
  scannerInvocation repoUrl = ExecShell (buildTruffleHogCommand repoUrl)
  ∧ Shell.words (buildTruffleHogCommand repoUrl)
    = Some ("trufflehog" :: subcommandOf repoUrl :: repoArgument repoUrl :: flags)
  ∧ subcommandOf repoUrl
    = (if includes repoUrl "gitlab.com" then "gitlab"
       else if includes repoUrl "github.com" then "github" else "git").
Proof.
  split; [reflexivity|]. split; [|reflexivity].
  unfold Shell.words, buildTruffleHogCommand, repoArgument.
  destruct (subcommandOf_cases repoUrl) as [H|[H|H]]; rewrite H.
  - rewrite decide_False by done. rewrite decide_False by done.
    rewrite split_head_repo by auto.
    rewrite split_escapeShellArg, split_flags. reflexivity.
  - rewrite decide_False by done. rewrite decide_False by done.
    rewrite split_head_repo by auto.
    rewrite split_escapeShellArg, split_flags. reflexivity.
  - rewrite decide_True by done. rewrite decide_True by done.
    rewrite split_head_git.
    rewrite split_escapeShellArg, split_flags. reflexivity.
Qed.

(** C2 as stated fails: the request for a GitHub URL is a shell command
    string and not a program with its argument vector, and a URL whose
    host is [example.org] gets the [gitlab] subcommand because its path
    mentions [gitlab.com]. *)
Lemma scanner_invocation_counterexample :
  (¬ ∃ file args, scannerInvocation "https://github.com/org/repo" = ExecFile file args)
  ∧ scannerInvocation "https://github.com/org/repo"
    = ExecShell "trufflehog github --repo='https://github.com/org/repo' --json --no-verification --concurrency=1"
  ∧ subcommandOf "https://example.org/mirror/gitlab.com/repo" = "gitlab".
Proof.
  split; [|split; reflexivity].
  intros (file & args & H). discriminate H.
Qed.

(** What the shell makes of a hostile URL: one word. *)
Example quoted_url_stays_one_word :
  Shell.words (buildTruffleHogCommand "https://github.com/o'; rm -rf / #")
  = Some ["trufflehog"; "github"; "--repo=https://github.com/o'; rm -rf / #";
          "--json"; "--no-verification"; "--concurrency=1"].
Proof. reflexivity. Qed.

End CommandFacts.

(** ** The process runner *)

Module RunnerFacts.
Import JS Errors TruffleHog.

(** While the child runs, the promise is pending and so is the timer. *)
Lemma running_pending (r : Runner) :
  reachable r -> child r = Running -> settled r = None ∧ timer r = Armed.
Proof.
  induction 1 as [| |r ev r' Hr IH Hstep]; [done|done|].
  destruct Hstep as [r d Ha|r d Ha|r Ht|r c Hc|r sig Hc|r sig Hc|r e Hc|r Hs];
    simpl; try (intros Hrun; by apply IH).
  - unfold onTimeout, settle, kill, markFired. simpl.
    destruct (settled r); simpl; destruct (child r); done.
  - unfold onExit, settle, clearTimeout, markExited, scannerEnded. simpl.
    repeat case_bool_decide; destruct (settled r); simpl; done.
  - unfold onExit, settle, clearTimeout, markExited. simpl.
    repeat case_bool_decide; destruct (settled r); simpl; done.
  - unfold onExit, settle, clearTimeout, markExited. simpl.
    repeat case_bool_decide; destruct (settled r); simpl; done.
  - unfold onError, settle, clearTimeout. simpl. rewrite Hc.
    destruct (settled r); simpl; rewrite ?Hc; done.
Qed.

Lemma exitMessage_not_timeout (c : Z) (err : string) :
  isTimeoutError (Error (exitMessage c err)) = false.
Proof.
  unfold isTimeoutError, exitMessage.
  rewrite !bool_decide_eq_false_2; [done| |]; discriminate.
Qed.

(** After ['exit'], once the scanner has ended, nothing more is
    delivered. *)
Lemma exited_quiet (r : Runner) (evs : list Event) (r' : Runner) :
  steps r evs r' -> child r = Exited -> scanner r = false -> timer r ≠ Armed ->
  evs = [] ∧ r' = r.
Proof.
  destruct 1 as [r|r ev r' evs r'' Hstep _]; [done|].
  intros Hc Hs Ht. exfalso.
  destruct Hstep; unfold writing in *; rewrite ?Hc, ?Hs in *; simpl in *; congruence.
Qed.

(** What the runner does get right.  In every state a call of
    [executeWithTimeout] can reach:
    - while the child runs the timer is pending, and when it fires the
      child is sent SIGKILL and the promise is rejected with the timeout
      error [Command timeout];
    - when the running child exits by itself with an exit code, the timer
      is cancelled, the promise is settled with something other than a
      timeout error, and neither changes afterwards: the timer callback
      never runs. *)
Lemma deadline_and_natural_exit (r : Runner) :
  reachable r ->
  (child r = Running ->
     step r EvTimeout (onTimeout (markFired r))
     ∧ ∀ r', step r EvTimeout r' ->
         child r' = Killed "SIGKILL"
         ∧ settled r' = Some (Rejected (Error "Command timeout"))
         ∧ timedOut r' = true)
  ∧ (child r = Running ->
     ∀ c r' evs r'',
       step r (EvExit (Some c) None) r' -> steps r' evs r'' ->
       timer r' = Cleared ∧ timedOut r' = false
       ∧ timer r'' = Cleared ∧ timedOut r'' = false ∧ EvTimeout ∉ evs).
Proof.
  intros Hreach.
  split.
  - intros Hrun.
    destruct (running_pending r Hreach Hrun) as [Hpending Harmed].
    split; [by constructor|].
    intros r' Hstep. inversion Hstep; subst.
    unfold onTimeout, settle, kill, markFired, timedOut. simpl.
    rewrite Hpending, Hrun. simpl. done.
  - intros Hrun c r' evs r'' Hstep Hsteps.
    destruct (running_pending r Hreach Hrun) as [Hpending Harmed].
    assert (timer r' = Cleared ∧ timedOut r' = false ∧ child r' = Exited
            ∧ scanner r' = false) as (Ht & Hto & Hc & Hs).
    { inversion Hstep; subst.
      unfold onExit, settle, clearTimeout, markExited, scannerEnded, timedOut. simpl.
      rewrite Hpending, Harmed. simpl.
      case_bool_decide; simpl; [done|].
      by rewrite exitMessage_not_timeout. }
    destruct (exited_quiet r' evs r'' Hsteps Hc Hs) as [-> ->]; [congruence|].
    repeat split; try done. apply not_elem_of_nil.
Qed.

Lemma reachedAt_reachable (timeoutMs t : Z) (r : Runner) :
  reachedAt timeoutMs t r -> reachable r.
Proof.
  induction 1 as [| |t r t' ev r' _ IH _ Hstep _]; [constructor|constructor|].
  by apply (reach_step r ev r').
Qed.

(** The timer callback never runs before the delay of [setTimeout] has
    passed: no child is killed early. *)
Lemma timer_waits_for_the_delay (timeoutMs t : Z) (r : Runner) :
  reachedAt timeoutMs t r -> timer r = Fired -> setTimeoutDelay timeoutMs <= t.
Proof.
  induction 1 as [| |t r t' ev r' _ IH Ht Hstep Hdelay]; [done|done|].
  destruct Hstep as [r d Ha|r d Ha|r Ha|r c Hc|r sig Hc|r sig Hc|r e Hc|r Hs];
    try (by intros _; apply Hdelay);
    try (simpl; intros Hf; specialize (IH Hf); lia);
    unfold onExit, onError, settle, clearTimeout, markExited, scannerEnded; simpl;
    repeat case_bool_decide; destruct (settled r); simpl;
    destruct (timer r) eqn:Hti; try done; intros _; specialize (IH eq_refl); lia.
Qed.

(** C4.  The deadline is kept, but processes are left behind.  Take any
    state a call with the deadline [timeoutMs] can have reached in which
    the shell and the scanner both run, and any time from the delay of the
    timer on.  The timer callback can run then; it sends SIGKILL to the
    shell and rejects the promise with [Command timeout] at once.  At that
    moment, when the call has returned, the shell has only been sent the
    signal (its ['exit'] is still to come), the scanner, which was sent
    nothing, runs and can go on writing output; and when the shell has
    gone, the scanner still runs. *)
Theorem timeout_returns_while_processes_run (timeoutMs t t' : Z) (r : Runner) :
  reachedAt timeoutMs t r ->
  child r = Running -> scanner r = true ->
  t <= t' -> setTimeoutDelay timeoutMs <= t' ->
  let r' := onTimeout (markFired r) in
  reachedAt timeoutMs t' r'
  ∧ settled r' = Some (Rejected (Error "Command timeout"))
  ∧ child r' = Killed "SIGKILL" ∧ alive (child r') = true
  ∧ scanner r' = true
  ∧ (∀ d, step r' (EvStdout d) (onStdout d r'))
  ∧ ∀ t'', t' <= t'' ->
      let r'' := onExit None (Some "SIGKILL") (markExited r') in
      reachedAt timeoutMs t'' r''
      ∧ child r'' = Exited ∧ scanner r'' = true ∧ settled r'' = settled r'.
Proof.
  intros Hreach Hrun Hscan Ht Hdelay r'.
  destruct (running_pending r (reachedAt_reachable _ _ _ Hreach) Hrun)
    as [Hpending Harmed].
  assert (reachedAt timeoutMs t' r') as Hr'.
  { apply (at_step timeoutMs t r t' EvTimeout); [done|done|by constructor|done]. }
  assert (settled r' = Some (Rejected (Error "Command timeout"))) as Hsettled.
  { unfold r', onTimeout, settle, kill, markFired. simpl. by rewrite Hpending. }
  assert (child r' = Killed "SIGKILL") as Hchild.
  { unfold r', onTimeout, settle, kill, markFired. simpl. by rewrite Hpending, Hrun. }
  assert (scanner r' = true) as Hscan'.
  { unfold r', onTimeout, settle, kill, markFired. simpl. by rewrite Hpending. }
  split; [done|]. split; [done|]. split; [done|]. split; [by rewrite Hchild|].
  split; [done|]. split.
  - intros d. constructor. unfold writing. by rewrite Hchild.
  - intros t'' Ht'' r''. split; [|split; [|split]].
    + apply (at_step timeoutMs t' r' t'' (EvExit None (Some "SIGKILL")));
        [done|done|by apply step_exit_killed|done].
    + unfold r'', onExit, settle, clearTimeout, markExited. simpl.
      by rewrite Hsettled.
    + unfold r'', onExit, settle, clearTimeout, markExited. simpl.
      by rewrite Hsettled.
    + unfold r'', onExit, settle, clearTimeout, markExited. simpl.
      by rewrite Hsettled.
Qed.

Lemma timeout_witness :
  reachedAt 300000 0 started
  ∧ child started = Running ∧ scanner started = true
  ∧ 0 <= 300000 ∧ setTimeoutDelay 300000 <= 300000
  ∧ reachedAt 300000 300000 (onTimeout (markFired started))
  ∧ settled (onTimeout (markFired started)) = Some (Rejected (Error "Command timeout"))
  ∧ alive (child (onTimeout (markFired started))) = true
  ∧ scanner (onTimeout (markFired started)) = true.
Proof.
  split; [apply at_started|]. split; [reflexivity|]. split; [reflexivity|].
  split; [lia|]. split; [vm_compute; discriminate|].
  destruct (timeout_returns_while_processes_run 300000 0 300000 started
              (at_started 300000) eq_refl eq_refl ltac:(lia)
              ltac:(vm_compute; discriminate))
    as (Hat & Hsettled & _ & Halive & Hscan & _).
  split; [exact Hat|]. split; [exact Hsettled|]. split; [exact Halive|exact Hscan].
Defined.

(** Four runs, by computation: a timeout after which the scanner goes on
    writing, a clean exit while the timer is pending, an exit with a
    nonzero code, and a timer that is set with a delay out of range. *)
Example run_times_out :
  foldl deliver started
    [EvStdout "{"; EvTimeout; EvStdout "}"; EvExit None (Some "SIGKILL");
     EvStdout "more"]
  = mkRunner "{}more" "" Fired Exited (Some (Rejected (Error "Command timeout"))) true.
Proof. reflexivity. Qed.

Example run_exits_in_time :
  foldl deliver started [EvStdout "{}"; EvExit (Some 0) None; EvTimeout]
  = mkRunner "{}" "" Cleared Exited (Some (Resolved "{}" "")) false.
Proof. reflexivity. Qed.

Example run_fails :
  foldl deliver started [EvStderr "fatal: boom"; EvExit (Some 1) None]
  = mkRunner "" "fatal: boom" Cleared Exited
      (Some (Rejected (Error "TruffleHog exited with code 1: fatal: boom"))) false.
Proof. reflexivity. Qed.

Example delay_out_of_range :
  setTimeoutDelay 300000 = 300000 ∧ setTimeoutDelay 0 = 1
  ∧ setTimeoutDelay 3000000000 = 1.
Proof. repeat split; reflexivity. Qed.

End RunnerFacts.

(** ** The result parser *)

Module ParserFacts.
Import JS Errors TruffleHog Samples.
Section WithDecoder.
Variable JSON_parse : string -> option JSValue.

Lemma foldl_parseLine (lines : list string) : ∀ st,
  foldl (parseLine JSON_parse) st lines
  = mkParse (results st ++ omap (lineResult JSON_parse) lines)
            (warnings st ++ omap (lineWarning JSON_parse) lines).
Proof.
  induction lines as [|l lines IH]; intros st; simpl.
  - rewrite !app_nil_r. by destruct st.
  - rewrite IH. unfold parseLine, lineResult, lineWarning, blankLine.
    destruct (isEmpty (trim l)); [done|].
    destruct (JSON_parse l ≫= resultOf); simpl; by rewrite <- !(assoc_L (++)).
Qed.

(** The parser, line by line: every line that is not blank either yields
    one result or one warning. *)
Lemma parseTruffleHogOutput_lines (output : string) :
  parseTruffleHogOutput JSON_parse output
  = mkParse (omap (lineResult JSON_parse) (outputLines output))
            (omap (lineWarning JSON_parse) (outputLines output)).
Proof.
  unfold parseTruffleHogOutput.
  destruct (isEmpty (trim output)) eqn:He.
  - unfold outputLines. destruct (trim output); [|done]. reflexivity.
  - by rewrite foldl_parseLine.
Qed.

(** The object literal can be built from every decoded value but [null]. *)
Lemma resultOf_value (v : JSValue) :
  v ≠ JNull -> v ≠ JUndefined -> is_Some (resultOf v).
Proof. destruct v; intros Hn Hu; try done; unfold resultOf; simpl; eauto. Qed.

Lemma omap_length_filter {A B} (f : A -> option B) (p : A -> bool) (l : list A) :
  Forall (λ x, is_Some (f x) ↔ p x = true) l ->
  length (omap f l) = length (filter (λ x, p x = true) l).
Proof.
  induction 1 as [|x l Hx _ IH]; [done|].
  change (omap f (x :: l)) with (match f x with Some y => y :: omap f l | None => omap f l end).
  destruct (p x) eqn:Hp.
  - rewrite filter_cons_True by done.
    destruct (f x) eqn:Hf; [simpl; by f_equal|].
    destruct Hx as [_ Hx]. destruct (Hx eq_refl) as [? ?]; done.
  - rewrite filter_cons_False by congruence.
    destruct (f x) eqn:Hf; [|done].
    destruct Hx as [Hx _]. discriminate Hx. eauto.
Qed.

Lemma lineWarning_cases (l : string) :
  validLine JSON_parse l = true ∨ malformedLine JSON_parse l = true
  ∨ blankLine l = true ->
  lineWarning JSON_parse l
  = if malformedLine JSON_parse l then Some (slice0 200 l) else None.
Proof.
  unfold validLine, malformedLine, lineWarning.
  destruct (blankLine l); [done|]. cbn [negb andb].
  destruct (JSON_parse l) as [v|]; [|done].
  destruct v; intros [?|[?|?]]; done.
Qed.

Lemma lineResult_cases (l : string) :
  validLine JSON_parse l = true ∨ malformedLine JSON_parse l = true
  ∨ blankLine l = true ->
  is_Some (lineResult JSON_parse l) ↔ validLine JSON_parse l = true.
Proof.
  unfold validLine, malformedLine, lineResult.
  destruct (blankLine l); cbn [negb andb].
  { intros _. split; [intros [? ?]; done|done]. }
  destruct (JSON_parse l) as [v|]; cbn [mbind option_bind].
  - destruct v; intros [?|[?|?]]; done.
  - intros _. split; [intros [? ?]; done|done].
Qed.

(** C5.  When every line of the scanner output is a valid JSON line, a
    text that does not decode, or blank, the parser returns exactly one
    finding per valid line, however many lines fail to decode; each line
    that fails to decode is logged as a warning and skipped, the lines
    after it are still parsed, and the scan that called the parser returns
    its findings instead of failing. *)
Theorem parser_keeps_every_valid_line (output : string) :
  Forall (λ l, validLine JSON_parse l = true ∨ malformedLine JSON_parse l = true
               ∨ blankLine l = true) (outputLines output) ->
  length (results (parseTruffleHogOutput JSON_parse output))
  = length (filter (λ l, validLine JSON_parse l = true) (outputLines output))
  ∧ warnings (parseTruffleHogOutput JSON_parse output)
    = slice0 200 <$> filter (λ l, malformedLine JSON_parse l = true) (outputLines output)
  ∧ ∀ err, executeTruffleHog JSON_parse (Resolved output err)
           = inr (results (parseTruffleHogOutput JSON_parse output)).
Proof.
  intros Hlines. split; [|split; [|done]];
    rewrite parseTruffleHogOutput_lines; cbn [results warnings].
  - apply omap_length_filter.
    eapply Forall_impl; [exact Hlines|]. intros l Hl. by apply lineResult_cases.
  - induction Hlines as [|l lines Hl _ IH]; [done|].
    change (omap (lineWarning JSON_parse) (l :: lines))
      with (match lineWarning JSON_parse l with
            | Some y => y :: omap (lineWarning JSON_parse) lines
            | None => omap (lineWarning JSON_parse) lines end).
    rewrite (lineWarning_cases l Hl).
    destruct (malformedLine JSON_parse l) eqn:Hm.
    + rewrite filter_cons_True by done. rewrite fmap_cons. by f_equal.
    + rewrite filter_cons_False by congruence. done.
Qed.
End WithDecoder.

Lemma parser_witness :
  Forall (λ l, validLine sampleDecoder l = true ∨ malformedLine sampleDecoder l = true
               ∨ blankLine l = true)
         ["{}"; "not json"; ""; "{}"]
  ∧ length (results (parseTruffleHogOutput sampleDecoder
                       ("{}" +:+ String "010" "not json" +:+ String "010" ""
                        +:+ String "010" "{}" +:+ String "010" "")))
    = 2%nat.
Proof.
  assert (Forall (λ l, validLine sampleDecoder l = true
                       ∨ malformedLine sampleDecoder l = true ∨ blankLine l = true)
                 ["{}"; "not json"; ""; "{}"]) as Hlines.
  { repeat (apply Forall_cons_2; [vm_compute; auto|]). by apply Forall_nil_2. }
  split; [exact Hlines|].
  apply (parser_keeps_every_valid_line sampleDecoder
           ("{}" +:+ String "010" "not json" +:+ String "010" ""
            +:+ String "010" "{}" +:+ String "010" "") Hlines).
Defined.

(** A line that holds [null] decodes, but reading its properties throws:
    it is logged and skipped like a line that does not decode. *)
Example parse_sample :
  parseTruffleHogOutput sampleDecoder
    ("{}" +:+ String "010" "not json" +:+ String "010" "null" +:+ String "010" "{}")
  = mkParse
      [JObject [("SourceMetadata", JUndefined); ("SourceID", JUndefined);
                ("SourceType", JUndefined); ("SourceName", JUndefined);
                ("DetectorType", JUndefined); ("DetectorName", JUndefined);
                ("DecoderName", JUndefined); ("Verified", JBool false);
                ("Raw", JUndefined); ("RawV2", JUndefined);
                ("Redacted", JUndefined); ("ExtraData", JObject [])];
       JObject [("SourceMetadata", JUndefined); ("SourceID", JUndefined);
                ("SourceType", JUndefined); ("SourceName", JUndefined);
                ("DetectorType", JUndefined); ("DetectorName", JUndefined);
                ("DecoderName", JUndefined); ("Verified", JBool false);
                ("Raw", JUndefined); ("RawV2", JUndefined);
                ("Redacted", JUndefined); ("ExtraData", JObject [])]]
      ["not json"; "null"].
Proof. reflexivity. Qed.

Example parse_empty : parseTruffleHogOutput sampleDecoder "  " = mkParse [] [].
Proof. reflexivity. Qed.

End ParserFacts.

(** ** The cache *)

Module CacheFacts.
Import JS JSONModel Cache Samples.

Lemma jsonImage_items (l : list JSValue) :
  (fix go (l : list JSValue) : list JSValue :=
     match l with
     | [] => []
     | x :: r => default JNull (jsonImage x) :: go r
     end) l
  = (λ v, default JNull (jsonImage v)) <$> l.
Proof. induction l as [|x l IH]; [done|]. by rewrite fmap_cons, <- IH. Qed.

(** A value that came out of JSON is its own image. *)
Lemma jsonImage_clean : ∀ v, jsonClean v = true -> jsonImage v = Some v.
Proof.
  fix IH 1. intros v. destruct v as [| |b|n|s|ms|items|fields]; try done.
  - by destruct n.
  - simpl. intros H. do 2 f_equal.
    induction items as [|x items IHl]; [done|].
    apply andb_true_iff in H as [Hx Hr].
    rewrite (IH x Hx). simpl. f_equal. by apply IHl.
  - simpl. intros H. do 2 f_equal.
    induction fields as [|[k x] fields IHl]; [done|].
    apply andb_true_iff in H as [Hx Hr].
    rewrite (IH x Hx). f_equal. by apply IHl.
Qed.

Lemma jsonImage_toJS (r : ScanResult) :
  jsonImage (toJS r) = Some (cachedImage r).
Proof.
  unfold toJS, cachedImage. cbn [jsonImage JInt]. by rewrite jsonImage_items.
Qed.

Section WithDigest.
Variable md5hex : string -> string.
Variable defaultTTL : Z.

(** Both operations derive the same key from the same pair. *)
Lemma generateCacheKey_deterministic (url1 url2 provider1 provider2 : string) :
  url1 = url2 -> provider1 = provider2 ->
  generateCacheKey md5hex url1 provider1 = generateCacheKey md5hex url2 provider2.
Proof. by intros -> ->. Qed.

(** C6, as the code has it.  While the store answers and the effective
    time to live ([ttl || defaultTTL], in seconds) is positive,
    [setScanResult] succeeds, and [getScanResult] for the same repository
    URL and provider, at any time before the time to live has elapsed,
    returns the stored result as it reads back from its JSON text: the same
    fields, the date [scannedAt] as its ISO string, every finding passed
    through JSON.  From the moment the time to live has elapsed
    [getScanResult] returns [null]. *)
Theorem cache_round_trip_is_json_image
  (redis : Redis) (now : Z) (repoUrl provider : string) (result : ScanResult)
  (ttl : option Z) :
  up redis = true ->
  0 < effectiveTTL defaultTTL ttl ->
  ∃ redis',
    setScanResult md5hex defaultTTL redis now repoUrl provider result ttl = (true, redis')
    ∧ (∀ later, now <= later < now + effectiveTTL defaultTTL ttl * 1000 ->
         getScanResult md5hex redis' later repoUrl provider = Some (cachedImage result))
    ∧ (∀ later, now + effectiveTTL defaultTTL ttl * 1000 <= later ->
         getScanResult md5hex redis' later repoUrl provider = None).
Proof.
  intros Hup Httl.
  unfold setScanResult, JSON_stringify. rewrite jsonImage_toJS. cbn [fmap option_fmap option_map].
  unfold redis_setex. rewrite Hup.
  destruct (Z.ltb_spec 0 (effectiveTTL defaultTTL ttl)) as [_|?]; [|lia].
  cbn [andb]. eexists. split; [reflexivity|].
  split; intros later Hlater; unfold getScanResult, redis_get; cbn [up entries];
    rewrite lookup_insert_eq; cbn [expiresAt value].
  - destruct (Z.ltb_spec later (now + effectiveTTL defaultTTL ttl * 1000)); [done|lia].
  - destruct (Z.ltb_spec later (now + effectiveTTL defaultTTL ttl * 1000)); [lia|done].
Qed.
End WithDigest.

Lemma cache_round_trip_witness :
  up emptyRedis = true
  ∧ 0 < effectiveTTL 86400 (Some 60)
  ∧ ∃ redis',
      setScanResult sampleDigest 86400 emptyRedis 1000
        "https://github.com/org/repo" "github" sampleResult (Some 60) = (true, redis')
      ∧ (∀ later, 1000 <= later < 1000 + effectiveTTL 86400 (Some 60) * 1000 ->
           getScanResult sampleDigest redis' later "https://github.com/org/repo" "github"
           = Some (cachedImage sampleResult))
      ∧ (∀ later, 1000 + effectiveTTL 86400 (Some 60) * 1000 <= later ->
           getScanResult sampleDigest redis' later "https://github.com/org/repo" "github"
           = None).
Proof.
  split; [reflexivity|]. split; [reflexivity|].
  apply (cache_round_trip_is_json_image sampleDigest 86400 emptyRedis 1000
           "https://github.com/org/repo" "github" sampleResult (Some 60));
    reflexivity.
Defined.

(** C6 as stated fails: a result is stored and read back at once, and what
    comes back is not equal to what was stored, because the [Date] in
    [metadata.scannedAt] has become a string. *)
Lemma cache_round_trip_counterexample :
  let redis' := (setScanResult sampleDigest 86400 emptyRedis 1000
                   "https://github.com/org/repo" "github" sampleResult (Some 60)).2 in
  getScanResult sampleDigest redis' 1000 "https://github.com/org/repo" "github"
  = Some (JObject [
      ("repoUrl", JString "https://github.com/org/repo");
      ("provider", JString "github");
      ("vulnerabilities", JArray []);
      ("metadata", JObject [
         ("totalVulnerabilities", JInt 0);
         ("verifiedVulnerabilities", JInt 0);
         ("scanDuration", JInt 1500);
         ("scannedAt", JString "1970-01-01T00:00:00.000Z")])])
  ∧ getScanResult sampleDigest redis' 1000 "https://github.com/org/repo" "github"
    ≠ Some (toJS sampleResult).
Proof. split; [vm_compute; reflexivity|]. vm_compute. discriminate. Qed.

(** A time to live of zero is falsy: the default applies. *)
Example zero_ttl_uses_default : effectiveTTL 86400 (Some 0) = 86400.
Proof. reflexivity. Qed.

End CacheFacts.

(** ** The rate limiter *)

Module RateLimitFacts.
Import JS JSONModel RateLimit.

Section Sequential.
Variable opts : RateLimitOptions.
Variable req : Request.

Local Abbreviation key := (rateKey opts req).
Local Abbreviation secs := (ceilSeconds (windowMs opts)).
Local Abbreviation windowStart := (now req - windowMs opts).

(** A call that finds no time stamp in the window: the key is absent or
    expired, or every member is pruned. *)
Lemma middleware_fresh (store : gmap string ZKey) :
  0 < maxRequests opts ->
  (live store (now req) key = None
   ∨ ∃ z, live store (now req) key = Some z ∧ survivors opts req (members z) = ∅) ->
  middleware opts healthy req store
  = (<[key := mkZKey {[memberOf req := now req]} None]> store, proceed opts req 0).
Proof.
  intros Hmax Hlive.
  assert (zremrangebyscore (now req) key 0 windowStart store = delete key store) as Hrem.
  { unfold zremrangebyscore. destruct Hlive as [->|(z & -> & Hz)]; [done|].
    unfold survivors in Hz. by rewrite decide_True. }
  assert (live (delete key store) (now req) key = None) as Hdead.
  { unfold live. by rewrite lookup_delete_eq. }
  unfold middleware, countPhase, transaction. cbn [healthy execAnswer].
  rewrite Hrem.
  unfold zcard, expire. rewrite Hdead.
  unfold recordPhase. cbn [healthy zaddRejects].
  destruct (Z.geb_spec 0 (maxRequests opts)); [lia|].
  unfold zadd, proceed. rewrite Hdead. rewrite insert_delete_eq.
  by destruct (headersFor opts req 0).
Qed.

(** A call that finds time stamps in the window. *)
Lemma middleware_counted (store : gmap string ZKey) (z : ZKey) :
  0 < secs ->
  live store (now req) key = Some z ->
  survivors opts req (members z) ≠ ∅ ->
  let count := Z.of_nat (size (survivors opts req (members z))) in
  let expiry := Some (now req + secs * 1000) in
  middleware opts healthy req store
  = if count >=? maxRequests opts then
      (<[key := mkZKey (survivors opts req (members z)) expiry]> store,
       TooManyRequests secs)
    else
      (<[key := mkZKey (<[memberOf req := now req]> (survivors opts req (members z))) expiry]> store,
       proceed opts req count).
Proof.
  intros Hsecs Hlive Hne count expiry.
  assert (∀ mem e st, 0 < secs ->
            live (<[key := mkZKey mem e]> st) (now req) key
            = match e with
              | Some t => if now req <? t then Some (mkZKey mem e) else None
              | None => Some (mkZKey mem e)
              end) as Hlk.
  { intros mem e st _. unfold live. by rewrite lookup_insert_eq. }
  unfold middleware, countPhase, transaction. cbn [healthy execAnswer].
  assert (zremrangebyscore (now req) key 0 windowStart store
          = <[key := mkZKey (survivors opts req (members z)) (expireAt z)]> store) as ->.
  { unfold zremrangebyscore. rewrite Hlive. unfold survivors in Hne.
    by rewrite decide_False. }
  assert (live (<[key := mkZKey (survivors opts req (members z)) (expireAt z)]> store)
               (now req) key
          = Some (mkZKey (survivors opts req (members z)) (expireAt z))) as Hlive'.
  { rewrite Hlk by done. unfold live in Hlive.
    destruct (store !! key) as [z'|]; [|done].
    destruct (expireAt z') as [t|] eqn:He.
    - destruct (now req <? t) eqn:Hlt; [|done].
      injection Hlive as <-. by rewrite He, Hlt.
    - injection Hlive as <-. by rewrite He. }
  unfold zcard, expire. rewrite Hlive'. cbn [members expireAt].
  destruct (Z.ltb_spec 0 secs); [|lia].
  rewrite insert_insert_eq.
  unfold recordPhase. cbn [healthy zaddRejects]. fold count.
  destruct (count >=? maxRequests opts); cbn [recover]; [done|].
  unfold zadd, proceed. rewrite Hlk by done.
  destruct (Z.ltb_spec (now req) (now req + secs * 1000)); [|lia].
  cbn [members expireAt]. rewrite insert_insert_eq.
  by destruct (headersFor opts req count).
Qed.

Lemma allowed_proceed (count : Z) : allowed (proceed opts req count) = true.
Proof. done. Qed.

End Sequential.

Lemma survivors_all opts req (mem : gmap string Z) :
  map_Forall (λ _ score, now req - windowMs opts < score) mem ->
  survivors opts req mem = mem.
Proof.
  intros Hall. unfold survivors. apply map_filter_id.
  intros m score Hm. specialize (Hall m score Hm). simpl in *. lia.
Qed.

Lemma survivors_drop opts req (mem : gmap string Z) (m : string) (score : Z) :
  mem !! m = Some score -> 0 <= score <= now req - windowMs opts ->
  (size (survivors opts req mem) < size mem)%nat.
Proof.
  intros Hm Hold. unfold survivors.
  rewrite <- (map_filter_delete_not _ mem m).
  - pose proof (map_subseteq_size _ _
      (map_filter_subseteq (λ p : string * Z, ¬ (0 <= p.2 <= now req - windowMs opts))
         (delete m mem))) as Hle.
    rewrite map_size_delete_Some in Hle by eauto.
    assert (size mem ≠ 0%nat) by (apply map_size_ne_0_lookup_2 with m; eauto).
    lia.
  - intros y Hy. rewrite Hm in Hy. injection Hy as <-. simpl. tauto.
Qed.

(** C7.  With a window of 60000 ms and at most 3 requests, for a client
    without recorded requests: three calls within one second are allowed;
    a fourth call, made while the first is still in the window, is answered
    with 429 and records no time stamp; and a call made once the first
    time stamp has left the window is allowed again.  (The members written
    by the three allowed calls are distinct: they carry the time and a
    random number.) *)
Theorem sliding_window_scenario
  (gen : string -> string) (client : string) (store : gmap string ZKey)
  (t1 t2 t3 t4 t5 : Z) (ρ1 ρ2 ρ3 ρ4 ρ5 : string) :
  let opts := mkOptions 60000 3 gen in
  let r1 := mkRequest client t1 ρ1 in
  let r2 := mkRequest client t2 ρ2 in
  let r3 := mkRequest client t3 ρ3 in
  let r4 := mkRequest client t4 ρ4 in
  let r5 := mkRequest client t5 ρ5 in
  store !! rateKey opts r1 = None ->
  0 <= t1 <= t2 -> t2 <= t3 <= t1 + 1000 -> t3 <= t4 < t1 + 60000 ->
  t4 <= t5 -> t1 + 60000 <= t5 ->
  NoDup [memberOf r1; memberOf r2; memberOf r3] ->
  burstThenPause opts store r1 r2 r3 r4 r5.
Proof.
  intros opts r1 r2 r3 r4 r5 Hfresh H12 H23 H34 H45 H15 Hnd.
  set (key := rateKey opts r1) in *.
  apply NoDup_cons in Hnd as [Hm1 Hnd]. apply NoDup_cons in Hnd as [Hm2 _].
  apply not_elem_of_cons in Hm1 as [Hm12 Hm1].
  apply not_elem_of_cons in Hm1 as [Hm13 _].
  apply not_elem_of_cons in Hm2 as [Hm23 _].
  set (m1 := memberOf r1) in *. set (m2 := memberOf r2) in *.
  set (m3 := memberOf r3) in *.
  set (M1 := ({[m1 := t1]} : gmap string Z)).
  set (M2 := <[m2 := t2]> M1). set (M3 := <[m3 := t3]> M2).
  assert (size M1 = 1%nat) as HsM1 by apply map_size_singleton.
  assert (M1 !! m2 = None) as HM1m2 by (by apply lookup_singleton_ne).
  assert (size M2 = 2%nat) as HsM2.
  { unfold M2. rewrite map_size_insert_None by done. lia. }
  assert (M2 !! m3 = None) as HM2m3.
  { unfold M2. rewrite lookup_insert_ne by done. by apply lookup_singleton_ne. }
  assert (size M3 = 3%nat) as HsM3.
  { unfold M3. rewrite map_size_insert_None by done. lia. }
  assert (M3 !! m1 = Some t1) as HM3m1.
  { unfold M3, M2. rewrite !lookup_insert_ne by done. apply lookup_singleton_eq. }
  assert (∀ lo, lo < t1 -> map_Forall (λ _ score, lo < score) M1) as HF1.
  { intros lo Hlo. apply map_Forall_singleton. lia. }
  assert (∀ lo, lo < t1 -> map_Forall (λ _ score, lo < score) M2) as HF2.
  { intros lo Hlo. apply map_Forall_insert_2; [lia|by apply HF1]. }
  assert (∀ lo, lo < t1 -> map_Forall (λ _ score, lo < score) M3) as HF3.
  { intros lo Hlo. apply map_Forall_insert_2; [lia|by apply HF2]. }
  assert (∀ mem, size mem ≠ 0%nat -> mem ≠ (∅ : gmap string Z)) as Hne.
  { intros mem Hs ->. by rewrite map_size_empty in Hs. }
  (* first call *)
  set (s1 := <[key := mkZKey M1 None]> store).
  assert (middleware opts healthy r1 store = (s1, proceed opts r1 0))
    as E1.
  { apply middleware_fresh; [done|]. left. unfold live. fold key. by rewrite Hfresh. }
  (* second call *)
  set (s2 := <[key := mkZKey M2 (Some (t2 + 60000))]> s1).
  assert (middleware opts healthy r2 s1 = (s2, proceed opts r2 1))
    as E2.
  { pose proof (middleware_counted opts r2 s1 (mkZKey M1 None)) as E.
    cbn [members] in E.
    rewrite (survivors_all opts r2 M1) in E by (apply HF1; simpl; lia).
    rewrite HsM1 in E. apply E; [done| |apply Hne; lia].
    unfold live. change (rateKey opts r2) with key. unfold s1.
    by rewrite lookup_insert_eq. }
  (* third call *)
  set (s3 := <[key := mkZKey M3 (Some (t3 + 60000))]> s2).
  assert (middleware opts healthy r3 s2 = (s3, proceed opts r3 2))
    as E3.
  { pose proof (middleware_counted opts r3 s2 (mkZKey M2 (Some (t2 + 60000)))) as E.
    cbn [members] in E.
    rewrite (survivors_all opts r3 M2) in E by (apply HF2; simpl; lia).
    rewrite HsM2 in E. apply E; [done| |apply Hne; lia].
    unfold live. change (rateKey opts r3) with key. unfold s2.
    rewrite lookup_insert_eq. cbn [expireAt now r3].
    destruct (Z.ltb_spec t3 (t2 + 60000)); [done|lia]. }
  (* fourth call *)
  set (s4 := <[key := mkZKey M3 (Some (t4 + 60000))]> s3).
  assert (middleware opts healthy r4 s3 = (s4, TooManyRequests 60)) as E4.
  { pose proof (middleware_counted opts r4 s3 (mkZKey M3 (Some (t3 + 60000)))) as E.
    cbn [members] in E.
    rewrite (survivors_all opts r4 M3) in E by (apply HF3; simpl; lia).
    rewrite HsM3 in E. apply E; [done| |apply Hne; lia].
    unfold live. change (rateKey opts r4) with key. unfold s3.
    rewrite lookup_insert_eq. cbn [expireAt now r4].
    destruct (Z.ltb_spec t4 (t3 + 60000)); [done|lia]. }
  (* fifth call *)
  assert (∃ s5 o5, middleware opts healthy r5 s4 = (s5, o5) ∧ allowed o5 = true)
    as (s5 & o5 & E5 & Ha5).
  { destruct (Z.ltb_spec t5 (t4 + 60000)) as [Hlive|Hdead].
    - assert (live s4 (now r5) (rateKey opts r5)
              = Some (mkZKey M3 (Some (t4 + 60000)))) as Hl.
      { unfold live. change (rateKey opts r5) with key. unfold s4.
        rewrite lookup_insert_eq. cbn [expireAt now r5].
        destruct (Z.ltb_spec t5 (t4 + 60000)); [done|lia]. }
      destruct (decide (survivors opts r5 M3 = ∅)) as [Hempty|Hsome].
      + rewrite (middleware_fresh opts r5 s4); [eauto using allowed_proceed|done|].
        right. eexists. split; [exact Hl|done].
      + pose proof (middleware_counted opts r5 s4 _ eq_refl Hl Hsome) as E5.
        cbn zeta in E5.
        pose proof (survivors_drop opts r5 M3 m1 t1 HM3m1) as Hdrop.
        cbn [now r5 windowMs opts] in Hdrop. specialize (Hdrop ltac:(lia)).
        cbn [members] in E5.
        destruct (Z.geb_spec (Z.of_nat (size (survivors opts r5 M3))) (maxRequests opts))
          as [Hge|Hlt].
        { cbn [maxRequests opts] in Hge. lia. }
        eauto using allowed_proceed.
    - rewrite (middleware_fresh opts r5 s4); [eauto using allowed_proceed|done|].
      left. unfold live. change (rateKey opts r5) with key. unfold s4.
      rewrite lookup_insert_eq. cbn [expireAt now r5].
      destruct (Z.ltb_spec t5 (t4 + 60000)); [lia|done]. }
  exists s1, s2, s3, s4, s5.
  eexists _, _, _, o5.
  repeat split; try done; try apply allowed_proceed.
  unfold s4, s3. by rewrite !lookup_insert_eq.
Qed.

Lemma sliding_window_witness :
  (∅ : gmap string ZKey) !! rateKey (mkOptions 60000 3 (λ ip, ip))
                              (mkRequest "clientA" 1000 "0.11") = None
  ∧ burstThenPause (mkOptions 60000 3 (λ ip, ip)) ∅
      (mkRequest "clientA" 1000 "0.11") (mkRequest "clientA" 1300 "0.22")
      (mkRequest "clientA" 1900 "0.33") (mkRequest "clientA" 2000 "0.44")
      (mkRequest "clientA" 61000 "0.55").
Proof.
  split; [apply lookup_empty|].
  apply (sliding_window_scenario (λ ip, ip) "clientA" ∅ 1000 1300 1900 2000 61000
           "0.11" "0.22" "0.33" "0.44" "0.55");
    try lia; try apply lookup_empty.
  apply (bool_decide_unpack _). by vm_compute.
Defined.

(** C8.  When a store operation of a call fails (the transaction rejects
    or yields [null], or [zadd] is reached and rejects) the call ends in
    the [catch] clause and lets the request proceed. *)
Theorem rate_limiter_fails_open
  (opts : RateLimitOptions) (b : StoreBehaviour) (req : Request)
  (store : gmap string ZKey) :
  storeFails opts b req store ->
  allowed (middleware opts b req store).2 = true
  ∧ (middleware opts b req store).2 = Next None.
Proof.
  unfold storeFails, middleware, countPhase, recordPhase.
  intros [Hexec|[Hzadd Hcount]].
  - by destruct (execAnswer b).
  - destruct (execAnswer b); [|done|done].
    destruct (transaction opts req store) as [store' currentCount]. simpl in *.
    destruct (Z.geb_spec currentCount (maxRequests opts)); [lia|].
    by rewrite Hzadd.
Qed.

Lemma fails_open_witness :
  storeFails scanRateLimiter (mkBehaviour ExecNull false)
             (mkRequest "203.0.113.7" 1700000000000 "0.5") ∅
  ∧ (middleware scanRateLimiter (mkBehaviour ExecNull false)
       (mkRequest "203.0.113.7" 1700000000000 "0.5") ∅).2 = Next None.
Proof.
  assert (storeFails scanRateLimiter (mkBehaviour ExecNull false)
            (mkRequest "203.0.113.7" 1700000000000 "0.5") ∅) as Hfail.
  { left. discriminate. }
  split; [exact Hfail|].
  apply (rate_limiter_fails_open scanRateLimiter (mkBehaviour ExecNull false)
           (mkRequest "203.0.113.7" 1700000000000 "0.5") ∅ Hfail).
Defined.

(** A call scheduled without interruption is the middleware. *)
Lemma advance_twice opts b req store :
  let '(s1, c1) := advance opts b (Counting req) store in
  let '(s2, c2) := advance opts b c1 s1 in
  ∃ outcome, c2 = Completed req outcome ∧ middleware opts b req store = (s2, outcome).
Proof.
  unfold advance, middleware.
  destruct (countPhase opts b req store) as [s1 [e|n]]; [eauto|].
  destruct (recordPhase opts b req n s1) as [s2 r]. eauto.
Qed.

(** C3 fails on the code.  Eleven calls of one client reach the scan
    limiter (300000 ms, at most 10 requests) one millisecond apart.  When
    every call gets its count before any call records its time stamp, all
    eleven are let through and eleven time stamps lie in one window: the
    count and the recording are two separate round trips to the store.
    Run one after the other, the same calls end with the eleventh
    refused. *)
Theorem interleaved_calls_overshoot :
  let calls := Counting <$> Samples.burst 11 1700000000000 in
  let first := mkRequest "203.0.113.7" 1700000000000 "" in
  let interleaved :=
    runSchedule scanRateLimiter healthy (seq 0 11 ++ seq 0 11) calls ∅ in
  let in_turn :=
    runSchedule scanRateLimiter healthy
      (flat_map (λ i, [i; i]) (seq 0 11)) calls ∅ in
  wasAllowed <$> interleaved.2 = replicate 11 true
  ∧ recordedWithin scanRateLimiter first 1700000000010 interleaved.1 = 11
  ∧ maxRequests scanRateLimiter = 10
  ∧ wasAllowed <$> in_turn.2 = replicate 10 true ++ [false]
  ∧ recordedWithin scanRateLimiter first 1700000000010 in_turn.1 = 10.
Proof. vm_compute. done. Qed.

End RateLimitFacts.

(** ** The request validator *)

Module ValidatorFacts.
Import JS Validator.

Section WithURL.
Variable parseURL : string -> option URL.

Lemma validate_no_errors (b : Body) :
  validateScanRequest parseURL b = Accepted
  ↔ repoUrlErrors parseURL b = [] ∧ providerErrors b = [].
Proof.
  unfold validateScanRequest.
  destruct (repoUrlErrors parseURL b ++ providerErrors b) as [|e errs] eqn:E.
  - apply app_eq_nil in E. simpl. tauto.
  - simpl. split; [done|]. intros [H1 H2]. rewrite H1, H2 in E. done.
Qed.

Lemma empty_not_provider : "" ∉ providers.
Proof. by apply (bool_decide_unpack _). Qed.

Lemma providerErrors_nil (b : Body) :
  providerErrors b = [] ↔ ∃ p, provider b = JString p ∧ p ∈ providers.
Proof.
  unfold providerErrors.
  destruct (provider b) as [| |x|n|s|ms|items|fields] eqn:Hp; simpl;
    try (split; [try destruct x; try destruct n as [? ?| |?]; try destruct (_ =? _); done
                |intros (p & Hp' & _); done]).
  destruct (isEmpty s) eqn:Hs; simpl.
  - destruct s; [|done]. split; [done|].
    intros (p & [= <-] & Hin). by apply empty_not_provider in Hin.
  - case_bool_decide as Hin; simpl.
    + split; [eauto|done].
    + split; [done|]. intros (p & [= <-] & Hin'). done.
Qed.

Hypothesis parseURL_empty : parseURL "" = None.

(** C10.  A scan request passes validation exactly when [provider] is
    one of [github], [gitlab], [bitbucket], [other] and [repoUrl] is a
    string that parses as a URL whose protocol is [http:] or [https:] and
    whose host name contains one of [github.com], [gitlab.com],
    [bitbucket.org], or else the provider is [other].  (The URL parser is
    the platform's; it rejects the empty text.) *)
Theorem validation_accepts_iff (b : Body) :
  validateScanRequest parseURL b = Accepted ↔ acceptable parseURL b.
Proof.
  rewrite validate_no_errors, providerErrors_nil. unfold acceptable.
  split.
  - intros [Hrepo Hprov]. split; [done|].
    unfold repoUrlErrors in Hrepo.
    destruct (repoUrl b) as [| |x|n|s|ms|items|fields] eqn:Hr;
      cbn [truthy negb] in Hrepo;
      try done; try (destruct x; done);
      try (destruct n as [m e| |neg]; try done; destruct (m =? 0); done).
    destruct (isEmpty s) eqn:Hs; cbn [negb] in Hrepo; [done|].
    destruct (parseURL s) as [url|] eqn:Hu; [|done].
    apply app_eq_nil in Hrepo as [Hproto Hhost].
    exists s, url. split; [done|]. split; [done|]. split.
    + case_bool_decide as Hin; [|done].
      apply elem_of_cons in Hin as [Hin|Hin]; [by left|].
      apply elem_of_cons in Hin as [Hin|Hin]; [by right|].
      by apply elem_of_nil in Hin.
    + destruct (existsb (λ host, includes (hostname url) host) supportedHosts) eqn:Hex;
        cbn [negb] in Hhost.
      * left. apply existsb_exists in Hex as (host & Hin & Hinc).
        exists host. split; [by apply list_elem_of_In|done].
      * right. destruct (provider b) as [| |?|?|p|?|?|?]; cbn [notStrictEq] in Hhost;
          try done.
        case_bool_decide; [by subst|done].
  - intros [Hprov (s & url & Hr & Hu & Hproto & Hhost)]. split; [|done].
    unfold repoUrlErrors. rewrite Hr.
    destruct s as [|c s']; [by rewrite parseURL_empty in Hu|].
    cbn [truthy isEmpty negb]. rewrite Hu.
    rewrite bool_decide_eq_true_2
      by (destruct Hproto as [-> | ->]; by apply (bool_decide_unpack _)).
    cbn [negb app].
    destruct Hhost as [(host & Hin & Hinc)|Hother].
    + assert (existsb (λ host0, includes (hostname url) host0) supportedHosts = true) as ->.
      { apply existsb_exists. exists host. split; [by apply list_elem_of_In|done]. }
      done.
    + rewrite Hother. cbn [notStrictEq].
      rewrite bool_decide_eq_true_2 by done.
      by destruct (existsb _ supportedHosts).
Qed.
End WithURL.

Lemma validation_witness :
  sampleParseURL "" = None
  ∧ (validateScanRequest sampleParseURL
       (mkBody (JString "https://github.com/org/repo") (JString "github")) = Accepted
     ↔ acceptable sampleParseURL
         (mkBody (JString "https://github.com/org/repo") (JString "github"))).
Proof.
  split; [reflexivity|].
  apply (validation_accepts_iff sampleParseURL eq_refl).
Defined.

(** A host name that merely contains a supported name passes for any
    provider, and any host passes for the provider [other]. *)
Example accepts_lookalike_host :
  validateScanRequest sampleParseURL
    (mkBody (JString "https://github.com.evil.example/x") (JString "gitlab")) = Accepted.
Proof. reflexivity. Qed.

Example accepts_any_host_for_other :
  validateScanRequest sampleParseURL
    (mkBody (JString "http://internal.example/x") (JString "other")) = Accepted.
Proof. reflexivity. Qed.

Example rejects_unknown_host :
  validateScanRequest sampleParseURL
    (mkBody (JString "http://internal.example/x") (JString "github"))
  = BadRequest ["repoUrl must be from a supported Git provider"].
Proof. reflexivity. Qed.

End ValidatorFacts.

(** ** The failures of a scan request *)

Module ScanServiceFacts.
Import JS Errors TruffleHog Cache ScanService.

Section WithDecoder.
Variable JSON_parse : string -> option JSValue.

Lemma classify_result (e : JSError) :
  classify (ThrownError e) = ThrownError e
  ∨ ∃ msg, classify (ThrownError e) = ThrownError (ScanError msg).
Proof.
  unfold classify.
  repeat (match goal with |- context [if ?c then _ else _] => destruct c end;
          [right; eexists; reflexivity|]).
  by left.
Qed.

Lemma cacheHitError_is_TypeError (c : JSValue) (e : JSError) :
  cacheHitError c = Some e -> ∃ msg, e = TypeError msg.
Proof.
  unfold cacheHitError.
  destruct (getProp c "metadata") as [[]|]; try (intros [= <-]; by eexists);
    destruct (getProp c "vulnerabilities") as [[]|];
    try done; intros [= <-]; by eexists.
Qed.

Lemma fresh_failure_is_ScanError
  (svc svc' : Service) (env : Environment) (repoUrl provider : string) (e : JSError) :
  (∀ e0, settlement env = Rejected e0 -> cls e0 = CError) ->
  freshScan JSON_parse svc env repoUrl provider = (svc', inl e) ->
  ∃ msg, e = ScanError msg.
Proof.
  intros Hplain Hrun. unfold freshScan in Hrun.
  destruct (isAvailable env); cbn [negb] in Hrun; [|injection Hrun as _ <-; by eexists].
  destruct (scanRepository_enter svc) as [svc1 [e1|[]]] eqn:Henter.
  - unfold scanRepository_enter in Henter.
    destruct (_ >=? _); [|done].
    injection Henter as _ <-. injection Hrun as _ <-. by eexists.
  - destruct (scanRepository_resume svc1 _) as [svc2 [e2|v]] eqn:Hres; [|done].
    injection Hrun as _ <-.
    unfold executeTruffleHog in Hres.
    destruct (settlement env) as [out err|e0]; [done|].
    specialize (Hplain e0 eq_refl).
    destruct (classify_result e0) as [Hc|[m Hc]]; rewrite Hc in Hres;
      unfold scanRepository_resume, instanceofScanError in Hres.
    + rewrite Hplain in Hres. cbn [bool_decide decide_rel] in Hres.
      injection Hres as _ <-. by eexists.
    + injection Hres as _ <-. by eexists.
Qed.

(** C9, as the code has it.  Whatever makes a scan request fail (the gate
    is full, the scanner timed out, the scanner exited with a nonzero code,
    the scanner is not available, or anything else), the error that reaches
    the caller is a [ScanError]: its machine-readable code is [SCAN_ERROR]
    and its status 500 in every case, and only the message text tells the
    causes apart.  (The process runner rejects with plain [Error]
    objects.) *)
Theorem scan_failures_share_one_kind
  (svc svc' : Service) (env : Environment) (repoUrl provider : string) (e : JSError) :
  (∀ e0, settlement env = Rejected e0 -> cls e0 = CError) ->
  scanRepository JSON_parse svc env repoUrl provider = (svc', inl e) ->
  (∃ msg, e = ScanError msg)
  ∧ respCode (errorHandler e) = "SCAN_ERROR"
  ∧ respStatus (errorHandler e) = 500
  ∧ respMessage (errorHandler e) = message e.
Proof.
  intros Hplain Hrun.
  assert (∃ msg, e = ScanError msg) as [msg ->]; [|split; [by eexists|done]].
  unfold scanRepository in Hrun.
  destruct (cached env) as [c|]; [|by apply (fresh_failure_is_ScanError svc svc' env repoUrl provider)].
  destruct (truthy c); [|by apply (fresh_failure_is_ScanError svc svc' env repoUrl provider)].
  destruct (cacheHitError c) as [e0|] eqn:He; [|done].
  apply cacheHitError_is_TypeError in He as [m ->].
  injection Hrun as _ <-. by eexists.
Qed.

(** The four failures one by one: the same code, four messages. *)
Lemma delivered_gate (env : Environment) (repoUrl provider : string) :
  cached env = None -> isAvailable env = true ->
  delivered JSON_parse saturated env repoUrl provider
  = Some (mkResp 500 "SCAN_ERROR"
            "Maximum concurrent scans reached. Please try again later.").
Proof. intros Hc Ha. unfold delivered, scanRepository, freshScan. by rewrite Hc, Ha. Qed.

Lemma delivered_unavailable (svc : Service) (s : Settlement) (repoUrl provider : string) :
  delivered JSON_parse svc (envOf false s) repoUrl provider
  = Some (mkResp 500 "SCAN_ERROR"
            "TruffleHog scanner is not available. Please ensure it is properly installed.").
Proof. reflexivity. Qed.

Lemma delivered_timeout (repoUrl provider : string) :
  delivered JSON_parse idle (envOf true timeoutSettlement) repoUrl provider
  = Some (mkResp 500 "SCAN_ERROR"
            "Scan timed out. Repository may be too large or network is slow.").
Proof. reflexivity. Qed.

Lemma delivered_exit (code : Z) (stderr : string) (repoUrl provider : string) :
  classify (ThrownError (Error (exitMessage code stderr)))
  = ThrownError (Error (exitMessage code stderr)) ->
  delivered JSON_parse idle (envOf true (exitSettlement code stderr)) repoUrl provider
  = Some (mkResp 500 "SCAN_ERROR"
            ("Failed to scan repository: " +:+ exitMessage code stderr)).
Proof.
  intros Hc. unfold delivered, scanRepository, freshScan, exitSettlement, envOf.
  cbn [cached isAvailable settlement negb].
  change (scanRepository_enter idle) with (mkService 3 1, inr tt : JSError + unit).
  cbv iota beta. unfold executeTruffleHog. rewrite Hc. reflexivity.
Qed.

End WithDecoder.

Lemma scan_failures_witness :
  (∀ e0, settlement (envOf true timeoutSettlement) = Rejected e0 -> cls e0 = CError)
  ∧ scanRepository Samples.sampleDecoder idle (envOf true timeoutSettlement)
      "https://github.com/org/repo" "github"
    = (mkService 3 0,
       inl (ScanError "Scan timed out. Repository may be too large or network is slow."))
  ∧ respCode (errorHandler
       (ScanError "Scan timed out. Repository may be too large or network is slow."))
    = "SCAN_ERROR".
Proof.
  assert (∀ e0, settlement (envOf true timeoutSettlement) = Rejected e0 -> cls e0 = CError)
    as Hplain.
  { intros e0 [= <-]. reflexivity. }
  split; [exact Hplain|]. split; [reflexivity|].
  apply (scan_failures_share_one_kind Samples.sampleDecoder idle (mkService 3 0)
           (envOf true timeoutSettlement) "https://github.com/org/repo" "github"
           (ScanError "Scan timed out. Repository may be too large or network is slow.")
           Hplain eq_refl).
Defined.

(** C9 as stated fails: the gate, the timeout, the nonzero exit and the
    unavailable scanner are all delivered under the one code [SCAN_ERROR],
    so the kinds of two different causes do not differ. *)
Lemma error_kinds_counterexample :
  respCode <$> delivered Samples.sampleDecoder saturated
                 (envOf true (Resolved "" "")) "https://github.com/org/repo" "github"
  = Some "SCAN_ERROR"
  ∧ respCode <$> delivered Samples.sampleDecoder idle
                 (envOf true timeoutSettlement) "https://github.com/org/repo" "github"
  = Some "SCAN_ERROR"
  ∧ respCode <$> delivered Samples.sampleDecoder idle
                 (envOf true (exitSettlement 1 "fatal: could not read from remote"))
                 "https://github.com/org/repo" "github"
  = Some "SCAN_ERROR"
  ∧ respCode <$> delivered Samples.sampleDecoder idle
                 (envOf false (Resolved "" "")) "https://github.com/org/repo" "github"
  = Some "SCAN_ERROR".
Proof. repeat split; reflexivity. Qed.
End ScanServiceFacts.

(** ** Texts *)

Module TextFacts.
Import JS.

Lemma startsWith_refl_app (w s : string) : startsWith w (w +:+ s) = true.
Proof.
  induction w as [|c w IH]; [by destruct s|].
  rewrite CommandFacts.app_cons. simpl. by rewrite decide_True.
Qed.

Lemma includes_here (s w : string) : startsWith w s = true -> includes s w = true.
Proof. intros H. destruct s; simpl; by rewrite H. Qed.

Lemma includes_cons (c : ascii) (s w : string) :
  includes s w = true -> includes (String c s) w = true.
Proof. intros H. simpl. rewrite H. apply orb_true_r. Qed.

(** A text that occurs in the tail occurs in the whole. *)
Lemma includes_app_r (a b w : string) :
  includes b w = true -> includes (a +:+ b) w = true.
Proof.
  intros H. induction a as [|c a IH]; [done|].
  rewrite CommandFacts.app_cons. by apply includes_cons.
Qed.

Lemma startsWith_app_l (p q s : string) :
  startsWith (p +:+ q) s = true -> startsWith p s = true.
Proof.
  revert s. induction p as [|c p IH]; intros s; [done|].
  rewrite CommandFacts.app_cons. destruct s as [|d s]; [done|]. simpl.
  destruct (decide (c = d)); [apply IH|done].
Qed.

(** What follows a prefix [p] of a text that starts with [p +:+ q] starts
    with [q]. *)
Lemma startsWith_drop (p q s : string) :
  startsWith (p +:+ q) s = true -> ∃ r, s = p +:+ r ∧ startsWith q r = true.
Proof.
  revert s. induction p as [|c p IH]; intros s.
  - exists s. done.
  - rewrite CommandFacts.app_cons. destruct s as [|d s]; [done|]. simpl.
    destruct (decide (c = d)) as [->|]; [|done].
    intros H. destruct (IH s H) as (r & -> & Hr). exists r. done.
Qed.

(** A text that contains [p +:+ q] contains [q]. *)
Lemma includes_suffix (s p q : string) :
  includes s (p +:+ q) = true -> includes s q = true.
Proof.
  induction s as [|c s IH]; intros H.
  - simpl in H. rewrite orb_false_r in H.
    destruct (startsWith_drop p q "" H) as (r & Hr & Hq).
    destruct p; [|by rewrite CommandFacts.app_cons in Hr].
    rewrite CommandFacts.app_empty_l in Hr. subst r. by apply includes_here.
  - change (startsWith (p +:+ q) (String c s) || includes s (p +:+ q) = true) in H.
    apply orb_true_iff in H as [H|H].
    + destruct (startsWith_drop p q _ H) as (r & Hr & Hq).
      rewrite Hr. apply includes_app_r. by apply includes_here.
    + apply includes_cons. by apply IH.
Qed.

Lemma string_length_app (a b : string) :
  String.length (a +:+ b) = (String.length a + String.length b)%nat.
Proof. induction a as [|c a IH]; [done|]. rewrite CommandFacts.app_cons. simpl. by rewrite IH. Qed.

(** Two texts with tails of equal length: equal texts have equal tails. *)
Lemma app_tail_eq (a : string) : ∀ (b x y : string),
  a +:+ x = b +:+ y -> String.length x = String.length y -> x = y.
Proof.
  induction a as [|c a IH]; intros b x y Heq Hlen.
  - destruct b as [|d b]; [done|].
    apply (f_equal String.length) in Heq.
    rewrite CommandFacts.app_empty_l, string_length_app in Heq. simpl in Heq. lia.
  - destruct b as [|d b].
    + apply (f_equal String.length) in Heq.
      rewrite CommandFacts.app_empty_l, string_length_app in Heq. simpl in Heq. lia.
    + rewrite !CommandFacts.app_cons in Heq. injection Heq as _ Heq. by apply (IH b).
Qed.

End TextFacts.

(** ** The scanner process and the classification of its failures *)

Module ProcessFacts.
Import JS Errors TruffleHog RunnerTraces TextFacts.

(** X1.  Quoting undoes itself in the shell.  For every text, whatever quotes,
    blanks or shell characters it holds, the shell reads
    [escapeShellArg arg] back as exactly one word, and that word is
    [arg]. *)
Theorem escapeShellArg_round_trip (arg : string) :
  Shell.words (escapeShellArg arg) = Some [arg].
Proof.
  unfold Shell.words.
  rewrite <- (CommandFacts.app_empty_r (escapeShellArg arg)).
  rewrite CommandFacts.split_escapeShellArg. reflexivity.
Qed.

Section WithDecoder.
Variable JSON_parse : string -> option JSValue.

(** X2.  The classification of a failure goes by the text of the message, and
    the message of a nonzero exit ends with what the scanner wrote to its
    error stream.  So a scanner that exits by itself with a nonzero code
    and has the word [timeout] anywhere in its error output is reported to
    the caller as a scan that timed out, although no timer ran out. *)
Theorem exit_with_timeout_text_reported_as_timeout (r : Runner) (code : Z) :
  settled r = None -> code ≠ 0 ->
  includes (stderr r) "timeout" = true ->
  settled (onExit (Some code) None r)
  = Some (Rejected (Error (exitMessage code (stderr r))))
  ∧ executeTruffleHog JSON_parse (Rejected (Error (exitMessage code (stderr r))))
    = inl (ThrownError (ScanError
        "Scan timed out. Repository may be too large or network is slow.")).
Proof.
  intros Hpending Hcode Hinc. split.
  - unfold onExit, settle, clearTimeout. simpl. rewrite Hpending.
    rewrite bool_decide_eq_false_2 by done. done.
  - unfold executeTruffleHog, classify.
    assert (includes (message (Error (exitMessage code (stderr r)))) "timeout" = true) as ->; [|done].
    cbn [message Error]. unfold exitMessage.
    apply includes_app_r. apply includes_app_r. apply includes_app_r.
    destruct (stderr r); [done|]. exact Hinc.
Qed.

(** X3.  The order of the tests in the [catch] clause of [executeTruffleHog]:
    [not found] is tested before [repository not found].  A failure whose
    message contains [repository not found] is therefore never reported as
    [Repository not found or is private.]; it is reported as a timeout or
    as a scanner that is not installed.  That message is reached only
    through the test for [404], by a message without [not found]. *)
Theorem repository_not_found_text_is_masked (e : JSError) :
  (includes (message e) "repository not found" = true ->
   classify (ThrownError e)
   = ThrownError (ScanError "Scan timed out. Repository may be too large or network is slow.")
   ∨ classify (ThrownError e)
     = ThrownError (ScanError "TruffleHog is not installed or not accessible."))
  ∧ (classify (ThrownError e) = ThrownError (ScanError "Repository not found or is private.") ->
     includes (message e) "404" = true
     ∧ includes (message e) "not found" = false).
Proof.
  split.
  - intros Hinc.
    assert (includes (message e) "not found" = true) as Hnf.
    { apply (includes_suffix (message e) "repository " "not found"). exact Hinc. }
    unfold classify. destruct (includes (message e) "timeout"); [by left|].
    rewrite Hnf. by right.
  - unfold classify.
    destruct (includes (message e) "timeout"); [done|].
    destruct (includes (message e) "not found") eqn:Hnf; [done|].
    assert (includes (message e) "command not found" = false) as ->.
    { destruct (includes (message e) "command not found") eqn:Hc; [|done].
      apply (includes_suffix (message e) "command " "not found") in Hc. congruence. }
    assert (includes (message e) "repository not found" = false) as ->.
    { destruct (includes (message e) "repository not found") eqn:Hc; [|done].
      apply (includes_suffix (message e) "repository " "not found") in Hc. congruence. }
    cbn [orb].
    destruct (includes (message e) "permission denied" || includes (message e) "access denied");
      [done|].
    destruct (includes (message e) "404"); [done|].
    intros [= ->]. by vm_compute in Hnf.
Qed.
End WithDecoder.

Lemma exit_with_timeout_text_witness :
  settled (mkRunner "" "dial tcp: i/o timeout" Armed Running None true) = None
  ∧ 1 ≠ 0
  ∧ includes (stderr (mkRunner "" "dial tcp: i/o timeout" Armed Running None true)) "timeout" = true
  ∧ settled (onExit (Some 1) None (mkRunner "" "dial tcp: i/o timeout" Armed Running None true))
    = Some (Rejected (Error (exitMessage 1 "dial tcp: i/o timeout")))
  ∧ executeTruffleHog Samples.sampleDecoder (Rejected (Error (exitMessage 1 "dial tcp: i/o timeout")))
    = inl (ThrownError (ScanError
        "Scan timed out. Repository may be too large or network is slow.")).
Proof.
  split; [reflexivity|]. split; [lia|]. split; [reflexivity|].
  apply (exit_with_timeout_text_reported_as_timeout Samples.sampleDecoder
           (mkRunner "" "dial tcp: i/o timeout" Armed Running None true) 1);
    [reflexivity|lia|reflexivity].
Defined.


(** X4.  A child that ends by a signal while the timer is still pending (the
    timer callback has not run, nothing was sent by the runner).  The timer
    is cancelled.  If the signal is [SIGKILL] the promise is rejected with
    [Command was killed due to timeout], the same as after a timeout of
    the runner's own; for any other signal the promise is resolved with
    the output collected so far, as after a clean exit. *)
Theorem exit_by_signal (r : Runner) (sig : string) (r' : Runner) :
  reachable r -> child r = Running ->
  step r (EvExit None (Some sig)) r' ->
  timer r' = Cleared
  ∧ (sig = "SIGKILL" ->
       settled r' = Some (Rejected (Error "Command was killed due to timeout"))
       ∧ timedOut r' = true)
  ∧ (sig ≠ "SIGKILL" -> settled r' = Some (Resolved (stdout r) (stderr r))).
Proof.
  intros Hreach Hrun Hstep.
  destruct (RunnerFacts.running_pending r Hreach Hrun) as [Hpending Harmed].
  inversion Hstep; subst; try congruence.
  unfold onExit, settle, clearTimeout, markExited, timedOut. simpl.
  rewrite Hpending, Harmed.
  split; [by case_bool_decide|]. split.
  - intros ->. rewrite bool_decide_eq_true_2 by done. done.
  - intros Hne. rewrite bool_decide_eq_false_2 by congruence. done.
Qed.

Lemma exit_by_signal_witness :
  reachable started
  ∧ child started = Running
  ∧ step started (EvExit None (Some "SIGTERM"))
         (onExit None (Some "SIGTERM") (markExited started))
  ∧ timer (onExit None (Some "SIGTERM") (markExited started)) = Cleared
  ∧ settled (onExit None (Some "SIGTERM") (markExited started)) = Some (Resolved "" "").
Proof.
  split; [apply reach_started|]. split; [reflexivity|].
  split; [by apply step_exit_signal|].
  destruct (exit_by_signal started "SIGTERM"
              (onExit None (Some "SIGTERM") (markExited started))
              reach_started eq_refl (step_exit_signal started "SIGTERM" eq_refl))
    as (Htimer & _ & Hother).
  split; [exact Htimer|]. apply Hother. discriminate.
Defined.

Lemma deliver_data (evs : list Event) : ∀ (r : Runner),
  Forall (λ ev, isData ev = true) evs ->
  alive (child r) = true ->
  foldl deliver r evs
  = mkRunner (stdout r +:+ stdoutOf evs) (stderr r +:+ stderrOf evs)
             (timer r) (child r) (settled r) (scanner r).
Proof.
  induction evs as [|ev evs IH]; intros r Hall Halive.
  - simpl. rewrite !CommandFacts.app_empty_r. by destruct r.
  - apply Forall_cons in Hall as [Hev Hall].
    destruct ev as [d|d| | | |]; try done; cbn [foldl deliver]; unfold writing;
      rewrite Halive; cbn [orb].
    + rewrite IH by done. cbn [stdout stderr timer child settled onStdout stdoutOf stderrOf].
      by rewrite CommandFacts.app_assoc.
    + rewrite IH by done. cbn [stdout stderr timer child settled onStderr stdoutOf stderrOf].
      by rewrite CommandFacts.app_assoc.
Qed.

(** X5.  Nothing of the output is lost or reordered.  When the child writes
    any chunks to its two streams, in any interleaving, and then exits
    with a code, the promise is settled with the chunks of each stream
    joined in order: resolved with both texts for code 0, rejected with
    the exit message built from the whole error text otherwise. *)
Theorem runner_hands_over_all_output (evs : list Event) (code : Z) :
  Forall (λ ev, isData ev = true) evs ->
  settled (foldl deliver started (evs ++ [EvExit (Some code) None]))
  = Some (if bool_decide (code = 0)
          then Resolved (stdoutOf evs) (stderrOf evs)
          else Rejected (Error (exitMessage code (stderrOf evs)))).
Proof.
  intros Hall. rewrite foldl_app, (deliver_data evs started Hall eq_refl).
  cbn [foldl deliver started stdout stderr timer child settled alive].
  rewrite !CommandFacts.app_empty_l.
  unfold onExit, settle, clearTimeout, markExited. simpl.
  by case_bool_decide.
Qed.

Lemma runner_output_witness :
  Forall (λ ev, isData ev = true) [EvStdout "{"; EvStderr "warn"; EvStdout "}"]
  ∧ settled (foldl deliver started
               ([EvStdout "{"; EvStderr "warn"; EvStdout "}"] ++ [EvExit (Some 0) None]))
    = Some (Resolved "{}" "warn").
Proof.
  assert (Forall (λ ev, isData ev = true) [EvStdout "{"; EvStderr "warn"; EvStdout "}"])
    as Hdata.
  { repeat (apply Forall_cons_2; [reflexivity|]). by apply Forall_nil_2. }
  split; [exact Hdata|].
  apply (runner_hands_over_all_output [EvStdout "{"; EvStderr "warn"; EvStdout "}"] 0 Hdata).
Defined.

End ProcessFacts.

(** ** The findings *)

Module FindingFacts.
Import JS Errors TruffleHog RunnerTraces.

Lemma trimStartFrom_allWhite (s : string) : ∀ k,
  allWhiteFrom k s = true -> trimStartFrom k s = "".
Proof.
  induction s as [|c s IH]; intros k; [done|].
  cbn [allWhiteFrom trimStartFrom].
  destruct k as [|k]; [|apply IH].
  destruct (whiteLen (String c s)); [done|apply IH].
Qed.

Lemma trim_allWhite (s : string) : allWhite s = true -> trim s = "".
Proof.
  intros H. unfold trim, trimStart. by rewrite (trimStartFrom_allWhite s 0 H).
Qed.

Lemma omap_two_way {A B C} (f : A -> option B) (g : A -> option C) (p : A -> bool)
  (l : list A) :
  (∀ x, if p x then f x = None ∧ g x = None
        else (is_Some (f x) ∧ g x = None) ∨ (f x = None ∧ is_Some (g x))) ->
  (length (omap f l) + length (omap g l))%nat
  = length (filter (λ x, p x = false) l).
Proof.
  intros H. induction l as [|x l IH]; [done|].
  specialize (H x).
  change (omap f (x :: l)) with (match f x with Some y => y :: omap f l | None => omap f l end).
  change (omap g (x :: l)) with (match g x with Some y => y :: omap g l | None => omap g l end).
  destruct (p x) eqn:Hp.
  - rewrite filter_cons_False by congruence. destruct H as [-> ->]. exact IH.
  - rewrite filter_cons_True by done. cbn [length]. rewrite <- IH.
    destruct H as [[[y ->] ->]|[-> [y ->]]]; cbn [length]; lia.
Qed.

Section WithDecoder.
Variable JSON_parse : string -> option JSValue.

(** X6.  The parser accounts for every line.  Whatever the scanner wrote and
    whatever the decoder makes of it, each line that is not blank ends up
    either as one finding or as one logged warning, never as both and
    never as neither; output that is all white space gives no finding and
    no warning. *)
Theorem parser_accounts_for_every_line (output : string) :
  (length (results (parseTruffleHogOutput JSON_parse output))
   + length (warnings (parseTruffleHogOutput JSON_parse output)))%nat
  = length (filter (λ l, blankLine l = false) (outputLines output))
  ∧ (allWhite output = true ->
     parseTruffleHogOutput JSON_parse output = mkParse [] []).
Proof.
  split.
  - rewrite ParserFacts.parseTruffleHogOutput_lines. cbn [results warnings].
    apply omap_two_way. intros l. unfold lineResult, lineWarning.
    destruct (blankLine l); [done|].
    destruct (JSON_parse l ≫= resultOf); [left|right]; eauto.
  - intros Hw. unfold parseTruffleHogOutput. by rewrite (trim_allWhite output Hw).
Qed.

Lemma resultOf_shape (v r : JSValue) :
  resultOf v = Some r ->
  ∃ fields, r = JObject fields ∧ fields.*1 = findingKeys
    ∧ (assoc "Verified" fields = JBool false
       ∨ truthy (assoc "Verified" fields) = true)
    ∧ truthy (assoc "ExtraData" fields) = true.
Proof.
  unfold resultOf.
  destruct (getProp v "SourceMetadata") as [x1|]; [|done].
  destruct (getProp v "SourceID") as [x2|]; [|done].
  destruct (getProp v "SourceType") as [x3|]; [|done].
  destruct (getProp v "SourceName") as [x4|]; [|done].
  destruct (getProp v "DetectorType") as [x5|]; [|done].
  destruct (getProp v "DetectorName") as [x6|]; [|done].
  destruct (getProp v "DecoderName") as [x7|]; [|done].
  destruct (getProp v "Verified") as [x8|]; [|done].
  destruct (getProp v "Raw") as [x9|]; [|done].
  destruct (getProp v "RawV2") as [x10|]; [|done].
  destruct (getProp v "Redacted") as [x11|]; [|done].
  destruct (getProp v "ExtraData") as [x12|]; [|done].
  cbn [mbind option_bind]. intros [= <-].
  eexists. split; [reflexivity|]. split; [reflexivity|].
  change (assoc "Verified" _) with (or x8 (JBool false)).
  change (assoc "ExtraData" _) with (or x12 (JObject [])).
  unfold or. split.
  - destruct (truthy x8) eqn:Ht; [by right|by left].
  - by destruct (truthy x12) eqn:Ht.
Qed.

(** X7.  The shape of a finding.  Every finding the parser returns is an
    object with exactly the twelve properties of the object literal, in
    its order, whatever the decoded line held; [Verified] is never a falsy
    value other than [false], and [ExtraData] is never falsy (an absent one
    is the empty object). *)
Theorem findings_have_all_fields (output : string) (r : JSValue) :
  r ∈ results (parseTruffleHogOutput JSON_parse output) ->
  ∃ fields, r = JObject fields ∧ fields.*1 = findingKeys
    ∧ (assoc "Verified" fields = JBool false
       ∨ truthy (assoc "Verified" fields) = true)
    ∧ truthy (assoc "ExtraData" fields) = true.
Proof.
  rewrite ParserFacts.parseTruffleHogOutput_lines. cbn [results].
  intros Hin. apply list_elem_of_omap in Hin as (l & _ & Hl).
  unfold lineResult in Hl. destruct (blankLine l); [done|].
  destruct (JSON_parse l) as [v|]; [|done].
  by apply (resultOf_shape v).
Qed.
End WithDecoder.

Lemma findings_witness :
  JObject [("SourceMetadata", JUndefined); ("SourceID", JUndefined);
           ("SourceType", JUndefined); ("SourceName", JUndefined);
           ("DetectorType", JUndefined); ("DetectorName", JUndefined);
           ("DecoderName", JUndefined); ("Verified", JBool false);
           ("Raw", JUndefined); ("RawV2", JUndefined);
           ("Redacted", JUndefined); ("ExtraData", JObject [])]
    ∈ results (parseTruffleHogOutput Samples.sampleDecoder "{}")
  ∧ ∃ fields,
      JObject [("SourceMetadata", JUndefined); ("SourceID", JUndefined);
               ("SourceType", JUndefined); ("SourceName", JUndefined);
               ("DetectorType", JUndefined); ("DetectorName", JUndefined);
               ("DecoderName", JUndefined); ("Verified", JBool false);
               ("Raw", JUndefined); ("RawV2", JUndefined);
               ("Redacted", JUndefined); ("ExtraData", JObject [])]
      = JObject fields
      ∧ fields.*1 = findingKeys
      ∧ (assoc "Verified" fields = JBool false
         ∨ truthy (assoc "Verified" fields) = true)
      ∧ truthy (assoc "ExtraData" fields) = true.
Proof.
  assert (JObject [("SourceMetadata", JUndefined); ("SourceID", JUndefined);
                   ("SourceType", JUndefined); ("SourceName", JUndefined);
                   ("DetectorType", JUndefined); ("DetectorName", JUndefined);
                   ("DecoderName", JUndefined); ("Verified", JBool false);
                   ("Raw", JUndefined); ("RawV2", JUndefined);
                   ("Redacted", JUndefined); ("ExtraData", JObject [])]
            ∈ results (parseTruffleHogOutput Samples.sampleDecoder "{}")) as Hin.
  { vm_compute. apply list_elem_of_here. }
  split; [exact Hin|].
  apply (findings_have_all_fields Samples.sampleDecoder "{}" _ Hin).
Defined.

End FindingFacts.

(** ** Permits and the result of a fresh scan *)

Module PermitFacts.
Import JS Errors TruffleHog Cache ScanService RunnerTraces.

(** X8.  The statistics agree with the gate.  In every state that interleaved
    requests can reach, the [availableSlots] that [getScanStats] reports
    is the capacity less the number of requests in flight, it lies between
    0 and the capacity, and the next request is let in exactly when it is
    positive. *)
Theorem available_slots_track_requests (cap : Z) (sys : System) :
  0 <= cap ->
  gate_reachable cap sys ->
  availableSlots (service sys) = cap - heldPermits sys
  ∧ 0 <= availableSlots (service sys) <= cap
  ∧ ((scanRepository_enter (service sys)).2 = inr tt
     ↔ 0 < availableSlots (service sys)).
Proof.
  intros Hcap Hreach.
  destruct (GateFacts.gate_reachable_inv cap sys Hcap Hreach) as (Hmax & Hcur & Hnd & Hle).
  unfold availableSlots, scanRepository_enter. rewrite Hmax, Hcur.
  assert (0 <= heldPermits sys) by (unfold heldPermits; lia).
  split; [done|]. split; [lia|].
  destruct (Z.geb_spec (heldPermits sys) cap); simpl; split; try done; lia.
Qed.

Section WithDecoder.
Variable JSON_parse : string -> option JSValue.



Lemma verifiedCount_spec (vulnerabilities : list JSValue) :
  verifiedCount vulnerabilities
  = Z.of_nat (length (filter
      (λ f, match f with
            | JObject fields => truthy (assoc "Verified" fields)
            | _ => false
            end = true) vulnerabilities)).
Proof.
  unfold verifiedCount. do 2 f_equal.
  induction vulnerabilities as [|f l IH]; [done|].
  rewrite !filter_cons, IH.
  destruct f as [| |x|n|str|ms|items|fields]; try done.
Qed.

(** X10.  A request that is answered without the cache.  If the cache
    holds nothing and the request succeeds, then the scanner was available
    and its process resolved, and the answer is the object with the four
    properties [repoUrl], [provider], [vulnerabilities] (the findings
    parsed from the output) and [metadata], where [totalVulnerabilities]
    is the number of findings, [verifiedVulnerabilities] the number of
    findings whose [Verified] is truthy (so never more than the total),
    [scanDuration] the time between the clock readings at the start and at
    the end, and [scannedAt] the clock read once more, as a [Date]. *)
Theorem fresh_scan_result_counts
  (svc svc' : Service) (env : Environment) (repoUrl provider : string) (v : JSValue) :
  cached env = None ->
  scanRepository JSON_parse svc env repoUrl provider = (svc', inr v) ->
  ∃ out err,
    isAvailable env = true
    ∧ settlement env = Resolved out err
    ∧ let vulnerabilities := results (parseTruffleHogOutput JSON_parse out) in
      let verified :=
        Z.of_nat (length (filter
          (λ f, match f with
                | JObject fields => truthy (assoc "Verified" fields)
                | _ => false
                end = true) vulnerabilities)) in
      v = JObject [
            ("repoUrl", JString repoUrl);
            ("provider", JString provider);
            ("vulnerabilities", JArray vulnerabilities);
            ("metadata", JObject [
               ("totalVulnerabilities", JInt (Z.of_nat (length vulnerabilities)));
               ("verifiedVulnerabilities", JInt verified);
               ("scanDuration", JInt (endTime env - startTime env));
               ("scannedAt", JDate (stampTime env))])]
      ∧ 0 <= verified <= Z.of_nat (length vulnerabilities).
Proof.
  intros Hc Hrun. unfold scanRepository in Hrun. rewrite Hc in Hrun.
  unfold freshScan in Hrun.
  destruct (isAvailable env); cbn [negb] in Hrun; [|done].
  destruct (scanRepository_enter svc) as [svc1 [e1|[]]]; [done|].
  unfold executeTruffleHog in Hrun.
  destruct (settlement env) as [out err|e0].
  - unfold scanRepository_resume in Hrun. injection Hrun as _ <-.
    exists out, err. split; [done|]. split; [done|]. cbn zeta.
    rewrite <- verifiedCount_spec. split; [done|].
    unfold verifiedCount. split; [lia|]. apply inj_le. apply length_filter.
  - unfold scanRepository_resume in Hrun.
    by destruct (classify (ThrownError e0)) as [e1|];
      [destruct (instanceofScanError (ThrownError e1))|].
Qed.
End WithDecoder.

Lemma available_slots_witness :
  0 <= 3
  ∧ gate_reachable 3 (mkSystem (mkService 3 0) [])
  ∧ availableSlots (mkService 3 0) = 3 - heldPermits (mkSystem (mkService 3 0) [])
  ∧ 0 <= availableSlots (mkService 3 0) <= 3
  ∧ ((scanRepository_enter (mkService 3 0)).2 = inr tt
     ↔ 0 < availableSlots (mkService 3 0)).
Proof.
  split; [lia|]. split; [apply gate_init|].
  apply (available_slots_track_requests 3 (mkSystem (mkService 3 0) []));
    [lia|apply gate_init].
Defined.

Lemma fresh_scan_witness :
  cached (mkEnv None true (Resolved ("verified" +:+ String "010" "{}") "") 100 250 251) = None
  ∧ scanRepository verifiedDecoder idle
      (mkEnv None true (Resolved ("verified" +:+ String "010" "{}") "") 100 250 251)
      "https://github.com/org/repo" "github"
    = (idle,
       inr (toJS (mkScanResult "https://github.com/org/repo" "github"
                    (results (parseTruffleHogOutput verifiedDecoder
                                ("verified" +:+ String "010" "{}")))
                    (mkMetadata 2 1 150 251))))
  ∧ ∃ out err,
      isAvailable (mkEnv None true (Resolved ("verified" +:+ String "010" "{}") "") 100 250 251)
      = true
      ∧ settlement (mkEnv None true (Resolved ("verified" +:+ String "010" "{}") "") 100 250 251)
        = Resolved out err
      ∧ toJS (mkScanResult "https://github.com/org/repo" "github"
                (results (parseTruffleHogOutput verifiedDecoder
                            ("verified" +:+ String "010" "{}")))
                (mkMetadata 2 1 150 251))
        = JObject [
            ("repoUrl", JString "https://github.com/org/repo");
            ("provider", JString "github");
            ("vulnerabilities", JArray (results (parseTruffleHogOutput verifiedDecoder out)));
            ("metadata", JObject [
               ("totalVulnerabilities",
                  JInt (Z.of_nat (length (results (parseTruffleHogOutput verifiedDecoder out)))));
               ("verifiedVulnerabilities",
                  JInt (Z.of_nat (length (filter
                     (λ f, match f with
                           | JObject fields => truthy (assoc "Verified" fields)
                           | _ => false
                           end = true)
                     (results (parseTruffleHogOutput verifiedDecoder out))))));
               ("scanDuration", JInt (250 - 100));
               ("scannedAt", JDate 251)])]
      ∧ 0 <= Z.of_nat (length (filter
                (λ f, match f with
                      | JObject fields => truthy (assoc "Verified" fields)
                      | _ => false
                      end = true)
                (results (parseTruffleHogOutput verifiedDecoder out))))
        <= Z.of_nat (length (results (parseTruffleHogOutput verifiedDecoder out))).
Proof.
  split; [reflexivity|]. split; [reflexivity|].
  apply (fresh_scan_result_counts verifiedDecoder idle idle
           (mkEnv None true (Resolved ("verified" +:+ String "010" "{}") "") 100 250 251)
           "https://github.com/org/repo" "github"); reflexivity.
Defined.

(** A hit on an object that another writer left in the cache. *)
Example cache_hit_without_metadata :
  scanRepository Samples.sampleDecoder idle
    (mkEnv (Some (JObject [("vulnerabilities", JArray [])])) true (Resolved "" "") 0 0 0)
    "https://github.com/org/repo" "github"
  = (idle, inl (ScanError
       "Scan failed: Cannot read properties of undefined (reading 'scannedAt')")).
Proof. reflexivity. Qed.

End PermitFacts.

(** ** The other cache operations *)

Module CacheOpsFacts.
Import JS JSONModel Cache CacheOps.

Section WithDigest.
Variable md5hex : string -> string.

Lemma getScanResult_live (redis : Redis) (now : Z) (repoUrl provider : string) :
  up redis = true ->
  getScanResult md5hex redis now repoUrl provider
  = liveEntry redis now (generateCacheKey md5hex repoUrl provider)
      ≫= (λ e, readBack (value e)).
Proof.
  intros Hup. unfold getScanResult, redis_get, liveEntry. rewrite Hup.
  destruct (entries redis !! _) as [e|]; [|done].
  destruct (now <? expiresAt e); [|done]. cbn [mbind option_bind].
  by destruct (value e).
Qed.

Lemma liveEntry_later (redis : Redis) (now later : Z) (key : string) :
  now <= later -> liveEntry redis now key = None -> liveEntry redis later key = None.
Proof.
  unfold liveEntry. intros Hle. destruct (entries redis !! key) as [e|]; [|done].
  destruct (Z.ltb_spec now (expiresAt e)); [done|].
  destruct (Z.ltb_spec later (expiresAt e)); [lia|done].
Qed.

Lemma filter_all {A} (P : A -> Prop) `{!∀ x, Decision (P x)} (l : list A) :
  (∀ x, x ∈ l -> P x) -> filter P l = l.
Proof.
  induction l as [|x l IH]; intros Hall; [done|].
  rewrite filter_cons_True by (apply Hall, list_elem_of_here).
  f_equal. apply IH. intros y Hy. by apply Hall, list_elem_of_further.
Qed.

Lemma lookup_foldr_delete (m : gmap string Entry) (keys : list string) (k : string) :
  foldr delete m keys !! k = if bool_decide (k ∈ keys) then None else m !! k.
Proof.
  induction keys as [|x keys IH]; [done|]. cbn [foldr].
  destruct (decide (x = k)) as [->|Hne].
  - rewrite lookup_delete_eq. rewrite bool_decide_eq_true_2; [done|]. apply elem_of_cons; by left.
  - rewrite lookup_delete_ne by done. rewrite IH.
    case_bool_decide as H1; case_bool_decide as H2; try done.
    + exfalso. apply H2. apply elem_of_cons; by right.
    + exfalso. apply elem_of_cons in H2 as [->|H2]; done.
Qed.

Lemma size_foldr_delete (keys : list string) : ∀ (m : gmap string Entry),
  NoDup keys -> (∀ k, k ∈ keys -> is_Some (m !! k)) ->
  (size (foldr delete m keys) + length keys)%nat = size m.
Proof.
  induction keys as [|x keys IH]; intros m Hnd Hin; [cbn; lia|].
  apply NoDup_cons in Hnd as [Hx Hnd]. cbn [foldr length].
  assert (is_Some (foldr delete m keys !! x)) as Hsome.
  { rewrite lookup_foldr_delete. rewrite bool_decide_eq_false_2 by done.
    apply Hin. apply elem_of_cons; by left. }
  rewrite map_size_delete_Some by done.
  specialize (IH m Hnd (λ k Hk, Hin k (list_elem_of_further _ _ _ Hk))).
  assert (size (foldr delete m keys) ≠ 0%nat).
  { by apply (map_size_ne_0_lookup_2 _ x). }
  lia.
Qed.

(** The keys [KEYS] returns are distinct, live and matching; a live
    matching key is among them. *)
Lemma redis_keys_spec (redis : Redis) (now : Z) (pattern : string) (keys : list string) :
  redis_keys redis now pattern = Some keys ->
  NoDup keys
  ∧ ∀ k, k ∈ keys ↔ is_Some (liveEntry redis now k) ∧ globMatch pattern k = true.
Proof.
  unfold redis_keys. destruct (up redis); [|done]. intros [= <-]. split.
  - apply NoDup_filter, NoDup_fst_map_to_list.
  - intros k. rewrite list_elem_of_filter. split; [tauto|].
    intros [Hlive Hm]. split; [done|].
    unfold liveEntry in Hlive. destruct (entries redis !! k) as [e|] eqn:He.
    + apply list_elem_of_fmap. exists (k, e). split; [done|].
      by apply elem_of_map_to_list.
    + by destruct Hlive.
Qed.

(** What [KEYS] followed by [DEL] leaves: no live key that matches, every
    other key as it was, and as many entries fewer as the count says. *)
Lemma deleteMatching_spec (redis : Redis) (now : Z) (pattern : string) :
  up redis = true ->
  let '(n, redis') := deleteMatching redis now pattern in
  up redis' = true
  ∧ (∀ k, globMatch pattern k = true -> liveEntry redis' now k = None)
  ∧ (∀ k, globMatch pattern k = false -> entries redis' !! k = entries redis !! k)
  ∧ Z.of_nat (size (entries redis')) = Z.of_nat (size (entries redis)) - n.
Proof.
  intros Hup. unfold deleteMatching.
  destruct (redis_keys redis now pattern) as [keys|] eqn:Hkeys;
    [|unfold redis_keys in Hkeys; by rewrite Hup in Hkeys].
  destruct (redis_keys_spec redis now pattern keys Hkeys) as [Hnd Hin].
  destruct (Nat.eqb_spec (length keys) 0) as [Hlen|Hlen].
  - destruct keys; [|done]. split; [done|]. split; [|split; [done|lia]].
    intros k Hm. destruct (liveEntry redis now k) eqn:Hl; [|done].
    exfalso. eapply not_elem_of_nil. apply Hin. eauto.
  - unfold redis_del. rewrite Hup. cbn [up entries].
    split; [done|]. split; [|split].
    + intros k Hm. unfold liveEntry. cbn [entries].
      rewrite lookup_foldr_delete. case_bool_decide as Hk; [done|].
      destruct (liveEntry redis now k) eqn:Hl.
      * exfalso. apply Hk, Hin. eauto.
      * exact Hl.
    + intros k Hm. rewrite lookup_foldr_delete.
      rewrite bool_decide_eq_false_2; [done|].
      intros Hk. apply Hin in Hk as [_ Hk]. congruence.
    + assert (filter (λ k, is_Some (liveEntry redis now k)) keys = keys) as ->.
      { apply filter_all. intros k Hk. by apply Hin. }
      pose proof (size_foldr_delete keys (entries redis) Hnd) as Hsize.
      rewrite <- Hsize; [lia|].
      intros k Hk. apply Hin in Hk as [Hl _].
      unfold liveEntry in Hl. destruct (entries redis !! k); [eauto|by destruct Hl].
Qed.

Lemma globMatch_refl (p : string) : globMatch p p = true.
Proof.
  induction p as [|c p IH]; [done|]. cbn [globMatch].
  destruct (decide (c = "*"%char)).
  - destruct p; rewrite IH; by rewrite ?orb_true_r.
  - by rewrite bool_decide_eq_true_2, IH.
Qed.

(** A star swallows any prefix. *)
Lemma globMatch_star (p a s : string) :
  globMatch p s = true -> globMatch (String "*" p) (a +:+ s) = true.
Proof.
  intros H. cbn [globMatch]. rewrite decide_True by done.
  induction a as [|c a IH].
  - rewrite CommandFacts.app_empty_l. destruct s; by rewrite H.
  - rewrite CommandFacts.app_cons. rewrite IH. apply orb_true_r.
Qed.

Lemma globMatch_any (s : string) : globMatch "*" s = true.
Proof. rewrite <- (CommandFacts.app_empty_r s). by apply globMatch_star. Qed.

(** Ordinary characters match themselves only. *)
Lemma globMatch_prefix (l p s : string) :
  plainText l = true -> globMatch (l +:+ p) (l +:+ s) = globMatch p s.
Proof.
  induction l as [|c l IH]; [done|]. cbn [plainText]. intros H.
  apply andb_true_iff in H as [Hc Hl].
  rewrite !CommandFacts.app_cons. cbn [globMatch].
  rewrite decide_False by (intros ->; done).
  rewrite bool_decide_eq_true_2 by done. by apply IH.
Qed.

Lemma globMatch_plain_starts (l s : string) :
  plainText l = true -> globMatch (l +:+ "*") s = startsWith l s.
Proof.
  revert s. induction l as [|c l IH]; intros s H.
  - rewrite CommandFacts.app_empty_l. rewrite globMatch_any. by destruct s.
  - cbn [plainText] in H. apply andb_true_iff in H as [Hc Hl].
    rewrite CommandFacts.app_cons. cbn [globMatch startsWith].
    rewrite decide_False by (intros ->; done).
    destruct s as [|d s]; [done|].
    destruct (decide (c = d)) as [->|Hne].
    + rewrite bool_decide_eq_true_2 by done. by apply IH.
    + by rewrite bool_decide_eq_false_2.
Qed.

Lemma globMatch_plain_inv (l s : string) :
  plainText l = true -> globMatch l s = true -> s = l.
Proof.
  revert s. induction l as [|c l IH]; intros s H Hm.
  - by destruct s.
  - cbn [plainText] in H. apply andb_true_iff in H as [Hc Hl].
    cbn [globMatch] in Hm. rewrite decide_False in Hm by (intros ->; done).
    destruct s as [|d s]; [done|].
    apply andb_true_iff in Hm as [Hd Hm].
    apply bool_decide_eq_true_1 in Hd as <-. f_equal. by apply IH.
Qed.

Lemma globMatch_star_inv (p s : string) :
  globMatch (String "*" p) s = true -> ∃ a b, s = a +:+ b ∧ globMatch p b = true.
Proof.
  cbn [globMatch]. rewrite decide_True by done.
  induction s as [|c s IH]; intros H.
  - rewrite orb_false_r in H. by exists "", "".
  - apply orb_true_iff in H as [H|H].
    + by exists "", (String c s).
    + destruct (IH H) as (a & b & -> & Hb). by exists (String c a), b.
Qed.

Lemma pattern_matches_key (repoUrl provider : string) :
  globMatch ("scan:*:" +:+ md5hex repoUrl)
            (generateCacheKey md5hex repoUrl provider) = true.
Proof.
  unfold generateCacheKey.
  change ("scan:*:" +:+ md5hex repoUrl)
    with ("scan:" +:+ String "*" (":" +:+ md5hex repoUrl)).
  rewrite globMatch_prefix by done.
  apply globMatch_star, globMatch_refl.
Qed.

Lemma pattern_rejects_other_digest (repoUrl repoUrl' provider' : string) :
  plainText (md5hex repoUrl) = true ->
  String.length (md5hex repoUrl') = String.length (md5hex repoUrl) ->
  md5hex repoUrl' ≠ md5hex repoUrl ->
  globMatch ("scan:*:" +:+ md5hex repoUrl)
            (generateCacheKey md5hex repoUrl' provider') = false.
Proof.
  intros Hplain Hlen Hne. unfold generateCacheKey.
  change ("scan:*:" +:+ md5hex repoUrl)
    with ("scan:" +:+ String "*" (":" +:+ md5hex repoUrl)).
  rewrite globMatch_prefix by done.
  destruct (globMatch _ _) eqn:Hm; [|done]. exfalso.
  apply globMatch_star_inv in Hm as (a & b & Heq & Hb).
  change (":" +:+ md5hex repoUrl) with (String ":"%char (md5hex repoUrl)) in Hb.
  apply globMatch_plain_inv in Hb; [|cbn [plainText]; by rewrite Hplain].
  subst b.
  change (String ":"%char (md5hex repoUrl)) with (":" +:+ md5hex repoUrl) in Heq.
  change (provider' +:+ ":" +:+ md5hex repoUrl' = a +:+ ":" +:+ md5hex repoUrl) in Heq.
  rewrite <- !CommandFacts.app_assoc in Heq.
  apply TextFacts.app_tail_eq in Heq; [done|done].
Qed.

(** X11.  Invalidation by repository.  While the store answers (and the digest
    is plain text, as a hexadecimal digest is), after
    [invalidateRepository repoUrl] no provider has a cached result for
    that URL any more, now or later; the number returned is the number of
    entries that left the store; and the results of every URL with another
    digest (of the same length) read as before. *)
Theorem invalidate_removes_every_provider (redis : Redis) (now : Z) (repoUrl : string) :
  up redis = true ->
  plainText (md5hex repoUrl) = true ->
  (∀ provider later, now <= later ->
     getScanResult md5hex (invalidateRepository md5hex redis now repoUrl).2
                   later repoUrl provider = None)
  ∧ Z.of_nat (size (entries (invalidateRepository md5hex redis now repoUrl).2))
    = Z.of_nat (size (entries redis)) - (invalidateRepository md5hex redis now repoUrl).1
  ∧ (∀ repoUrl' provider' t,
       String.length (md5hex repoUrl') = String.length (md5hex repoUrl) ->
       md5hex repoUrl' ≠ md5hex repoUrl ->
       getScanResult md5hex (invalidateRepository md5hex redis now repoUrl).2
                     t repoUrl' provider'
       = getScanResult md5hex redis t repoUrl' provider').
Proof.
  intros Hup Hplain. unfold invalidateRepository.
  pose proof (deleteMatching_spec redis now ("scan:*:" +:+ md5hex repoUrl) Hup) as Hspec.
  destruct (deleteMatching redis now ("scan:*:" +:+ md5hex repoUrl)) as [n redis'].
  destruct Hspec as (Hup' & Hgone & Hkept & Hsize). cbn [fst snd].
  split; [|split; [done|]].
  - intros provider later Hle. rewrite getScanResult_live by done.
    rewrite (liveEntry_later redis' now later _ Hle); [done|].
    apply Hgone, pattern_matches_key.
  - intros repoUrl' provider' t Hlen Hne.
    rewrite !getScanResult_live by done. unfold liveEntry.
    rewrite Hkept; [done|]. by apply pattern_rejects_other_digest.
Qed.

(** X12.  Clearing the scan cache.  While the store answers, after
    [clearScanCache] no scan result is cached for any target; keys that do
    not start with [scan:] (the rate limiter's, for one) are untouched; and
    the number returned is the number of entries that left the store. *)
Theorem clear_removes_scan_keys_only (redis : Redis) (now : Z) :
  up redis = true ->
  (∀ repoUrl provider later, now <= later ->
     getScanResult md5hex (clearScanCache redis now).2 later repoUrl provider = None)
  ∧ (∀ key, startsWith "scan:" key = false ->
       entries (clearScanCache redis now).2 !! key = entries redis !! key)
  ∧ Z.of_nat (size (entries (clearScanCache redis now).2))
    = Z.of_nat (size (entries redis)) - (clearScanCache redis now).1.
Proof.
  intros Hup. unfold clearScanCache.
  pose proof (deleteMatching_spec redis now "scan:*" Hup) as Hspec.
  destruct (deleteMatching redis now "scan:*") as [n redis'].
  destruct Hspec as (Hup' & Hgone & Hkept & Hsize). cbn [fst snd].
  assert (∀ k, globMatch "scan:*" k = startsWith "scan:" k) as Hglob.
  { intros k. by apply (globMatch_plain_starts "scan:"). }
  split; [|split; [|done]].
  - intros repoUrl provider later Hle. rewrite getScanResult_live by done.
    rewrite (liveEntry_later redis' now later _ Hle); [done|].
    apply Hgone. rewrite Hglob. unfold generateCacheKey.
    apply (TextFacts.startsWith_refl_app "scan:").
  - intros key Hk. apply Hkept. by rewrite Hglob.
Qed.

(** X13.  Deleting one result.  While the store answers,
    [deleteScanResult] returns what [hasScanResult] would have returned:
    [true] exactly when the key of the target exists; in particular it
    returns [true] whenever [getScanResult] returns a result.  After it the
    target has no cached result and no key at any time, and every target
    with another key reads as before. *)
Theorem delete_removes_one_entry (redis : Redis) (now : Z) (repoUrl provider : string) :
  up redis = true ->
  (deleteScanResult md5hex redis now repoUrl provider).1
  = hasScanResult md5hex redis now repoUrl provider
  ∧ (is_Some (getScanResult md5hex redis now repoUrl provider) ->
     (deleteScanResult md5hex redis now repoUrl provider).1 = true)
  ∧ (∀ later,
       getScanResult md5hex (deleteScanResult md5hex redis now repoUrl provider).2
         later repoUrl provider = None
       ∧ hasScanResult md5hex (deleteScanResult md5hex redis now repoUrl provider).2
           later repoUrl provider = false)
  ∧ (∀ repoUrl' provider' t,
       generateCacheKey md5hex repoUrl' provider' ≠ generateCacheKey md5hex repoUrl provider ->
       getScanResult md5hex (deleteScanResult md5hex redis now repoUrl provider).2
                     t repoUrl' provider'
       = getScanResult md5hex redis t repoUrl' provider').
Proof.
  intros Hup.
  unfold deleteScanResult, hasScanResult, redis_del, redis_exists.
  rewrite Hup. cbn [fst snd foldr].
  split; [|split; [|split]].
  - destruct (liveEntry redis now (generateCacheKey md5hex repoUrl provider)) as [e|] eqn:Hl.
    + rewrite filter_cons_True by (rewrite Hl; eauto). done.
    + rewrite filter_cons_False by (rewrite Hl; by intros [? ?]). done.
  - rewrite getScanResult_live by done.
    destruct (liveEntry redis now (generateCacheKey md5hex repoUrl provider)) as [e|] eqn:Hl.
    + rewrite filter_cons_True by (rewrite Hl; eauto). done.
    + by intros [? ?].
  - intros later. rewrite getScanResult_live by done. unfold liveEntry. cbn [entries up].
    by rewrite lookup_delete_eq.
  - intros repoUrl' provider' t Hne. rewrite !getScanResult_live by done.
    unfold liveEntry. cbn [entries]. by rewrite lookup_delete_ne.
Qed.

(** X14.  The three ways of asking, compared.  While the store answers:
    [hasScanResult] is [true] exactly when [getScanResultTTL] is not [-2],
    and then the time to live is not negative; [getScanResult] returns a
    value exactly when the key exists, holds a JSON text, and the value of
    that text has a [vulnerabilities] that is neither [null] nor
    [undefined], and the value it returns is the value of the text.  So a
    result that is returned has a key and a time to live, but a key that
    exists need not give a result. *)
Theorem cache_reads_compared (redis : Redis) (now : Z) (repoUrl provider : string) :
  up redis = true ->
  (hasScanResult md5hex redis now repoUrl provider = true
   ↔ getScanResultTTL md5hex redis now repoUrl provider ≠ -2)
  ∧ (hasScanResult md5hex redis now repoUrl provider = true ->
     0 <= getScanResultTTL md5hex redis now repoUrl provider)
  ∧ (∀ v, getScanResult md5hex redis now repoUrl provider = Some v
          ↔ ∃ e t, liveEntry redis now (generateCacheKey md5hex repoUrl provider) = Some e
                   ∧ value e = Text t ∧ JSON_parse t = v
                   ∧ lengthReadable v = true)
  ∧ (is_Some (getScanResult md5hex redis now repoUrl provider) ->
     hasScanResult md5hex redis now repoUrl provider = true).
Proof.
  intros Hup. rewrite getScanResult_live by done.
  unfold hasScanResult, getScanResultTTL, redis_exists, redis_ttl. rewrite Hup.
  destruct (liveEntry redis now (generateCacheKey md5hex repoUrl provider)) as [e|] eqn:Hl;
    cbn [mbind option_bind].
  - assert (now < expiresAt e) as Hlt.
    { unfold liveEntry in Hl. destruct (entries redis !! _) as [e'|]; [|done].
      destruct (Z.ltb_spec now (expiresAt e')); [|done]. by injection Hl as <-. }
    assert (0 <= (expiresAt e - now + 500) / 1000) by (apply Z.div_pos; lia).
    split; [split; [lia|done]|]. split; [done|]. split; [|done].
    intros v. unfold readBack. split.
    + destruct (value e) as [t|] eqn:Hv; [|done].
      destruct (lengthReadable (JSON_parse t)) eqn:Hr; [|done].
      intros [= <-]. by exists e, t.
    + intros (e' & t & [= <-] & Hv & <- & Hr). by rewrite Hv, Hr.
  - split; [split; [done|lia]|]. split; [done|]. split; [|by intros [? ?]].
    intros v. split; [done|]. by intros (e & t & ? & _).
Qed.

(** X15.  No cache operation passes a failure of the store on.  When the store
    does not answer, reading gives [null], writing and deleting give
    [false], the existence test gives [false], the time to live is [-2],
    both invalidations give 0 and the health check [false]; the caller
    never sees an exception. *)
Theorem cache_absorbs_store_failure
  (defaultTTL : Z) (redis : Redis) (now : Z) (repoUrl provider : string)
  (result : ScanResult) (ttl : option Z) :
  up redis = false ->
  getScanResult md5hex redis now repoUrl provider = None
  ∧ setScanResult md5hex defaultTTL redis now repoUrl provider result ttl = (false, redis)
  ∧ deleteScanResult md5hex redis now repoUrl provider = (false, redis)
  ∧ hasScanResult md5hex redis now repoUrl provider = false
  ∧ getScanResultTTL md5hex redis now repoUrl provider = -2
  ∧ invalidateRepository md5hex redis now repoUrl = (0, redis)
  ∧ clearScanCache redis now = (0, redis)
  ∧ healthCheck redis = false.
Proof.
  intros Hup.
  unfold getScanResult, setScanResult, deleteScanResult, hasScanResult, getScanResultTTL,
    invalidateRepository, clearScanCache, deleteMatching, healthCheck,
    redis_get, redis_setex, redis_del, redis_exists, redis_ttl, redis_keys.
  rewrite Hup. cbn [andb].
  repeat split; try done.
Qed.

End WithDigest.

Lemma invalidate_witness :
  up sampleStore = true
  ∧ plainText (Samples.sampleDigest "https://github.com/org/repo") = true
  ∧ (invalidateRepository Samples.sampleDigest sampleStore 2000
       "https://github.com/org/repo").1 = 1
  ∧ ∀ provider later, 2000 <= later ->
      getScanResult Samples.sampleDigest
        (invalidateRepository Samples.sampleDigest sampleStore 2000
           "https://github.com/org/repo").2
        later "https://github.com/org/repo" provider = None.
Proof.
  split; [reflexivity|]. split; [reflexivity|]. split; [reflexivity|].
  apply (invalidate_removes_every_provider Samples.sampleDigest sampleStore 2000
           "https://github.com/org/repo"); reflexivity.
Defined.

Lemma clear_witness :
  up sampleStore = true
  ∧ (clearScanCache sampleStore 2000).1 = 1
  ∧ ∀ repoUrl provider later, 2000 <= later ->
      getScanResult Samples.sampleDigest (clearScanCache sampleStore 2000).2
        later repoUrl provider = None.
Proof.
  split; [reflexivity|]. split; [reflexivity|].
  apply (clear_removes_scan_keys_only Samples.sampleDigest sampleStore 2000); reflexivity.
Defined.

Lemma delete_witness :
  up sampleStore = true
  ∧ (deleteScanResult Samples.sampleDigest sampleStore 2000
       "https://github.com/org/repo" "github").1
    = hasScanResult Samples.sampleDigest sampleStore 2000
        "https://github.com/org/repo" "github"
  ∧ (deleteScanResult Samples.sampleDigest sampleStore 2000
       "https://github.com/org/repo" "github").1 = true.
Proof.
  split; [reflexivity|].
  destruct (delete_removes_one_entry Samples.sampleDigest sampleStore 2000
              "https://github.com/org/repo" "github" eq_refl) as (Hsame & Htrue & _).
  split; [exact Hsame|]. apply Htrue. vm_compute. by eexists.
Defined.

Lemma cache_reads_witness :
  up sampleStore = true
  ∧ (hasScanResult Samples.sampleDigest sampleStore 2000
       "https://github.com/org/repo" "github" = true
     ↔ getScanResultTTL Samples.sampleDigest sampleStore 2000
         "https://github.com/org/repo" "github" ≠ -2)
  ∧ getScanResultTTL Samples.sampleDigest sampleStore 2000
      "https://github.com/org/repo" "github" = 59.
Proof.
  split; [reflexivity|].
  split; [|reflexivity].
  apply (cache_reads_compared Samples.sampleDigest sampleStore 2000
           "https://github.com/org/repo" "github"); reflexivity.
Defined.

(** A key that exists and gives no result: the entry has a time to live,
    the existence test and the deletion say [true], and reading it gives
    [null]. *)
Example foreign_entry_reads_as_null :
  hasScanResult Samples.sampleDigest foreignStore 2000
    "https://github.com/org/repo" "github" = true
  ∧ getScanResultTTL Samples.sampleDigest foreignStore 2000
      "https://github.com/org/repo" "github" = 59
  ∧ (deleteScanResult Samples.sampleDigest foreignStore 2000
       "https://github.com/org/repo" "github").1 = true
  ∧ getScanResult Samples.sampleDigest foreignStore 2000
      "https://github.com/org/repo" "github" = None.
Proof. repeat split; reflexivity. Qed.

Lemma store_failure_witness :
  up (mkRedis false ∅) = false
  ∧ getScanResult Samples.sampleDigest (mkRedis false ∅) 2000
      "https://github.com/org/repo" "github" = None
  ∧ setScanResult Samples.sampleDigest 86400 (mkRedis false ∅) 2000
      "https://github.com/org/repo" "github" Samples.sampleResult None
    = (false, mkRedis false ∅).
Proof.
  split; [reflexivity|].
  destruct (cache_absorbs_store_failure Samples.sampleDigest 86400 (mkRedis false ∅) 2000
              "https://github.com/org/repo" "github" Samples.sampleResult None eq_refl)
    as (Hget & Hset & _).
  split; [exact Hget|exact Hset].
Defined.

End CacheOpsFacts.

(** ** Runs of rate-limited calls *)

Module LimiterRunFacts.
Import JS JSONModel RateLimit RateLimitRuns.

Lemma app_inv_head_string (p a b : string) : p +:+ a = p +:+ b -> a = b.
Proof.
  induction p as [|c p IH]; [by rewrite !CommandFacts.app_empty_l|].
  rewrite !CommandFacts.app_cons. intros [= H]. by apply IH.
Qed.

Lemma ceilSeconds_covers (w : Z) : w <= ceilSeconds w * 1000 < w + 1000.
Proof.
  unfold ceilSeconds.
  pose proof (Z.div_mod (- w) 1000 ltac:(lia)).
  pose proof (Z.mod_pos_bound (- w) 1000 ltac:(lia)). lia.
Qed.

Lemma live_insert (store : gmap string ZKey) (now : Z) (key : string) (z : ZKey) :
  live (<[key := z]> store) now key
  = match expireAt z with
    | Some t => if now <? t then Some z else None
    | None => Some z
    end.
Proof. unfold live. by rewrite lookup_insert_eq. Qed.

Lemma live_Some_inv (store : gmap string ZKey) (now : Z) (key : string) (z : ZKey) :
  live store now key = Some z ->
  store !! key = Some z ∧ live (<[key := z]> store) now key = Some z.
Proof.
  unfold live. rewrite lookup_insert_eq.
  destruct (store !! key) as [z'|]; [|done].
  destruct (expireAt z') as [t|] eqn:He.
  - destruct (now <? t) eqn:Hlt; [|done]. intros [= <-]. by rewrite He, Hlt.
  - intros [= <-]. by rewrite He.
Qed.

Section OneCall.
Variable opts : RateLimitOptions.
Variable req : Request.
Hypothesis window_positive : 0 < windowMs opts.

Local Abbreviation key := (rateKey opts req).
Local Abbreviation secs := (ceilSeconds (windowMs opts)).

(** What the transaction leaves and answers. *)
Lemma transaction_spec (store : gmap string ZKey) :
  let before := survivors opts req (liveMembers store (now req) key) in
  transaction opts req store
  = (if decide (before = ∅) then delete key store
     else <[key := mkZKey before (Some (now req + secs * 1000))]> store,
     Z.of_nat (size before)).
Proof.
  pose proof (ceilSeconds_covers (windowMs opts)) as Hsecs.
  unfold transaction, liveMembers, zremrangebyscore.
  destruct (live store (now req) key) as [z|] eqn:Hlive.
  - fold (survivors opts req (members z)).
    destruct (decide (survivors opts req (members z) = ∅)) as [He|Hne].
    + unfold zcard, expire, live. rewrite lookup_delete_eq. by rewrite He.
    + unfold zcard, expire. rewrite live_insert. cbn [expireAt members].
      apply live_Some_inv in Hlive as [_ Hlive]. rewrite live_insert in Hlive.
      assert (match expireAt z with
              | Some t => if now req <? t
                          then Some (mkZKey (survivors opts req (members z)) (expireAt z))
                          else None
              | None => Some (mkZKey (survivors opts req (members z)) (expireAt z))
              end = Some (mkZKey (survivors opts req (members z)) (expireAt z))) as ->.
      { destruct (expireAt z) as [t|]; [|done]. by destruct (now req <? t). }
      cbn [members]. destruct (Z.ltb_spec 0 secs); [|lia].
      by rewrite insert_insert_eq.
  - unfold survivors. rewrite map_filter_empty. rewrite decide_True by done.
    unfold zcard, expire, live. by rewrite lookup_delete_eq.
Qed.

(** The whole call, for every answer of the store. *)
Lemma middleware_spec (b : StoreBehaviour) (store : gmap string ZKey) :
  let before := survivors opts req (liveMembers store (now req) key) in
  let count := Z.of_nat (size before) in
  let pruned := if decide (before = ∅) then delete key store
                else <[key := mkZKey before (Some (now req + secs * 1000))]> store in
  middleware opts b req store
  = match execAnswer b with
    | ExecResults =>
      if count >=? maxRequests opts then (pruned, TooManyRequests secs)
      else if zaddRejects b then (pruned, Next None)
      else (<[key := mkZKey (<[memberOf req := now req]> before)
                            (if decide (before = ∅) then None
                             else Some (now req + secs * 1000))]> store,
            proceed opts req count)
    | _ => (store, Next None)
    end.
Proof.
  intros before count pruned.
  pose proof (ceilSeconds_covers (windowMs opts)) as Hsecs.
  unfold middleware, countPhase. destruct (execAnswer b); [|done|done].
  rewrite transaction_spec. fold before count pruned.
  unfold recordPhase. destruct (count >=? maxRequests opts); [done|].
  destruct (zaddRejects b); [done|].
  assert (zadd (now req) key (now req) (memberOf req) pruned
          = <[key := mkZKey (<[memberOf req := now req]> before)
                            (if decide (before = ∅) then None
                             else Some (now req + secs * 1000))]> store) as ->.
  { unfold zadd, pruned. destruct (decide (before = ∅)) as [He|Hne].
    - unfold live. rewrite lookup_delete_eq. rewrite He.
      by rewrite insert_delete_eq, insert_empty.
    - rewrite live_insert. cbn [expireAt].
      destruct (Z.ltb_spec (now req) (now req + secs * 1000)); [|lia].
      cbn [members expireAt]. by rewrite insert_insert_eq. }
  unfold proceed. by destruct (headersFor opts req count).
Qed.

(** X16.  One call against a store that answers, for any window longer
    than zero and any state of the store.  Let [before] be the time stamps
    of the client that are still alive and not older than the window.  The
    call is refused with 429 exactly when [before] holds [maxRequests]
    entries or more.  Otherwise the request proceeds: with the limit, the
    remaining number and the reset time as headers when the reset time
    [now + windowMs] is a time a [Date] can hold, and without headers when
    it is not (the conversion throws after the time stamp was recorded,
    and the [catch] clause lets the request pass).  Afterwards the
    client's set is [before], with the time stamp of this call added when
    the call was not refused; the sets of all other keys are untouched. *)
Theorem healthy_call_is_a_window_step (store : gmap string ZKey) :
  let before := survivors opts req (liveMembers store (now req) key) in
  let count := Z.of_nat (size before) in
  (middleware opts healthy req store).2
  = (if count >=? maxRequests opts then TooManyRequests secs
     else if Z.abs (now req + windowMs opts) <=? 8640000000000000 then
       Next (Some (mkHeaders (showZ (maxRequests opts))
                             (showZ (maxRequests opts - count - 1))
                             (toISOString (now req + windowMs opts))))
     else Next None)
  ∧ liveMembers (middleware opts healthy req store).1 (now req) key
    = (if count >=? maxRequests opts then before
       else <[memberOf req := now req]> before)
  ∧ ∀ k, k ≠ key -> (middleware opts healthy req store).1 !! k = store !! k.
Proof.
  intros before count.
  pose proof (ceilSeconds_covers (windowMs opts)) as Hsecs.
  rewrite (middleware_spec healthy store). cbn [healthy execAnswer zaddRejects].
  fold before count.
  destruct (count >=? maxRequests opts); cbn [fst snd].
  - split; [done|]. split.
    + unfold liveMembers. destruct (decide (before = ∅)) as [He|Hne].
      * unfold live. by rewrite lookup_delete_eq.
      * rewrite live_insert. cbn [expireAt].
        by destruct (Z.ltb_spec (now req) (now req + secs * 1000)); [|lia].
    + intros k Hk. destruct (decide (before = ∅)).
      * by rewrite lookup_delete_ne.
      * by rewrite lookup_insert_ne.
  - split.
    { unfold proceed, headersFor, validTime.
      by destruct (Z.abs (now req + windowMs opts) <=? 8640000000000000). }
    split.
    + unfold liveMembers. rewrite live_insert. cbn [expireAt].
      destruct (decide (before = ∅)); [done|].
      by destruct (Z.ltb_spec (now req) (now req + secs * 1000)); [|lia].
    + intros k Hk. by rewrite lookup_insert_ne.
Qed.

Lemma middleware_withinLimit (b : StoreBehaviour) (store : gmap string ZKey) :
  withinLimit opts store -> withinLimit opts (middleware opts b req store).1.
Proof.
  intros Hlim.
  rewrite (middleware_spec b store).
  set (before := survivors opts req (liveMembers store (now req) key)).
  assert (before ≠ ∅ -> Z.of_nat (size before) <= maxRequests opts) as Hbefore.
  { intros Hne. unfold before, liveMembers in *.
    destruct (live store (now req) key) as [z|] eqn:Hl.
    - apply live_Some_inv in Hl as [Hz _]. specialize (Hlim _ _ Hz).
      pose proof (map_subseteq_size _ _
        (map_filter_subseteq (λ p : string * Z, ¬ (0 <= p.2 <= now req - windowMs opts))
           (members z))) as Hle.
      unfold survivors. lia.
    - exfalso. apply Hne. unfold survivors. apply map_filter_empty. }
  assert (withinLimit opts
            (if decide (before = ∅) then delete key store
             else <[key := mkZKey before (Some (now req + secs * 1000))]> store))
    as Hpruned.
  { intros k z Hz. destruct (decide (before = ∅)) as [He|Hne].
    - apply lookup_delete_Some in Hz as [_ Hz]. by apply (Hlim k).
    - apply lookup_insert_Some in Hz as [[_ <-]|[_ Hz]]; [by apply Hbefore|by apply (Hlim k)]. }
  destruct (execAnswer b); [|done|done].
  destruct (Z.geb_spec (Z.of_nat (size before)) (maxRequests opts)) as [Hge|Hlt]; [done|].
  destruct (zaddRejects b); [done|]. cbn [fst].
  intros k z Hz. apply lookup_insert_Some in Hz as [[_ <-]|[_ Hz]]; [|by apply (Hlim k)].
  cbn [members].
  pose proof (map_size_insert (memberOf req) (now req) before) as Hsize.
  destruct (before !! memberOf req); cbn in Hsize; lia.
Qed.

End OneCall.

(** X17.  The stored sets stay small.  If no set of the store holds more than
    [maxRequests] time stamps, then after any number of calls that run one
    after the other, from any clients, at any times and with the store
    failing or answering as it likes on each of them, still no set holds
    more than [maxRequests] time stamps. *)
Theorem sequential_calls_stay_within_limit
  (opts : RateLimitOptions) (calls : list (StoreBehaviour * Request))
  (store : gmap string ZKey) :
  0 < windowMs opts ->
  withinLimit opts store ->
  withinLimit opts (runCalls opts calls store).1.
Proof.
  intros Hw. revert store. induction calls as [|[b req] calls IH]; intros store Hlim; [done|].
  cbn [runCalls].
  pose proof (middleware_withinLimit opts req Hw b store Hlim) as Hstep.
  destruct (middleware opts b req store) as [store' outcome].
  specialize (IH store' Hstep).
  by destruct (runCalls opts calls store') as [store'' outcomes].
Qed.

Lemma length_le_size (l : list string) : ∀ (m : gmap string Z),
  NoDup l -> (∀ k, k ∈ l -> is_Some (m !! k)) -> (length l <= size m)%nat.
Proof.
  induction l as [|k l IH]; intros m Hnd Hin; [simpl; lia|].
  apply NoDup_cons in Hnd as [Hk Hnd].
  destruct (Hin k) as [v Hv]; [apply list_elem_of_here|].
  pose proof (map_size_delete_Some k m (mk_is_Some _ _ Hv)) as Hsize.
  pose proof (map_size_ne_0_lookup_2 m k (mk_is_Some _ _ Hv)) as Hpos.
  assert (length l <= size (delete k m))%nat as Hle.
  { apply IH; [done|]. intros k' Hk'.
    rewrite lookup_delete_ne by (intros ->; done).
    apply Hin. by apply list_elem_of_further. }
  simpl. lia.
Qed.

Lemma inWindow_app (opts : RateLimitOptions) (t : Z) (a b : list Request) :
  inWindow opts t (a ++ b) = inWindow opts t a ++ inWindow opts t b.
Proof. unfold inWindow. apply filter_app. Qed.

Lemma inWindow_later (opts : RateLimitOptions) (t t' : Z) (l : list Request) :
  t <= t' -> (length (inWindow opts t' l) <= length (inWindow opts t l))%nat.
Proof.
  intros Ht. unfold inWindow. induction l as [|r l IH]; [done|].
  rewrite !filter_cons.
  destruct (decide (t' - windowMs opts < now r)) as [H1|H1];
    destruct (decide (t - windowMs opts < now r)) as [H2|H2]; simpl; lia.
Qed.

Section OneClient.
Variable opts : RateLimitOptions.
Variable client : string.
Hypothesis window_positive : 0 < windowMs opts.

Local Abbreviation clientKey := ("rate_limit:" +:+ keyGenerator opts client).

Lemma tracked_survive (store : gmap string ZKey) (seen : list Request) (t : Z)
  (req : Request) (r : Request) :
  tracked opts client store seen t ->
  t <= now req -> r ∈ seen -> now req - windowMs opts < now r ->
  survivors opts req (liveMembers store (now req) clientKey) !! memberOf r
  = Some (now r).
Proof.
  intros (Hold & Hkept & _) Ht Hr Hin.
  unfold survivors. apply map_lookup_filter_Some. split.
  - by apply Hkept.
  - cbn. lia.
Qed.

Lemma tracked_count (store : gmap string ZKey) (seen : list Request) (t : Z)
  (req : Request) :
  tracked opts client store seen t ->
  NoDup (memberOf <$> seen) ->
  t <= now req ->
  (length (inWindow opts (now req) seen)
   <= size (survivors opts req (liveMembers store (now req) clientKey)))%nat.
Proof.
  intros Htr Hnd Ht.
  rewrite <- (length_fmap memberOf).
  apply length_le_size.
  - unfold inWindow. apply (sublist_NoDup _ (memberOf <$> seen)); [exact Hnd|].
    apply fmap_sublist, sublist_filter.
  - intros k Hk. apply list_elem_of_fmap in Hk as (r & -> & Hr).
    apply list_elem_of_filter in Hr as [Hin Hr].
    exists (now r). by apply (tracked_survive store seen t).
Qed.

(** One more call of the client keeps the store on track. *)
Lemma tracked_step (store : gmap string ZKey) (seen : list Request) (t : Z)
  (req : Request) :
  tracked opts client store seen t ->
  NoDup (memberOf <$> seen) ->
  memberOf req ∉ memberOf <$> seen ->
  ip req = client ->
  t <= now req ->
  tracked opts client (middleware opts healthy req store).1
    (seen ++ (if allowed (middleware opts healthy req store).2 then [req] else []))
    (now req).
Proof.
  intros Htr Hnd Hfresh Hip Ht.
  pose proof (tracked_count store seen t req Htr Hnd Ht) as Hcount.
  pose proof (tracked_survive store seen t req) as Hsurv.
  pose proof (ceilSeconds_covers (windowMs opts)) as Hsecs.
  destruct Htr as (Hold & Hkept & Hmax).
  assert (tracked opts client store seen t) as Htr by done.
  rewrite (middleware_spec opts req window_positive healthy store).
  cbn [healthy execAnswer zaddRejects].
  unfold rateKey in *. rewrite Hip in *.
  set (before := survivors opts req (liveMembers store (now req) clientKey)) in *.
  destruct (Z.geb_spec (Z.of_nat (size before)) (maxRequests opts)) as [Hge|Hlt];
    cbn [fst snd allowed]; rewrite ?RateLimitFacts.allowed_proceed.
  - rewrite app_nil_r. split; [|split].
    + intros r Hr. specialize (Hold r Hr). lia.
    + intros t' r Ht' Hr Hin. specialize (Hold r Hr).
      assert (before !! memberOf r = Some (now r)) as Hb
        by (apply Hsurv; [done|done|done|lia]).
      unfold liveMembers. destruct (decide (before = ∅)) as [He|Hne].
      * by rewrite He in Hb.
      * rewrite live_insert. cbn [expireAt].
        destruct (Z.ltb_spec t' (now req + ceilSeconds (windowMs opts) * 1000)); [done|lia].
    + pose proof (inWindow_later opts t (now req) seen Ht). lia.
  - split; [|split].
    + intros r Hr. apply elem_of_app in Hr as [Hr|Hr].
      * specialize (Hold r Hr). lia.
      * apply list_elem_of_singleton in Hr as ->. lia.
    + intros t' r Ht' Hr Hin.
      assert (liveMembers
                (<[clientKey := mkZKey (<[memberOf req := now req]> before)
                     (if decide (before = ∅) then None
                      else Some (now req + ceilSeconds (windowMs opts) * 1000))]> store)
                t' clientKey = <[memberOf req := now req]> before) as ->.
      { unfold liveMembers. rewrite live_insert. cbn [expireAt].
        destruct (decide (before = ∅)); [done|].
        destruct (Z.ltb_spec t' (now req + ceilSeconds (windowMs opts) * 1000)); [done|].
        exfalso. apply elem_of_app in Hr as [Hr|Hr].
        - specialize (Hold r Hr). lia.
        - apply list_elem_of_singleton in Hr as ->. lia. }
      apply elem_of_app in Hr as [Hr|Hr].
      * rewrite lookup_insert_ne.
        -- apply Hsurv; [done|done|done|lia].
        -- intros Heq. apply Hfresh. rewrite Heq. apply list_elem_of_fmap. by exists r.
      * apply list_elem_of_singleton in Hr as ->. by rewrite lookup_insert_eq.
    + rewrite inWindow_app, length_app. unfold inWindow at 2.
      rewrite filter_cons, decide_True by lia. simpl. lia.
Qed.

Lemma tracked_run (reqs : list Request) : ∀ (store : gmap string ZKey)
  (seen : list Request) (t : Z),
  tracked opts client store seen t ->
  NoDup (memberOf <$> (seen ++ reqs)) ->
  (∀ r, r ∈ reqs -> ip r = client) ->
  nondecreasing t reqs ->
  Z.of_nat (length (inWindow opts (lastTime t reqs)
                      (seen ++ allowedCalls opts reqs store)))
  <= maxRequests opts.
Proof.
  induction reqs as [|req rest IH]; intros store seen t Htr Hnd Hip Hmono.
  - cbn [allowedCalls lastTime]. rewrite app_nil_r. by destruct Htr as (_ & _ & Hmax).
  - destruct Hmono as [Ht Hmono]. cbn [allowedCalls lastTime].
    rewrite fmap_app, fmap_cons in Hnd.
    apply NoDup_app in Hnd as (Hseen & Hdisj & Hrest).
    apply NoDup_cons in Hrest as [Hreq Hrest].
    assert (memberOf req ∉ memberOf <$> seen) as Hfresh.
    { intros Hin. apply (Hdisj _ Hin). apply list_elem_of_here. }
    pose proof (tracked_step store seen t req Htr Hseen Hfresh
                  (Hip req (list_elem_of_here _ _)) Ht) as Hstep.
    destruct (middleware opts healthy req store) as [store' outcome].
    cbn [fst snd] in Hstep. rewrite app_assoc.
    apply IH; [done| |by intros r Hr; apply Hip, list_elem_of_further|done].
    rewrite fmap_app. apply NoDup_app. split; [|split; [|done]].
    + destruct (allowed outcome); [|by rewrite app_nil_r].
      rewrite fmap_app. apply NoDup_app. split; [done|]. split.
      * intros k Hk Hk'. apply list_elem_of_singleton in Hk' as ->. done.
      * apply NoDup_singleton.
    + intros k Hk Hk'. rewrite fmap_app in Hk. apply elem_of_app in Hk as [Hk|Hk].
      * apply (Hdisj _ Hk). by apply list_elem_of_further.
      * destruct (allowed outcome); [|by apply elem_of_nil in Hk].
        apply list_elem_of_singleton in Hk as ->. done.
Qed.

Lemma nondecreasing_take (reqs : list Request) : ∀ (t : Z) (n : nat),
  nondecreasing t reqs -> nondecreasing t (take n reqs).
Proof.
  induction reqs as [|r reqs IH]; intros t n H; [by destruct n|].
  destruct n; [done|]. destruct H as [H1 H2]. split; [done|by apply IH].
Qed.

(** X18.  The sliding window, for calls that do not overlap.  A client sends
    any number of requests one after the other, the clock never runs
    backwards, the store answers every time and the recorded members are
    distinct.  Then at each request, the requests let through so far
    (this one included) whose time lies in the window that ends at this
    request are at most [maxRequests]; whatever the store held before. *)
Theorem sequential_calls_respect_the_window (store : gmap string ZKey)
  (reqs : list Request) (t0 : Z) (n : nat) :
  0 <= maxRequests opts ->
  (∀ r, r ∈ reqs -> ip r = client) ->
  nondecreasing t0 reqs ->
  NoDup (memberOf <$> reqs) ->
  Z.of_nat (length (inWindow opts (lastTime t0 (take n reqs))
                      (allowedCalls opts (take n reqs) store)))
  <= maxRequests opts.
Proof.
  intros Hmax Hip Hmono Hnd.
  apply (tracked_run (take n reqs) store [] t0).
  - split; [|split].
    + intros r Hr. by apply elem_of_nil in Hr.
    + intros t' r _ Hr. by apply elem_of_nil in Hr.
    + done.
  - cbn [app]. rewrite fmap_take. apply (sublist_NoDup _ (memberOf <$> reqs)); [done|apply sublist_take].
  - intros r Hr. apply Hip. apply elem_of_take in Hr as (i & Hi & _). by eapply list_elem_of_lookup_2.
  - by apply nondecreasing_take.
Qed.

End OneClient.

Lemma middleware_other_keys (opts : RateLimitOptions) (b : StoreBehaviour)
  (req : Request) (store : gmap string ZKey) (k : string) :
  0 < windowMs opts ->
  k ≠ rateKey opts req ->
  (middleware opts b req store).1 !! k = store !! k.
Proof.
  intros Hw Hk. rewrite (middleware_spec opts req Hw b store).
  set (before := survivors opts req (liveMembers store (now req) (rateKey opts req))).
  assert ((if decide (before = ∅) then delete (rateKey opts req) store
           else <[rateKey opts req :=
                    mkZKey before (Some (now req + ceilSeconds (windowMs opts) * 1000))]> store)
          !! k = store !! k) as Hpruned.
  { destruct (decide (before = ∅)); [by rewrite lookup_delete_ne|by rewrite lookup_insert_ne]. }
  destruct (execAnswer b); [|done|done].
  destruct (Z.of_nat (size before) >=? maxRequests opts); [done|].
  destruct (zaddRejects b); [done|]. cbn [fst]. by rewrite lookup_insert_ne.
Qed.

Lemma allowed_call_is_recorded (opts : RateLimitOptions) (req : Request)
  (store : gmap string ZKey) :
  0 < windowMs opts ->
  allowed (middleware opts healthy req store).2 = true ->
  ∃ z, (middleware opts healthy req store).1 !! rateKey opts req = Some z
       ∧ members z !! memberOf req = Some (now req).
Proof.
  intros Hw. rewrite (middleware_spec opts req Hw healthy store).
  cbn [execAnswer zaddRejects healthy].
  destruct (_ >=? maxRequests opts); [done|]. intros _. cbn [fst].
  eexists. rewrite lookup_insert_eq. split; [done|]. cbn [members].
  by rewrite lookup_insert_eq.
Qed.

Lemma general_key_is_scan_key (window maxReq : Z) (a b : Request) :
  rateKey (rateLimiter window maxReq) a = rateKey scanRateLimiter b
  <-> ip a = "scan:" +:+ ip b.
Proof.
  unfold rateKey, rateLimiter, scanRateLimiter. cbn [keyGenerator]. split.
  - intros H. by apply app_inv_head_string in H.
  - by intros ->.
Qed.

Lemma same_address_keys_differ (window maxReq : Z) (a b : Request) :
  ip b = ip a ->
  rateKey (rateLimiter window maxReq) a ≠ rateKey scanRateLimiter b.
Proof.
  intros Hip H. apply general_key_is_scan_key in H. rewrite Hip in H.
  apply (f_equal String.length) in H.
  rewrite TextFacts.string_length_app in H. simpl in H. lia.
Qed.

(** X19.  The keys of the two limiters, and the way of a scan request
    through both.  A call changes nothing under the key of another client
    of the same limiter.  The key of the general limiter for one request
    is the key of the scan limiter for another exactly when the address of
    the first is the text [scan:] followed by the address of the second;
    for one and the same address the two keys differ.  A [POST /scan]
    request with a body that the parsers accept passes the general limiter
    and then the scan limiter: refused by the general limiter it is
    answered there and the scan key stays as it was; let through, with the
    store answering, it is recorded under the general key, the scan
    limiter then decides and leaves the general key alone, and when it
    lets the request through as well the request is recorded under the
    scan key too.  So an admitted scan request counts against both
    limits. *)
Theorem scan_request_passes_both_limiters (window maxReq : Z)
  (first second : Request) (store : gmap string ZKey) :
  0 < window ->
  ip second = ip first ->
  let general := rateLimiter window maxReq in
  let afterGeneral := middleware general healthy first store in
  let final := postScan general healthy healthy first second store in
  (∀ b other, ip other ≠ ip first ->
     (middleware general b first store).1 !! rateKey general other
     = store !! rateKey general other
     ∧ (middleware scanRateLimiter b first store).1 !! rateKey scanRateLimiter other
       = store !! rateKey scanRateLimiter other)
  ∧ (∀ a b : Request,
       rateKey general a = rateKey scanRateLimiter b <-> ip a = "scan:" +:+ ip b)
  ∧ rateKey general first ≠ rateKey scanRateLimiter second
  ∧ (allowed afterGeneral.2 = false ->
       final = afterGeneral
       ∧ final.1 !! rateKey scanRateLimiter second
         = store !! rateKey scanRateLimiter second)
  ∧ (allowed afterGeneral.2 = true ->
       final = middleware scanRateLimiter healthy second afterGeneral.1
       ∧ (∃ z, final.1 !! rateKey general first = Some z
               ∧ members z !! memberOf first = Some (now first))
       ∧ (allowed final.2 = true ->
            ∃ z, final.1 !! rateKey scanRateLimiter second = Some z
                 ∧ members z !! memberOf second = Some (now second))).
Proof.
  intros Hw Hip general afterGeneral final.
  assert (0 < windowMs general) as Hwg by done.
  assert (0 < windowMs scanRateLimiter) as Hws by done.
  pose proof (same_address_keys_differ window maxReq first second Hip) as Hkeys.
  split; [|split; [|split; [|split]]].
  - intros b other Hne. split; apply middleware_other_keys; try done.
    + unfold rateKey, general, rateLimiter. cbn [keyGenerator]. intros Heq.
      apply Hne. by apply (app_inv_head_string _ _ _ Heq).
    + unfold rateKey, scanRateLimiter. cbn [keyGenerator]. intros Heq.
      apply Hne. by apply app_inv_head_string in Heq; apply app_inv_head_string in Heq.
  - intros a b. apply general_key_is_scan_key.
  - exact Hkeys.
  - intros Hrefused. unfold final, postScan. fold afterGeneral.
    destruct afterGeneral as [store' [h|secs]] eqn:Hafter; [done|].
    split; [done|]. cbn [fst].
    change store' with (store', TooManyRequests secs).1. rewrite <- Hafter.
    apply middleware_other_keys; [done|]. intros Heq. by apply Hkeys.
  - intros Hallowed.
    assert (final = middleware scanRateLimiter healthy second afterGeneral.1) as Hfinal.
    { unfold final, postScan. fold afterGeneral.
      by destruct afterGeneral as [store' [h|secs]]. }
    split; [exact Hfinal|]. split.
    + rewrite Hfinal.
      rewrite (middleware_other_keys scanRateLimiter healthy second afterGeneral.1
                 (rateKey general first) Hws Hkeys).
      by apply allowed_call_is_recorded.
    + rewrite Hfinal. by apply allowed_call_is_recorded.
Qed.

Lemma window_step_witness :
  0 < windowMs scanRateLimiter
  ∧ (middleware scanRateLimiter healthy
       (mkRequest "203.0.113.7" 1700000000000 "0.5") ∅).2
    = Next (headersFor scanRateLimiter
              (mkRequest "203.0.113.7" 1700000000000 "0.5") 0)
  ∧ headersFor scanRateLimiter (mkRequest "203.0.113.7" 1700000000000 "0.5") 0
    = Some (mkHeaders "10" "9" "2023-11-14T22:18:20.000Z").
Proof.
  split; [reflexivity|]. split; [|reflexivity].
  exact (proj1 (healthy_call_is_a_window_step scanRateLimiter
                  (mkRequest "203.0.113.7" 1700000000000 "0.5") eq_refl ∅)).
Defined.

Lemma within_limit_witness :
  0 < windowMs scanRateLimiter
  ∧ withinLimit scanRateLimiter ∅
  ∧ withinLimit scanRateLimiter
      (runCalls scanRateLimiter
         [(healthy, mkRequest "203.0.113.7" 1700000000000 "0.5");
          (mkBehaviour ExecNull false, mkRequest "203.0.113.7" 1700000000001 "0.6");
          (healthy, mkRequest "198.51.100.2" 1700000000002 "0.7")] ∅).1.
Proof.
  assert (withinLimit scanRateLimiter ∅) as Hempty.
  { intros k z Hk. by rewrite lookup_empty in Hk. }
  split; [reflexivity|]. split; [exact Hempty|].
  apply (sequential_calls_stay_within_limit scanRateLimiter _ ∅ eq_refl Hempty).
Defined.

Lemma sequential_window_witness :
  0 < windowMs scanRateLimiter
  ∧ 0 <= maxRequests scanRateLimiter
  ∧ nondecreasing 1700000000000
      [mkRequest "203.0.113.7" 1700000000000 "0.5";
       mkRequest "203.0.113.7" 1700000000001 "0.6"]
  ∧ NoDup (memberOf <$> [mkRequest "203.0.113.7" 1700000000000 "0.5";
                         mkRequest "203.0.113.7" 1700000000001 "0.6"])
  ∧ Z.of_nat (length (inWindow scanRateLimiter
                        (lastTime 1700000000000
                           (take 2 [mkRequest "203.0.113.7" 1700000000000 "0.5";
                                    mkRequest "203.0.113.7" 1700000000001 "0.6"]))
                        (allowedCalls scanRateLimiter
                           (take 2 [mkRequest "203.0.113.7" 1700000000000 "0.5";
                                    mkRequest "203.0.113.7" 1700000000001 "0.6"]) ∅)))
    <= maxRequests scanRateLimiter.
Proof.
  assert (nondecreasing 1700000000000
            [mkRequest "203.0.113.7" 1700000000000 "0.5";
             mkRequest "203.0.113.7" 1700000000001 "0.6"]) as Hmono.
  { cbn. lia. }
  assert (NoDup (memberOf <$> [mkRequest "203.0.113.7" 1700000000000 "0.5";
                               mkRequest "203.0.113.7" 1700000000001 "0.6"])) as Hnd.
  { apply (bool_decide_unpack _). by vm_compute. }
  split; [reflexivity|]. split; [cbn; lia|]. split; [exact Hmono|]. split; [exact Hnd|].
  apply (sequential_calls_respect_the_window scanRateLimiter "203.0.113.7" eq_refl ∅
           [mkRequest "203.0.113.7" 1700000000000 "0.5";
            mkRequest "203.0.113.7" 1700000000001 "0.6"] 1700000000000 2);
    [cbn; lia| |exact Hmono|exact Hnd].
  intros r Hr.
  apply elem_of_cons in Hr as [->|Hr]; [reflexivity|].
  apply elem_of_cons in Hr as [->|Hr]; [reflexivity|].
  by apply elem_of_nil in Hr.
Defined.

Lemma both_limits_witness :
  let first := mkRequest "203.0.113.7" 1700000000000 "0.5" in
  let second := mkRequest "203.0.113.7" 1700000000001 "0.6" in
  let final := postScan (rateLimiter 900000 100) healthy healthy first second ∅ in
  0 < 900000
  ∧ ip second = ip first
  ∧ (∃ z, final.1 !! rateKey (rateLimiter 900000 100) first = Some z
          ∧ members z !! memberOf first = Some (now first))
  ∧ (∃ z, final.1 !! rateKey scanRateLimiter second = Some z
          ∧ members z !! memberOf second = Some (now second)).
Proof.
  intros first second final.
  pose proof (scan_request_passes_both_limiters 900000 100 first second ∅
                eq_refl eq_refl) as H.
  cbv zeta in H. destruct H as (_ & _ & _ & _ & H).
  assert (allowed (middleware (rateLimiter 900000 100) healthy first ∅).2 = true)
    as Hfirst by (by vm_compute).
  destruct (H Hfirst) as (_ & Hgeneral & Hscan).
  split; [reflexivity|]. split; [reflexivity|]. split; [exact Hgeneral|].
  apply Hscan. by vm_compute.
Defined.

(** An address text that starts with [scan:] makes the general limiter
    write under the key of the scan limiter. *)
Example address_text_collides :
  rateKey (rateLimiter 900000 100) (mkRequest "scan:203.0.113.7" 1700000000000 "0.5")
  = rateKey scanRateLimiter (mkRequest "203.0.113.7" 1700000000000 "0.5").
Proof. reflexivity. Qed.

(** A scan request that the general limiter refuses never reaches the scan
    limiter: with a general limit of one request, the second scan request
    of a client is answered 429 and the scan key still holds one member. *)
Example general_limit_stops_scan_requests :
  let first := mkRequest "203.0.113.7" 1700000000000 "0.5" in
  let second := mkRequest "203.0.113.7" 1700000000001 "0.6" in
  let third := mkRequest "203.0.113.7" 1700000000002 "0.7" in
  let fourth := mkRequest "203.0.113.7" 1700000000003 "0.8" in
  let once := postScan (rateLimiter 900000 1) healthy healthy first second ∅ in
  let twice := postScan (rateLimiter 900000 1) healthy healthy third fourth once.1 in
  allowed once.2 = true
  ∧ twice.2 = TooManyRequests 900
  ∧ (size <$> (members <$> twice.1 !! rateKey scanRateLimiter first)) = Some 1%nat.
Proof. by vm_compute. Qed.

(** A window so long that the reset time is past the last time a [Date]
    holds: the request is recorded and proceeds, without headers. *)
Example reset_time_out_of_range :
  let req := mkRequest "203.0.113.7" 1700000000000 "0.5" in
  let opts := rateLimiter 8640000000000000 100 in
  (middleware opts healthy req ∅).2 = Next None
  ∧ liveMembers (middleware opts healthy req ∅).1 (now req) (rateKey opts req)
      !! memberOf req = Some (now req).
Proof. by vm_compute. Qed.

End LimiterRunFacts.

(** ** The health checks *)

Module HealthFacts.
Import JS Health.

(** X20.  The health handlers side by side, for every outcome of the three
    probes.  [getServiceHealth] reports each service as its probe found
    it; the status is [healthy] when all three probes succeed and
    [unhealthy] when at most one does.  The service health handler
    answers 200 when at least two of the three probes succeed and 503
    otherwise, and its [success] field is [true] exactly with a 200.  The
    handlers of [GET /health] and [GET /health/ready] answer 200 when the
    database and Redis both answer and 503 otherwise, whatever the scanner
    does; so whenever they answer 200 the service health handler does
    too, but not the other way round.  A 503 of [GET /health] names all
    three services as down, whichever probe failed; its 200 names the
    scanner as its probe found it.  The handler of [GET /health/live]
    answers 200. *)
Theorem health_endpoints_compared (p : Probes) :
  let t := trufflehogRuns p in
  let d := databaseAnswers p in
  let r := redisAnswers p in
  services (getServiceHealth p) = mkServices t d r
  ∧ (status (getServiceHealth p) = Healthy ↔ t = true ∧ d = true ∧ r = true)
  ∧ (status (getServiceHealth p) = Unhealthy
     ↔ (t = false ∧ d = false) ∨ (t = false ∧ r = false) ∨ (d = false ∧ r = false))
  ∧ statusCode (getHealth p) = (if (t && d) || (t && r) || (d && r) then 200 else 503)
  ∧ success (getHealth p) = Some ((t && d) || (t && r) || (d && r))
  ∧ statusText (getHealth p)
    = (if t && d && r then "healthy"
       else if (t && d) || (t && r) || (d && r) then "degraded" else "unhealthy")
  ∧ statusCode (healthRoute p) = (if d && r then 200 else 503)
  ∧ statusCode (readyRoute p) = statusCode (healthRoute p)
  ∧ (statusCode (healthRoute p) = 200 -> statusCode (getHealth p) = 200)
  ∧ (statusCode (healthRoute p) = 200 ->
     serviceTexts (healthRoute p)
     = Some ("connected", "connected", if t then "available" else "unavailable"))
  ∧ (statusCode (healthRoute p) = 503 ->
     serviceTexts (healthRoute p) = Some ("disconnected", "disconnected", "unavailable"))
  ∧ statusCode (liveRoute p) = 200.
Proof.
  destruct p as [[] [] []]; vm_compute; repeat split; try done;
    try (intros (? & ? & ?); done);
    try (intros [[? ?]|[[? ?]|[? ?]]]; done);
    try (by left); try (by right; left); try (by right; right).
Qed.

(** The scanner and the database up and Redis down: the service health
    handler answers 200 with [degraded], the handler of [GET /health]
    answers 503 and reports the database as disconnected. *)
Lemma health_witness :
  statusCode (getHealth (mkProbes true true false)) = 200
  ∧ statusText (getHealth (mkProbes true true false)) = "degraded"
  ∧ statusCode (healthRoute (mkProbes true true false)) = 503
  ∧ serviceTexts (healthRoute (mkProbes true true false))
    = Some ("disconnected", "disconnected", "unavailable").
Proof.
  pose proof (health_endpoints_compared (mkProbes true true false)) as H.
  cbv zeta in H.
  destruct H as (_ & _ & _ & Hcode & _ & Htext & Hroute & _ & _ & _ & Hdown & _).
  split; [exact Hcode|]. split; [exact Htext|]. split; [exact Hroute|].
  exact (Hdown Hroute).
Defined.

End HealthFacts.

(** ** The scan history *)

Module HistoryFacts.
Import JS Validator History.

Lemma no_errors_iff (errors : list string) :
  (if (0 <? Z.of_nat (length errors)) then BadRequest errors else Accepted) = Accepted
  ↔ errors = [].
Proof. destruct errors; simpl; split; done. Qed.

Lemma includesValue_true (l : list string) (v : JSValue) :
  includesValue l v = true ↔ ∃ s, v = JString s ∧ s ∈ l.
Proof.
  unfold includesValue. destruct v; try (split; [done|by intros (? & ? & ?)]).
  split.
  - intros H. eexists. split; [done|]. by apply bool_decide_eq_true in H.
  - intros (s0 & [= <-] & Hin). by apply bool_decide_eq_true.
Qed.

Lemma whitelist_errors (v : JSValue) (l : list string) (msg : string) :
  (if truthy v then (if negb (includesValue l v) then [msg] else []) else []) = []
  ↔ absentOr v (∃ s, v = JString s ∧ s ∈ l).
Proof.
  unfold absentOr. destruct (truthy v); [|split; [by left|done]].
  rewrite <- includesValue_true.
  destruct (includesValue l v); simpl; split; try done; [by right|by intros [|]].
Qed.

Section WithPlatform.
Variable parseURL : string -> option URL.
Variable parseInt : JSValue -> option Z.

Lemma historyRepoUrlErrors_nil (q : Query) :
  historyRepoUrlErrors parseURL q = []
  ↔ absentOr (qRepoUrl q) (∃ s, qRepoUrl q = JString s ∧ is_Some (parseURL s)).
Proof.
  unfold historyRepoUrlErrors, absentOr.
  destruct (truthy (qRepoUrl q)); [|split; [by left|done]].
  destruct (qRepoUrl q) as [| |x|n|s|ms|items|fields];
    try (split; [done|by intros [|(? & ? & ?)]]).
  destruct (parseURL s) as [u|] eqn:Hu.
  - split; [|done]. intros _. right. exists s. by rewrite Hu.
  - split; [done|]. intros [|(s0 & [= <-] & Hs)]; [done|].
    rewrite Hu in Hs. by destruct Hs.
Qed.

Lemma pageErrors_nil (q : Query) :
  pageErrors parseInt q = []
  ↔ absentOr (qPage q) (∃ n, parseInt (qPage q) = Some n ∧ 1 <= n).
Proof.
  unfold pageErrors, absentOr.
  destruct (truthy (qPage q)); [|split; [by left|done]].
  destruct (parseInt (qPage q)) as [n|].
  - destruct (Z.ltb_spec n 1).
    + split; [done|]. intros [|(n0 & [= <-] & Hn)]; [done|lia].
    + split; [|done]. intros _. right. by exists n.
  - split; [done|]. by intros [|(? & ? & ?)].
Qed.

Lemma limitErrors_nil (q : Query) :
  limitErrors parseInt q = []
  ↔ absentOr (qLimit q) (∃ n, parseInt (qLimit q) = Some n ∧ 1 <= n <= 100).
Proof.
  unfold limitErrors, absentOr.
  destruct (truthy (qLimit q)); [|split; [by left|done]].
  destruct (parseInt (qLimit q)) as [n|].
  - destruct (Z.ltb_spec n 1); destruct (Z.ltb_spec 100 n); cbn [orb].
    all: try (split; [done|]; intros [|(n0 & [= <-] & Hn)]; [done|lia]).
    split; [|done]. intros _. right. by exists n.
  - split; [done|]. by intros [|(? & ? & ?)].
Qed.

Lemma no_history_errors_iff (q : Query) :
  validateHistoryQuery parseURL parseInt q = Accepted
  ↔ historyAcceptable parseURL parseInt q.
Proof.
  unfold validateHistoryQuery, historyAcceptable. rewrite no_errors_iff.
  rewrite <- historyRepoUrlErrors_nil, <- pageErrors_nil, <- limitErrors_nil.
  rewrite <- (whitelist_errors (qProvider q) providers
                "provider must be one of: github, gitlab, bitbucket, other").
  rewrite <- (whitelist_errors (qSortBy q) sortFields
                "sortBy must be one of: created_at, repo_url").
  rewrite <- (whitelist_errors (qSortOrder q) sortOrders
                "sortOrder must be one of: asc, desc").
  fold (historyProviderErrors q) (sortByErrors q) (sortOrderErrors q).
  rewrite !app_nil. tauto.
Qed.

(** X21.  A history query passes validation exactly when each of its six fields
    is absent or empty, or else: [repoUrl] is a text that parses as a URL
    (of any scheme and host); [provider] is one of the four provider
    names; [page] reads as an integer of at least 1; [limit] reads as an
    integer from 1 to 100; [sortBy] is [created_at] or [repo_url];
    [sortOrder] is [asc] or [desc]. *)
Theorem history_validation_accepts_iff (q : Query) :
  validateHistoryQuery parseURL parseInt q = Accepted
  ↔ historyAcceptable parseURL parseInt q.
Proof. apply no_history_errors_iff. Qed.

Section WithLowerCase.
Variable toLowerCase : string -> string.

(** X22.  The validator and the repository agree on sorting.  For a query that
    passed [validateHistoryQuery] (with values as the query parser leaves
    them, and a [toLowerCase] that leaves lower-case words alone), building
    the statement does not throw, the direction is [ASC] exactly when
    [sortOrder] is [asc] and [DESC] otherwise, and the column is [repo_url]
    exactly when [sortBy] is [repo_url] and [created_at] otherwise: the
    repository's own whitelist never has to replace a validated value. *)
Theorem validated_sort_reaches_the_statement (q : Query) :
  (∀ s, s ∈ [""; "asc"; "desc"] -> toLowerCase s = s) ->
  parsedValue (qSortOrder q) = true ->
  validateHistoryQuery parseURL parseInt q = Accepted ->
  (qSortOrder q = JString "asc" ->
     safeSortOrder toLowerCase (qSortOrder q) = Some "ASC")
  ∧ (qSortOrder q ≠ JString "asc" ->
     safeSortOrder toLowerCase (qSortOrder q) = Some "DESC")
  ∧ (qSortBy q = JString "repo_url" -> safeSortBy (qSortBy q) = "repo_url")
  ∧ (qSortBy q ≠ JString "repo_url" -> safeSortBy (qSortBy q) = "created_at").
Proof.
  intros Hlower Hparsed Hok.
  apply no_history_errors_iff in Hok.
  destruct Hok as (_ & _ & _ & _ & Hby & Horder).
  assert (toLowerCase "" = "") as H0 by (apply Hlower; apply (bool_decide_unpack _); done).
  assert (toLowerCase "asc" = "asc") as H1 by (apply Hlower; apply (bool_decide_unpack _); done).
  assert (toLowerCase "desc" = "desc") as H2 by (apply Hlower; apply (bool_decide_unpack _); done).
  split; [|split; [|split]].
  - intros ->. unfold safeSortOrder. cbn [orDefault]. by rewrite H1.
  - intros Hne. unfold safeSortOrder.
    destruct Horder as [Hfalsy|(s & Heq & Hs)].
    + destruct (qSortOrder q) as [| |x|n|s|ms|items|fields]; try done; cbn [orDefault].
      * by rewrite H2.
      * destruct s; [|done]. by rewrite H0.
    + rewrite Heq in *. cbn [orDefault].
      apply elem_of_cons in Hs as [->|Hs]; [congruence|].
      apply list_elem_of_singleton in Hs as ->. by rewrite H2.
  - by intros ->.
  - intros Hne. unfold safeSortBy.
    destruct Hby as [Hfalsy|(s & Heq & Hs)].
    + destruct (qSortBy q) as [| |x|n|s|ms|items|fields]; try done; cbn [orDefault].
      destruct s; [|done]. done.
    + rewrite Heq in *. cbn [orDefault].
      apply elem_of_cons in Hs as [->|Hs]; [done|].
      apply list_elem_of_singleton in Hs as ->. congruence.
Qed.

End WithLowerCase.
End WithPlatform.

Lemma safeSortBy_spec (v : JSValue) :
  (safeSortBy v = "repo_url" ∧ v = JString "repo_url")
  ∨ (safeSortBy v = "created_at" ∧ v ≠ JString "repo_url").
Proof.
  unfold safeSortBy. destruct v as [| |x|n|s|ms|items|fields]; cbn [orDefault];
    try (by right).
  case_bool_decide as Hin.
  - apply elem_of_cons in Hin as [->|Hin]; [by right|].
    apply list_elem_of_singleton in Hin as ->. by left.
  - right. split; [done|]. intros [= ->]. apply Hin.
    apply (bool_decide_unpack _). done.
Qed.

Section WithRuntime.
Variable toLowerCase : string -> string.
Variable toNumber : JSValue -> JSNumber.
Variable minus : JSNumber -> JSNumber -> JSNumber.
Variable times : JSNumber -> JSNumber -> JSNumber.

(** X23.  The history statements are parameterised.  Whenever
    [getScanHistory] gets as far as its statements, their texts are
    these: the [WHERE] clause is one of four fixed texts, chosen by which
    of the two filters are present; the [ORDER BY] column is [repo_url]
    when [sortBy] is that very text and [created_at] in every other case;
    the direction is [ASC] when [sortOrder] in lower case is [asc] and
    [DESC] otherwise; everything else is fixed text and placeholders,
    numbered after the filters.  The filter values that are present, then
    [limit] as the request gave it (20 when absent) and the offset
    [(page - 1) * limit] travel as parameters, and each statement has as
    many placeholders as it is given parameters. *)
Theorem history_statements_are_parameterised (q : HistoryQuery) (plan : Plan) :
  getScanHistoryPlan toLowerCase toNumber minus times q = Some plan ->
  let whereClause :=
    match truthy (repoUrl q), truthy (provider q) with
    | true, true => "WHERE repo_url = $1 AND provider = $2"
    | true, false => "WHERE repo_url = $1"
    | false, true => "WHERE provider = $1"
    | false, false => EmptyString
    end in
  let filters :=
    (if truthy (repoUrl q) then [repoUrl q] else [])
    ++ (if truthy (provider q) then [provider q] else []) in
  let n := Z.of_nat (length filters) in
  ∃ col dir s,
    ((col = "repo_url" ∧ sortBy q = JString "repo_url")
     ∨ (col = "created_at" ∧ sortBy q ≠ JString "repo_url"))
    ∧ orDefault (sortOrder q) (JString "desc") = JString s
    ∧ ((dir = "ASC" ∧ toLowerCase s = "asc") ∨ (dir = "DESC" ∧ toLowerCase s ≠ "asc"))
    ∧ countQuery plan
      = nl +:+ "        SELECT COUNT(*) as total" +:+ nl +:+
        "        FROM scans" +:+ nl +:+
        "        " +:+ whereClause +:+ nl +:+
        "      "
    ∧ dataQuery plan
      = nl +:+ "        SELECT id, repo_url, provider, result, created_at" +:+ nl +:+
        "        FROM scans" +:+ nl +:+
        "        " +:+ whereClause +:+ nl +:+
        "        ORDER BY " +:+ col +:+ " " +:+ dir +:+ nl +:+
        "        LIMIT $" +:+ showZ (n + 1) +:+ " OFFSET $" +:+ showZ (n + 2) +:+ nl +:+
        "      "
    ∧ countParams plan = filters
    ∧ offset plan
      = times (minus (toNumber (orDefault (page q) (JInt 1))) (NFinite 1 0))
              (toNumber (orDefault (limit q) (JInt 20)))
    ∧ dataParams plan
      = filters ++ [orDefault (limit q) (JInt 20); JNumber (offset plan)]
    ∧ placeholders (countQuery plan) = length (countParams plan)
    ∧ placeholders (dataQuery plan) = length (dataParams plan).
Proof.
  unfold getScanHistoryPlan, condition, safeSortOrder. intros Hplan.
  destruct (orDefault (sortOrder q) (JString "desc")) as [| |x|m|s|ms|items|fields]
    eqn:Horder;
    try (by destruct (truthy (repoUrl q)), (truthy (provider q))).
  set (dir := if bool_decide (toLowerCase s = "asc") then "ASC" else "DESC") in Hplan.
  assert ((dir = "ASC" ∧ toLowerCase s = "asc") ∨ (dir = "DESC" ∧ toLowerCase s ≠ "asc"))
    as Hdir.
  { unfold dir. case_bool_decide; [by left|by right]. }
  cbv zeta.
  exists (safeSortBy (sortBy q)), dir, s.
  split.
  { destruct (safeSortBy_spec (sortBy q)) as [[? ?]|[? ?]]; [by left|by right]. }
  split; [done|]. split; [exact Hdir|].
  destruct (safeSortBy_spec (sortBy q)) as [[Hby _]|[Hby _]];
    destruct Hdir as [[Hd _]|[Hd _]];
    destruct (truthy (repoUrl q)), (truthy (provider q));
    cbv beta iota zeta in Hplan; injection Hplan as <-;
    cbn [countQuery dataQuery countParams dataParams offset];
    rewrite Hby, Hd; repeat split; reflexivity.
Qed.

End WithRuntime.

Lemma totalPages_covers (total limit : Z) :
  1 <= limit ->
  total <= totalPages total limit * limit < total + limit.
Proof.
  intros Hl. unfold totalPages.
  pose proof (Z.div_mod (- total) limit ltac:(lia)).
  pose proof (Z.mod_pos_bound (- total) limit ltac:(lia)). nia.
Qed.

Lemma pagesFrom_take {A} (rows : list A) (limit : Z) (count : nat) : ∀ (k : nat),
  1 <= limit ->
  pagesFrom rows limit (Z.of_nat k + 1) count
  = take (count * Z.to_nat limit) (drop (k * Z.to_nat limit) rows).
Proof.
  induction count as [|n IH]; intros k Hl; [done|].
  cbn [pagesFrom]. unfold pageRows at 1.
  replace (Z.of_nat k + 1 + 1) with (Z.of_nat (S k) + 1) by lia.
  rewrite IH by done.
  replace (Z.to_nat ((Z.of_nat k + 1 - 1) * limit)) with (k * Z.to_nat limit)%nat by nia.
  replace (S k * Z.to_nat limit)%nat with (k * Z.to_nat limit + Z.to_nat limit)%nat by lia.
  rewrite <- drop_drop.
  replace (S n * Z.to_nat limit)%nat with (Z.to_nat limit + n * Z.to_nat limit)%nat by lia.
  by rewrite take_take_drop.
Qed.

(** X24.  Paging covers the rows.  For a limit of at least 1 and rows that stay
    the same between the requests, the pages 1 to [pages] (the number the
    response reports), one after the other, are exactly the rows in order;
    each of these pages holds at least one row and at most [limit]; every
    later page is empty. *)
Theorem history_pages_cover_the_rows {A} (rows : list A) (limit : Z) :
  1 <= limit ->
  let total := Z.of_nat (length rows) in
  pagesFrom rows limit 1 (Z.to_nat (totalPages total limit)) = rows
  ∧ (∀ page, 1 <= page <= totalPages total limit ->
       pageRows rows page limit ≠ []
       ∧ Z.of_nat (length (pageRows rows page limit)) <= limit)
  ∧ (∀ page, totalPages total limit < page -> pageRows rows page limit = []).
Proof.
  intros Hl total.
  pose proof (totalPages_covers total limit Hl) as Hcover.
  split; [|split].
  - rewrite (pagesFrom_take rows limit _ 0 Hl). cbn [Nat.mul drop].
    apply take_ge. nia.
  - intros page Hp. unfold pageRows. split.
    + intros Hnil. apply (f_equal length) in Hnil.
      rewrite length_take, length_drop in Hnil. cbn [length] in Hnil.
      unfold total in *. nia.
    + rewrite length_take. lia.
  - intros page Hp. unfold pageRows.
    rewrite drop_ge; [by rewrite take_nil|]. unfold total in *. nia.
Qed.

Lemma history_sort_witness :
  (∀ s, s ∈ [""; "asc"; "desc"] -> lowerASCII s = s)
  ∧ parsedValue (JString "asc") = true
  ∧ validateHistoryQuery sampleParseURL sampleParseInt
      (mkQuery JUndefined (JString "github") (JString "2") (JString "50")
               (JString "repo_url") (JString "asc")) = Accepted
  ∧ safeSortOrder lowerASCII (JString "asc") = Some "ASC".
Proof.
  assert (∀ s, s ∈ [""; "asc"; "desc"] -> lowerASCII s = s) as Hlower.
  { intros s Hs.
    apply elem_of_cons in Hs as [->|Hs]; [reflexivity|].
    apply elem_of_cons in Hs as [->|Hs]; [reflexivity|].
    apply elem_of_cons in Hs as [->|Hs]; [reflexivity|].
    by apply elem_of_nil in Hs. }
  split; [exact Hlower|]. split; [reflexivity|]. split; [reflexivity|].
  exact (proj1 (validated_sort_reaches_the_statement sampleParseURL sampleParseInt lowerASCII
                  (mkQuery JUndefined (JString "github") (JString "2") (JString "50")
                           (JString "repo_url") (JString "asc"))
                  Hlower eq_refl eq_refl) eq_refl).
Defined.

Lemma history_statements_witness :
  getScanHistoryPlan lowerASCII sampleToNumber sampleMinus sampleTimes sampleQuery
  = Some samplePlan
  ∧ placeholders (countQuery samplePlan) = 1%nat
  ∧ placeholders (dataQuery samplePlan) = 3%nat
  ∧ dataParams samplePlan
    = [JString "https://github.com/org/repo"; JString "50"; JInt 50].
Proof.
  split; [reflexivity|].
  destruct (history_statements_are_parameterised lowerASCII sampleToNumber sampleMinus
              sampleTimes sampleQuery samplePlan eq_refl)
    as (col & dir & s & _ & _ & _ & _ & _ & Hfilters & Hoffset & Hparams & Hcount & Hdata).
  split; [exact Hcount|]. split; [exact Hdata|].
  rewrite Hparams, Hoffset. reflexivity.
Defined.

(** The statements of the sample query in full. *)
Example sample_statements :
  countQuery samplePlan
  = nl +:+ "        SELECT COUNT(*) as total" +:+ nl +:+
    "        FROM scans" +:+ nl +:+
    "        WHERE repo_url = $1" +:+ nl +:+
    "      "
  ∧ dataQuery samplePlan
    = nl +:+ "        SELECT id, repo_url, provider, result, created_at" +:+ nl +:+
      "        FROM scans" +:+ nl +:+
      "        WHERE repo_url = $1" +:+ nl +:+
      "        ORDER BY repo_url ASC" +:+ nl +:+
      "        LIMIT $2 OFFSET $3" +:+ nl +:+
      "      ".
Proof. split; reflexivity. Qed.

(** A page that the validator lets through because [parseInt] reads its
    leading digit, and that is no number to the subtraction: the offset
    handed to the database is [NaN]. *)
Example page_with_trailing_text :
  offset <$> getScanHistoryPlan lowerASCII sampleToNumber sampleMinus sampleTimes
               (mkHistoryQuery JUndefined JUndefined (JString "2abc") JUndefined
                               JUndefined JUndefined)
  = Some NNaN.
Proof. reflexivity. Qed.

Lemma history_pages_witness :
  1 <= 2
  ∧ pagesFrom [10; 20; 30; 40; 50]%nat 2 1
      (Z.to_nat (totalPages (Z.of_nat (length [10; 20; 30; 40; 50]%nat)) 2))
    = [10; 20; 30; 40; 50]%nat.
Proof.
  split; [lia|].
  exact (proj1 (history_pages_cover_the_rows [10; 20; 30; 40; 50]%nat 2 ltac:(lia))).
Defined.

End HistoryFacts.

(** ** Stored scans and repeated requests *)

Module ScanStoreFacts.
Import JS JSONModel Errors TruffleHog Cache CacheOps ScanService ScanStore.

(** What comes out of JSON holds nothing that JSON cannot hold. *)
Lemma jsonImage_is_clean : ∀ v w, jsonImage v = Some w -> jsonClean w = true.
Proof.
  fix IH 1. intros v w. destruct v as [| |b|n|s|ms|items|fields]; simpl; try (by intros [= <-]).
  - destruct n; by intros [= <-].
  - intros [= <-]. by destruct (validTime ms).
  - intros [= <-]. simpl.
    induction items as [|x items IHl]; [done|].
    rewrite IHl, andb_true_r.
    destruct (jsonImage x) as [y|] eqn:Hx; [by apply (IH x)|done].
  - intros [= <-]. simpl.
    induction fields as [|[k x] fields IHl]; [done|].
    destruct (jsonImage x) as [y|] eqn:Hx; [|done].
    rewrite IHl, andb_true_r. by apply (IH x).
Qed.

Lemma jsonImage_idempotent (v w : JSValue) :
  jsonImage v = Some w -> jsonImage w = Some w.
Proof. intros H. apply CacheFacts.jsonImage_clean. by apply (jsonImage_is_clean v). Qed.

Section WithPlatform.
Variable JSON_parse : string -> option JSValue.
Variable md5hex : string -> string.
Variable defaultTTL : Z.

(** X25.  A cache hit serves what the fresh scan served.  A request finds
    nothing in the cache and succeeds; its result is written to the cache
    at time [stored] with the default time to live.  Then every request
    for the same target that reads the cache before the time to live has
    elapsed succeeds, whatever the gate, the scanner and the probe would
    do, and the [data] of its response body is the same JSON text as the
    [data] of the first response (in memory the two results differ: the
    date has become a string). *)
Theorem cache_hit_serves_the_same_body
  (redis : Redis) (svc svc' svc2 : Service) (env1 : Environment)
  (repoUrl provider : string) (v1 : JSValue)
  (stored later endTime2 stampTime2 : Z) (available2 : bool)
  (settlement2 : Settlement) :
  up redis = true ->
  0 < defaultTTL ->
  cached env1 = None ->
  ScanService.scanRepository JSON_parse svc env1 repoUrl provider = (svc', inr v1) ->
  stored <= later < stored + defaultTTL * 1000 ->
  ∃ scanResult,
    v1 = toJS scanResult
    ∧ let redis' := (setScanResult md5hex defaultTTL redis stored
                       repoUrl provider scanResult None).2 in
      let env2 := mkEnv (getScanResult md5hex redis' later repoUrl provider)
                        available2 settlement2 later endTime2 stampTime2 in
      ∃ v2,
        ScanService.scanRepository JSON_parse svc2 env2 repoUrl provider = (svc2, inr v2)
        ∧ bodyData v2 = bodyData v1
        ∧ is_Some (bodyData v1).
Proof.
  intros Hup Httl Hc Hrun Hlater.
  unfold ScanService.scanRepository in Hrun. rewrite Hc in Hrun.
  unfold freshScan in Hrun.
  destruct (isAvailable env1); cbn [negb] in Hrun; [|done].
  destruct (scanRepository_enter svc) as [svc1 [e1|[]]]; [done|].
  destruct (scanRepository_resume svc1 _) as [svc1' [e|vulnerabilities]]; [done|].
  injection Hrun as _ <-.
  eexists. split; [reflexivity|]. cbn zeta.
  set (r := mkScanResult _ _ _ _).
  assert (getScanResult md5hex
            (setScanResult md5hex defaultTTL redis stored repoUrl provider r None).2
            later repoUrl provider = Some (cachedImage r)) as Hget.
  { unfold setScanResult, JSON_stringify. rewrite CacheFacts.jsonImage_toJS.
    cbn [fmap option_fmap option_map effectiveTTL]. unfold redis_setex. rewrite Hup.
    destruct (Z.ltb_spec 0 defaultTTL) as [_|?]; [|lia]. cbn [andb snd].
    unfold getScanResult, redis_get. cbn [up entries].
    rewrite lookup_insert_eq. cbn [expiresAt value].
    destruct (Z.ltb_spec later (stored + defaultTTL * 1000)); [done|lia]. }
  rewrite Hget. exists (cachedImage r).
  split; [done|].
  unfold bodyData, JSON_stringify. rewrite CacheFacts.jsonImage_toJS.
  rewrite (jsonImage_idempotent (toJS r) _ (CacheFacts.jsonImage_toJS r)).
  split; [done|]. by eexists.
Qed.

(** X26.  Deleting a scan.  While the database answers, [deleteScan] returns
    whether the row existed and removes that row and no other.  If the row
    existed and Redis answers, the cached result of the row's target is
    gone afterwards, whichever scan of that target had filled the cache.
    If Redis does not answer, the deletion still succeeds and the cache is
    left as it was. *)
Theorem delete_scan_evicts_the_target
  (db : Database) (redis : Redis) (now : Z) (id : string) :
  dbUp db = true ->
  (deleteScan md5hex db redis now id).1.1
  = inr (bool_decide (is_Some (scans db !! id)))
  ∧ scans (deleteScan md5hex db redis now id).1.2 !! id = None
  ∧ (∀ id', id' ≠ id ->
       scans (deleteScan md5hex db redis now id).1.2 !! id' = scans db !! id')
  ∧ (∀ r later, scans db !! id = Some r -> up redis = true ->
       getScanResult md5hex (deleteScan md5hex db redis now id).2
                     later (repo_url r) (ScanStore.provider r) = None)
  ∧ (up redis = false ∨ scans db !! id = None ->
       (deleteScan md5hex db redis now id).2 = redis).
Proof.
  intros Hdb. unfold deleteScan, repositoryGetScanById, repositoryDeleteScan.
  rewrite Hdb.
  destruct (scans db !! id) as [r|] eqn:Hr; cbn [fst snd scans].
  - split; [done|]. split; [by rewrite lookup_delete_eq|].
    split; [by intros id' Hne; rewrite lookup_delete_ne|]. split.
    + intros r0 later [= <-] Hup.
      unfold deleteScanResult, redis_del. rewrite Hup. cbn [snd foldr].
      unfold getScanResult, redis_get. cbn [up entries].
      by rewrite lookup_delete_eq.
    + intros [Hdown|?]; [|done].
      unfold deleteScanResult, redis_del. by rewrite Hdown.
  - split; [done|]. split; [by rewrite lookup_delete_eq|].
    split; [by intros id' Hne; rewrite lookup_delete_ne|]. split; [done|done].
Qed.

End WithPlatform.

Lemma cache_hit_witness :
  up Samples.emptyRedis = true
  ∧ 0 < 86400
  ∧ cached (mkEnv None true (Resolved "{}" "") 100 250 251) = None
  ∧ ScanService.scanRepository Samples.sampleDecoder idle
      (mkEnv None true (Resolved "{}" "") 100 250 251) "https://github.com/org/repo" "github"
    = (idle,
       inr (toJS (mkScanResult "https://github.com/org/repo" "github"
                    (results (parseTruffleHogOutput Samples.sampleDecoder "{}"))
                    (mkMetadata 1 0 150 251))))
  ∧ 300 <= 1000 < 300 + 86400 * 1000
  ∧ ∃ scanResult,
      toJS (mkScanResult "https://github.com/org/repo" "github"
              (results (parseTruffleHogOutput Samples.sampleDecoder "{}"))
              (mkMetadata 1 0 150 251))
      = toJS scanResult
      ∧ ∃ v2,
          ScanService.scanRepository Samples.sampleDecoder saturated
            (mkEnv (getScanResult Samples.sampleDigest
                      (setScanResult Samples.sampleDigest 86400 Samples.emptyRedis 300
                         "https://github.com/org/repo" "github" scanResult None).2
                      1000 "https://github.com/org/repo" "github")
                   false (Rejected (Error "spawn ENOENT")) 1000 1001 1002)
            "https://github.com/org/repo" "github"
          = (saturated, inr v2)
          ∧ bodyData v2
            = bodyData (toJS (mkScanResult "https://github.com/org/repo" "github"
                                (results (parseTruffleHogOutput Samples.sampleDecoder "{}"))
                                (mkMetadata 1 0 150 251)))
          ∧ is_Some (bodyData (toJS (mkScanResult "https://github.com/org/repo" "github"
                                       (results (parseTruffleHogOutput Samples.sampleDecoder "{}"))
                                       (mkMetadata 1 0 150 251)))).
Proof.
  split; [reflexivity|]. split; [lia|]. split; [reflexivity|]. split; [reflexivity|].
  split; [lia|].
  apply (cache_hit_serves_the_same_body Samples.sampleDecoder Samples.sampleDigest 86400
           Samples.emptyRedis idle idle saturated
           (mkEnv None true (Resolved "{}" "") 100 250 251)
           "https://github.com/org/repo" "github" _ 300 1000 1001 1002 false
           (Rejected (Error "spawn ENOENT")));
    [reflexivity|lia|reflexivity|reflexivity|lia].
Defined.

Lemma delete_scan_witness :
  dbUp sampleDatabase = true
  ∧ (deleteScan Samples.sampleDigest sampleDatabase sampleStore 2000 "42").1.1 = inr true
  ∧ ∀ later,
      getScanResult Samples.sampleDigest
        (deleteScan Samples.sampleDigest sampleDatabase sampleStore 2000 "42").2
        later "https://github.com/org/repo" "github" = None.
Proof.
  split; [reflexivity|].
  destruct (delete_scan_evicts_the_target Samples.sampleDigest sampleDatabase sampleStore
              2000 "42" eq_refl) as (Hret & _ & _ & Hcache & _).
  split; [exact Hret|].
  intros later.
  exact (Hcache (mkScanRecord "https://github.com/org/repo" "github" JNull) later
           eq_refl eq_refl).
Defined.

End ScanStoreFacts.
